(** * Parchment (document-model core of the editor) and the image-grid embed

    A shallow embedding of [src/parchment/dist/parchment.js] and of the
    image-grid blot, with the properties proved about them.

    Conventions of the embedding.
    - JavaScript numbers that carry offsets, lengths and scope masks are
      integers in the code paths modelled here; they are [Z].  Bit operations
      are [Z.land] and [Z.lor].
    - The intrusive doubly linked list of the source is a Rocq [list] of its
      entries in [head .. tail] order; an entry is named by its position.
    - The four lookup objects of the registry are [gmap string _] for
      their own properties; reading them also finds the names inherited
      from [Object.prototype].
    - A string is the sequence of its code units, written as [ascii]: the
      values below 128 are the ASCII characters, the others stand for the
      code units outside ASCII, which the embedding does not tell apart (the
      letters, quotes and white space it knows are the ASCII ones).
    - A thrown exception is the [Err] constructor of [result]. *)

From Stdlib Require Import ZArith Lia Bool Ascii String List DecimalString.
From Stdlib Require DecimalZ DecimalPos.
From stdpp Require Import base option list gmap strings.
From Equations Require Import Equations.

Set Warnings "-register-all".

Local Open Scope string_scope.
Local Open Scope list_scope.
Local Open Scope Z_scope.

(** ** Errors *)

(** [ParchmentError] is class [o] of the source ([extends Error], message
    prefixed with "[Parchment] "); [JsError] is a plain [Error] or a
    [TypeError] raised by the host. *)
Inductive error : Type :=
| ParchmentError (msg : string)
| JsError (msg : string).

Inductive result (A : Type) : Type :=
| Ok (a : A)
| Err (e : error).
Arguments Ok {A} a.
Arguments Err {A} e.

Definition rbind {A B} (m : result A) (f : A -> result B) : result B :=
  match m with
  | Ok a => f a
  | Err e => Err e
  end.

#[global] Instance result_ret : MRet result := fun _ a => Ok a.
#[global] Instance result_bind : MBind result := fun _ _ f m => rbind m f.


(** ** Scope: the bit masks of [enum Scope] *)

Module Scope.
Definition TYPE : Z := 3.
Definition LEVEL : Z := 12.
Definition ATTRIBUTE : Z := 13.
Definition BLOT : Z := 14.
Definition INLINE : Z := 7.
Definition BLOCK : Z := 11.
Definition BLOCK_BLOT : Z := 10.
Definition INLINE_BLOT : Z := 6.
Definition BLOCK_ATTRIBUTE : Z := 9.
Definition INLINE_ATTRIBUTE : Z := 5.
Definition ANY : Z := 15.
End Scope.

(** ** The ordered container ([class n], LinkedList) *)

Module LinkedList.
Section Container.
Context {A : Type}.
Variable len : A -> Z.

(** [reduce((t,e) => t + e.length(), 0)], the total length. *)
Definition total (l : list A) : Z := foldr (fun a acc => len a + acc) 0 l.

(** [find(t, e = false)].  The loop of the source: [i] is the position of
    the current entry, [t] the remainder.  [None] is the result
    [[null, 0]]. *)
Fixpoint find_from (i : nat) (l : list A) (t : Z) (e : bool)
  : option (nat * Z) :=
  match l with
  | [] => None
  | cur :: rest =>
      let r := len cur in
      if (t <? r)
         || (e && (t =? r)
               && match rest with
                  | [] => true
                  | nxt :: _ => negb (len nxt =? 0)
                  end)
      then Some (i, t)
      else find_from (S i) rest (t - r) e
  end.

Definition find (l : list A) (t : Z) (e : bool) : option (nat * Z) :=
  find_from 0 l t e.

(** The tie-break as the specification words it: on a tie the search goes
    on to the next entry, unless that next entry has zero length. *)
Fixpoint find_as_worded_from (i : nat) (l : list A) (t : Z) (e : bool)
  : option (nat * Z) :=
  match l with
  | [] => None
  | cur :: rest =>
      let r := len cur in
      if (t <? r)
         || (e && (t =? r)
               && match rest with
                  | [] => false
                  | nxt :: _ => len nxt =? 0
                  end)
      then Some (i, t)
      else find_as_worded_from (S i) rest (t - r) e
  end.

Definition find_as_worded (l : list A) (t : Z) (e : bool) :=
  find_as_worded_from 0 l t e.

(** [at(t)]: the entry at position [t], walking while [t > 0]. *)
Fixpoint at_ (l : list A) (t : Z) : option A :=
  match l with
  | [] => None
  | s :: rest => if 0 <? t then at_ rest (t - 1) else Some s
  end.

(** [offset(t)]: sum of the lengths of the entries before position [i];
    [-1] when the entry is not in the list.  The entry is named by its
    position, so "not in the list" is "position out of range". *)
Fixpoint offset_from (e : Z) (l : list A) (i : nat) : Z :=
  match l, i with
  | [], _ => -1
  | _ :: _, O => e
  | s :: rest, S i' => offset_from (e + len s) rest i'
  end.

Definition offset (l : list A) (i : nat) : Z := offset_from 0 l i.

(** The loop of [forEachAt(t, e, s)] from the entry [find] returned: [n] is
    the offset at which the current entry starts.  The result is aligned
    with the list: [Some (off, cnt)] for an entry the visitor is called on,
    with the two numbers it is passed, [None] for an entry not visited. *)
Fixpoint forEachAt_loop (l : list A) (t e n : Z) : list (option (Z * Z)) :=
  match l with
  | [] => []
  | a :: rest =>
      if n <? t + e then
        let i := len a in
        (if n <? t
         then Some (t - n, Z.min e (n + i - t))
         else Some (0, Z.min i (t + e - n)))
          :: forEachAt_loop rest t e (n + i)
      else map (fun _ => None) l
  end.

Definition forEachAt (l : list A) (t e : Z) : list (option (Z * Z)) :=
  if e <=? 0 then map (fun _ => None) l
  else match find l t false with
       | None => map (fun _ => None) l
       | Some (i, r) =>
           repeat None i ++ forEachAt_loop (drop i l) t e (t - r)
       end.

(** The visits of [forEachAt(t, e, s)] in closed form: [n] is the offset at
    which the current entry starts.  An entry is visited when it ends after
    [t] and starts before [t + e]. *)
Fixpoint visits (l : list A) (t e n : Z) : list (option (Z * Z)) :=
  match l with
  | [] => []
  | a :: rest =>
      (if (n + len a <=? t) || (t + e <=? n) then None
       else Some (if n <? t
                  then (t - n, Z.min e (n + len a - t))
                  else (0, Z.min (len a) (t + e - n))))
        :: visits rest t e (n + len a)
  end.

(** The remainder the walk holds when it reaches position [i]. *)
Definition remainder (l : list A) (i : nat) (t : Z) : Z :=
  t - total (take i l).

(** The test under which the walk returns at position [i]. *)
Definition stops (l : list A) (i : nat) (r : Z) (e : bool) : Prop :=
  exists cur, l !! i = Some cur /\
    (r < len cur \/
     (e = true /\ r = len cur /\
      match l !! S i with
      | None => True
      | Some nxt => len nxt <> 0
      end)).

End Container.
End LinkedList.

(** ** JavaScript values and string helpers *)

(** The primitive values an attribute can be given.  Objects are compared by
    reference by [indexOf] and are left out. *)
Inductive prim : Type :=
| VUndefined
| VNull
| VBool (b : bool)
| VNum (n : Z)
| VStr (s : string).

#[global] Instance prim_eq_dec : EqDecision prim.
Proof. solve_decision. Defined.

(** [String(v)], as [setAttribute] applies it to its second argument.
    Integers print in decimal (the exponent form of large numbers is outside
    the model). *)
Definition to_String (v : prim) : string :=
  match v with
  | VUndefined => "undefined"
  | VNull => "null"
  | VBool true => "true"
  | VBool false => "false"
  | VNum n => DecimalString.NilZero.string_of_int (Z.to_int n)
  | VStr s => s
  end.

(** JavaScript truthiness of a primitive. *)
Definition truthy (v : prim) : bool :=
  match v with
  | VUndefined | VNull => false
  | VBool b => b
  | VNum n => negb (n =? 0)
  | VStr s => negb (String.eqb s EmptyString)
  end.

Definition is_quote (c : ascii) : bool :=
  (nat_of_ascii c =? 34)%nat || (nat_of_ascii c =? 39)%nat.

(** [e.replace(/[quotes]/g, empty)], the class holding the double and the single quote: every quote character is dropped. *)
Fixpoint remove_quotes (s : string) : string :=
  match s with
  | EmptyString => EmptyString
  | String c s' =>
      if is_quote c then remove_quotes s' else String c (remove_quotes s')
  end.




Definition upper_ascii (c : ascii) : ascii :=
  let n := nat_of_ascii c in
  if (97 <=? n)%nat && (n <=? 122)%nat then ascii_of_nat (n - 32) else c.

(** [s.toUpperCase()] on the ASCII letters (tag names are ASCII). *)
Fixpoint toUpperCase (s : string) : string :=
  match s with
  | EmptyString => EmptyString
  | String c s' => String (upper_ascii c) (toUpperCase s')
  end.

Definition lower_ascii (c : ascii) : ascii :=
  let n := nat_of_ascii c in
  if (65 <=? n)%nat && (n <=? 90)%nat then ascii_of_nat (n + 32) else c.

(** The ASCII lower-casing the host applies to attribute names. *)
Fixpoint toLowerCase (s : string) : string :=
  match s with
  | EmptyString => EmptyString
  | String c s' => String (lower_ascii c) (toLowerCase s')
  end.

(** The ASCII characters [\s] matches. *)
Definition is_space (c : ascii) : bool :=
  let n := nat_of_ascii c in
  ((9 <=? n)%nat && (n <=? 13)%nat) || (n =? 32)%nat.

(** [s.split(/\s+/)]: [cur] is the piece being read, [in_ws] tells that the
    previous character was white space. *)
Fixpoint split_ws_from (cur : string) (in_ws : bool) (s : string)
  : list string :=
  match s with
  | EmptyString => [cur]
  | String c s' =>
      if is_space c
      then if in_ws then split_ws_from cur true s'
           else cur :: split_ws_from EmptyString true s'
      else split_ws_from (cur ++ String c EmptyString)%string false s'
  end.

Definition split_ws (s : string) : list string :=
  split_ws_from EmptyString false s.

(** [s.slice(a, b)]. *)
Definition js_slice (s : string) (a b : Z) : string :=
  let len := Z.of_nat (String.length s) in
  let clamp := fun i => if i <? 0 then Z.max (len + i) 0 else Z.min i len in
  let a' := clamp a in
  let b' := clamp b in
  if a' <? b' then substring (Z.to_nat a') (Z.to_nat (b' - a')) s
  else EmptyString.

(** [s.slice(a)]. *)
Definition js_slice_from (s : string) (a : Z) : string :=
  js_slice s a (Z.of_nat (String.length s)).

(** [s.split(sep)] for a separator of one character: the pieces between
    its occurrences, at least one. *)
Fixpoint split_on_from (sep : ascii) (cur : string) (s : string)
  : list string :=
  match s with
  | EmptyString => [cur]
  | String c s' =>
      if Ascii.eqb c sep then cur :: split_on_from sep EmptyString s'
      else split_on_from sep (cur ++ String c EmptyString)%string s'
  end.

Definition split_on (sep : ascii) (s : string) : list string :=
  split_on_from sep EmptyString s.

(** ** The registry ([class a]) and the descriptors it holds *)

Inductive BlotKind : Type :=
| KLeaf | KEmbed | KImageGrid | KText
| KParent | KContainer | KInline | KBlock | KScroll.

Inductive AttrKind : Type := AttrPlain | AttrClass | AttrStyle.

Inductive DefKind : Type :=
| IsBlot (k : BlotKind)
| IsAttributor (k : AttrKind).

#[global] Instance BlotKind_eq_dec : EqDecision BlotKind.
Proof. solve_decision. Defined.
#[global] Instance AttrKind_eq_dec : EqDecision AttrKind.
Proof. solve_decision. Defined.
#[global] Instance DefKind_eq_dec : EqDecision DefKind.
Proof. solve_decision. Defined.

(** [tagName] is a string or an array of strings. *)
Inductive TagName : Type :=
| TagOne (s : string)
| TagMany (l : list string).

#[global] Instance TagName_eq_dec : EqDecision TagName.
Proof. solve_decision. Defined.

(** What [register] and [query] read of a definition: a blot class with its
    static fields, or an attributor instance.  An absent ([undefined]) field
    is [None]; an absent [scope] is [0], which is how the bit operations of
    [query] treat it.  A class is named by an identifier: [class_id] is the
    class's own, [lineage] lists those of the classes it extends (for
    [instanceof]), [allowedChildren] those of the classes it lists.
    [defaultChild] is the [blotName] of the class [statics.defaultChild]
    (the only field [optimize] reads of it); [requiredContainer] is the
    identifier and the [blotName] of that class.  [kind] tells which class of
    the source the methods come from. *)
Record Descriptor : Type := mkDescriptor {
  kind : DefKind;
  blotName : option string;
  attrName : option string;
  keyName : option string;
  className : option string;
  tagName : option TagName;
  scope : Z;
  whitelist : option (list prim);
  defaultChild : option string;
  requiredContainer : option (string * string);
  allowedChildren : option (list string);
  class_id : string;
  lineage : list string
}.

#[global] Instance Descriptor_eq_dec : EqDecision Descriptor.
Proof. solve_decision. Defined.

(** A host element, as far as the registry and the attributors read it: its
    tag name and its attributes. *)
Record Element : Type := mkElement {
  el_tag : string;
  el_attrs : gmap string string
}.

(** The elements are HTML elements of an HTML document: [getAttribute],
    [setAttribute] and [removeAttribute] lower-case the name they are given
    (its ASCII letters).  The names are taken to be valid attribute
    names. *)
Definition getAttribute (el : Element) (k : string) : option string :=
  el_attrs el !! toLowerCase k.

Definition setAttribute (el : Element) (k v : string) : Element :=
  {| el_tag := el_tag el; el_attrs := <[toLowerCase k := v]> (el_attrs el) |}.

Definition removeAttribute (el : Element) (k : string) : Element :=
  {| el_tag := el_tag el; el_attrs := delete (toLowerCase k) (el_attrs el) |}.

Module Registry.

(** The four lookup objects of the registry are plain objects: a table
    holds the definitions written under their names as own properties, and
    every table inherits the members of [Object.prototype].  Assigning under
    the name [__proto__] would replace that prototype instead of making a
    property; blot names, key names and class names are chosen by the
    program that registers, and are taken not to be that name. *)
Record t : Type := mk {
  attributes : gmap string Descriptor;
  classes : gmap string Descriptor;
  tags : gmap string Descriptor;
  types : gmap string Descriptor
}.

(** [constructor()]: four empty objects. *)
Definition empty : t :=
  {| attributes := ∅; classes := ∅; tags := ∅; types := ∅ |}.

(** The names every object inherits from [Object.prototype]. *)
Definition Object_prototype_names : list string :=
  ["constructor"; "__defineGetter__"; "__defineSetter__"; "hasOwnProperty";
   "__lookupGetter__"; "__lookupSetter__"; "isPrototypeOf";
   "propertyIsEnumerable"; "toString"; "valueOf"; "__proto__";
   "toLocaleString"].

(** What reading [table[k]] gives: a definition registered under [k], a
    member of [Object.prototype] (a function or an object: truthy, and
    without [scope]), or [undefined]. *)
Inductive Entry : Type :=
| Def (d : Descriptor)
| Inherited
| Missing.

(** [table[k]]. *)
Definition get (table : gmap string Descriptor) (k : string) : Entry :=
  match table !! k with
  | Some d => Def d
  | None =>
      if bool_decide (k ∈ Object_prototype_names) then Inherited
      else Missing
  end.

(** What [query] is called on: a string, a text node, a number (a scope
    mask), an element, or anything else. *)
Inductive Selector : Type :=
| SelString (s : string)
| SelTextNode
| SelNumber (n : Z)
| SelElement (el : Element)
| SelOther.

(** [cls.some(t => !!(s = this.classes[t]))]: [s] after the call, which
    stops at the first class token whose entry is truthy. *)
Fixpoint first_class (reg : t) (cls : list string) : Entry :=
  match cls with
  | [] => Missing
  | c :: rest =>
      match get (classes reg) c with
      | Missing => first_class reg rest
      | found => found
      end
  end.

Definition class_tokens (el : Element) : list string :=
  split_ws (default EmptyString (getAttribute el "class")).

(** The first half of [query]: the value [s] the selector leads to. *)
Definition resolve (reg : t) (sel : Selector) : Entry :=
  match sel with
  | SelString s =>
      match get (types reg) s with
      | Missing => get (attributes reg) s
      | found => found
      end
  | SelTextNode => get (types reg) "text"
  | SelNumber n =>
      if negb (Z.land (Z.land n Scope.LEVEL) Scope.BLOCK =? 0)
      then get (types reg) "block"
      else if negb (Z.land (Z.land n Scope.LEVEL) Scope.INLINE =? 0)
           then get (types reg) "inline"
           else Missing
  | SelElement el =>
      match first_class reg (class_tokens el) with
      | Missing => get (tags reg) (el_tag el)
      | found => found
      end
  | SelOther => Missing
  end.

(** [e & LEVEL & s.scope && e & TYPE & s.scope]. *)
Definition scope_matches (e : Z) (d : Descriptor) : bool :=
  negb (Z.land (Z.land e Scope.LEVEL) (scope d) =? 0)
  && negb (Z.land (Z.land e Scope.TYPE) (scope d) =? 0).

(** [query(t, e = Scope.ANY)]: [null] unless [s] is a definition whose
    scope meets the mask; an inherited member has no [scope]. *)
Definition query (reg : t) (sel : Selector) (e : Z) : option Descriptor :=
  match resolve reg sel with
  | Def d => if scope_matches e d then Some d else None
  | Inherited | Missing => None
  end.

Definition tag_list (tn : TagName) : list string :=
  match tn with
  | TagOne s => [s]
  | TagMany l => l
  end.

(** [register] writes the upper-cased tag names back into the definition;
    every index holds that same object. *)
Definition upper_tags (tn : TagName) : TagName :=
  match tn with
  | TagOne s => TagOne (toUpperCase s)
  | TagMany l => TagMany (map toUpperCase l)
  end.

Definition with_tagName (e : Descriptor) (tn : option TagName) : Descriptor :=
  mkDescriptor (kind e) (blotName e) (attrName e) (keyName e) (className e)
    tn (scope e) (whitelist e) (defaultChild e) (requiredContainer e)
    (allowedChildren e) (class_id e) (lineage e).

(** The definition as the indexes hold it once [register] returns. *)
Definition stored (e : Descriptor) : Descriptor :=
  match keyName e with
  | Some _ => e
  | None => with_tagName e (upper_tags <$> tagName e)
  end.

(** [e.blotName || e.attrName], as a property key. *)
Definition type_key (e : Descriptor) : string :=
  match blotName e with
  | Some b => if String.eqb b EmptyString then default "undefined" (attrName e) else b
  | None => default "undefined" (attrName e)
  end.


(** [null != this.tags[t] && null != e.className || (this.tags[t] = e)],
    over the tag names in order. *)
Fixpoint register_tags (e : Descriptor) (ts : list string)
    (tg : gmap string Descriptor) : gmap string Descriptor :=
  match ts with
  | [] => tg
  | tname :: rest =>
      let tg' :=
        match get tg tname, className e with
        | (Def _ | Inherited), Some _ => tg
        | _, _ => <[tname := e]> tg
        end in
      register_tags e rest tg'
  end.

(** [register(e)] with one argument. *)
Definition register (e : Descriptor) (reg : t) : result (Descriptor * t) :=
  match blotName e, attrName e with
  | None, None => Err (ParchmentError "Invalid definition")
  | _, _ =>
      if decide (blotName e = Some "abstract")
      then Err (ParchmentError "Cannot register abstract class")
      else
        let e' := stored e in
        let types' := <[type_key e := e']> (types reg) in
        match keyName e with
        | Some k =>
            Ok (e', mk (<[k := e']> (attributes reg)) (classes reg)
                       (tags reg) types')
        | None =>
            let classes' :=
              match className e with
              | Some c => <[c := e']> (classes reg)
              | None => classes reg
              end in
            let tags' :=
              match tagName e' with
              | Some tn => register_tags e' (tag_list tn) (tags reg)
              | None => tags reg
              end in
            Ok (e', mk (attributes reg) classes' tags' types')
        end
  end.

(** [t.map(t => this.register(t))]: each definition in turn; the first
    failure is thrown. *)
Fixpoint register_each (es : list Descriptor) (reg : t)
  : result (list Descriptor * t) :=
  match es with
  | [] => Ok ([], reg)
  | e :: rest =>
      '(d, reg1) ← register e reg;
      '(ds, reg2) ← register_each rest reg1;
      Ok (d :: ds, reg2)
  end.

(** [register(...t)]: with several arguments the definitions are registered
    in turn and the array of the results is returned; with one, that
    definition is returned (it is the one element of the list here); without
    any, [t[0]] is [undefined] and reading its [blotName] throws. *)
Definition register_all (es : list Descriptor) (reg : t)
  : result (list Descriptor * t) :=
  match es with
  | [] => Err (JsError "TypeError: Cannot read properties of undefined")
  | _ => register_each es reg
  end.

(** The registry after one call of [register] for each of [es], none of
    which throws. *)
Definition after (es : list Descriptor) (reg : t) : option t :=
  match register_each es reg with
  | Ok (_, reg') => Some reg'
  | Err _ => None
  end.

End Registry.

(** ** The blot classes of the source, as descriptors *)

Module Classes.

(** [InlineBlot] ([class E]). *)
Definition InlineBlot : Descriptor :=
  {| kind := IsBlot KInline; blotName := Some "inline"; attrName := None;
     keyName := None; className := None; tagName := Some (TagOne "SPAN");
     scope := Scope.INLINE_BLOT; whitelist := None; defaultChild := None;
     requiredContainer := None;
     allowedChildren := Some ["InlineBlot"; "LeafBlot"];
     class_id := "InlineBlot"; lineage := ["ParentBlot"; "ShadowBlot"] |}.

(** [BlockBlot] ([class B]). *)
Definition BlockBlot : Descriptor :=
  {| kind := IsBlot KBlock; blotName := Some "block"; attrName := None;
     keyName := None; className := None; tagName := Some (TagOne "P");
     scope := Scope.BLOCK_BLOT; whitelist := None; defaultChild := None;
     requiredContainer := None;
     allowedChildren := Some ["InlineBlot"; "BlockBlot"; "LeafBlot"];
     class_id := "BlockBlot"; lineage := ["ParentBlot"; "ShadowBlot"] |}.

(** [ContainerBlot] ([class m]); it declares no [tagName] and no
    [allowedChildren]. *)
Definition ContainerBlot : Descriptor :=
  {| kind := IsBlot KContainer; blotName := Some "container";
     attrName := None; keyName := None; className := None; tagName := None;
     scope := Scope.BLOCK_BLOT; whitelist := None; defaultChild := None;
     requiredContainer := None; allowedChildren := None;
     class_id := "ContainerBlot"; lineage := ["ParentBlot"; "ShadowBlot"] |}.

(** [ScrollBlot] ([class I]). *)
Definition ScrollBlot : Descriptor :=
  {| kind := IsBlot KScroll; blotName := Some "scroll"; attrName := None;
     keyName := None; className := None; tagName := Some (TagOne "DIV");
     scope := Scope.BLOCK_BLOT; whitelist := None;
     defaultChild := Some "block"; requiredContainer := None;
     allowedChildren := Some ["BlockBlot"; "ContainerBlot"];
     class_id := "ScrollBlot"; lineage := ["ParentBlot"; "ShadowBlot"] |}.

(** [TextBlot] ([class _]); its scope is [LeafBlot]'s. *)
Definition TextBlot : Descriptor :=
  {| kind := IsBlot KText; blotName := Some "text"; attrName := None;
     keyName := None; className := None; tagName := None;
     scope := Scope.INLINE_BLOT; whitelist := None; defaultChild := None;
     requiredContainer := None; allowedChildren := None;
     class_id := "TextBlot"; lineage := ["LeafBlot"; "ShadowBlot"] |}.

(** [ImageGrid]; its scope is that of the block embed it extends,
    [Scope.BLOCK_BLOT]. *)
Definition ImageGrid : Descriptor :=
  {| kind := IsBlot KImageGrid; blotName := Some "image-grid";
     attrName := None; keyName := None; className := Some "image-grid";
     tagName := Some (TagOne "DIV");
     scope := Scope.BLOCK_BLOT; whitelist := None; defaultChild := None;
     requiredContainer := None; allowedChildren := None;
     class_id := "ImageGrid";
     lineage := ["BlockEmbed"; "EmbedBlot"; "LeafBlot"; "ShadowBlot"] |}.

(** [child instanceof cls], for the class named [cls]. *)
Definition instanceof (d : Descriptor) (cls : string) : bool :=
  bool_decide (cls ∈ class_id d :: lineage d).

End Classes.

(** ** The fixed-point loop of [ScrollBlot.optimize] *)

Module ScrollOptimize.
Section Loop.

(** The host side of the loop: the change records ([Record]) and the state
    of the tree, of the host nodes and of the observer's queue ([World]).
    [takeRecords] is [this.observer.takeRecords()], [super_optimize] is
    [super.optimize(e)], [mark] is [o.forEach(t => ...)], which enters the
    blots the records implicate and their ancestors in the mutations map, and
    [visit] is [this.children.forEach(n)], which optimizes the marked blots
    bottom-up.  The loop is modelled for every such host. *)
Context {Record World : Type}.
Variable takeRecords : World -> list Record * World.
Variable super_optimize : World -> World.
Variable mark : list Record -> World -> World.
Variable visit : World -> World.

(** [const w = 100]. *)
Definition w : nat := 100.

Definition max_iterations : error :=
  JsError "[Parchment] Maximum optimize iterations reached".

(** [for (; i.length > 0;) t.push(i.pop())]. *)
Definition push_popped (t i : list Record) : list Record := t ++ rev i.

(** One pass of the loop body: the records for the next pass, the
    accumulated list [t], and the state. *)
Definition body (o t : list Record) (wd : World)
  : list Record * list Record * World :=
  let wd1 := visit (mark o wd) in
  let '(o', wd2) := takeRecords wd1 in
  (o', push_popped t o', wd2).

(** [for (let e = 0; o.length > 0; e += 1) { if (e >= w) throw ...; body }].
    The second component of the result is the value of the counter [e] when
    the loop is left, that is the number of passes made. *)
Equations optimize_loop (e : nat) (o t : list Record) (wd : World)
  : result (list Record * World) * nat by wf (w - e)%nat lt :=
optimize_loop e [] t wd := (Ok (t, wd), e);
optimize_loop e (x :: xs) t wd with le_lt_dec w e := {
  | left _ := (Err max_iterations, e);
  | right _ := optimize_loop (S e) (body (x :: xs) t wd).1.1
                 (body (x :: xs) t wd).1.2 (body (x :: xs) t wd).2 }.
Next Obligation. unfold w in *. lia. Qed.

(** [optimize(t = [], e = {})]. *)
Definition optimize (t : list Record) (wd : World)
  : result (list Record * World) :=
  let wd0 := super_optimize wd in
  let '(i, wd1) := takeRecords wd0 in
  let t1 := push_popped t i in
  (optimize_loop 0 t1 t1 wd1).1.

(** The state after [k] passes of the body, were the loop not left. *)
Fixpoint iterate (k : nat) (o t : list Record) (wd : World)
  : list Record * list Record * World :=
  match k with
  | O => (o, t, wd)
  | S k' => let '(o1, t1, wd1) := iterate k' o t wd in body o1 t1 wd1
  end.

(** The records the loop test sees after [k] passes. *)
Definition pending (k : nat) (o t : list Record) (wd : World) : list Record :=
  (iterate k o t wd).1.1.

End Loop.
End ScrollOptimize.

(** ** Host nodes and values *)

(** The values a blot is created from and reports: JSON data.  [undefined] is
    [None] of [option json]. *)
Inductive json : Type :=
| JNull
| JBool (b : bool)
| JNum (n : Z)
| JStr (s : string)
| JArr (l : list json)
| JObj (fields : list (string * json)).

(** A host node: a text node, an element with its child nodes, or a node of
    another type (a comment, say). *)
Inductive Node : Type :=
| NText (data : string)
| NElem (el : Element) (children : list Node)
| NOther.

(** [Array.from(t.childNodes)]. *)
Definition childNodes (n : Node) : list Node :=
  match n with
  | NElem _ kids => kids
  | _ => []
  end.

(** [o[k]] on a value: the first field named [k] of an object, [undefined]
    otherwise. *)
Fixpoint assoc (k : string) (fields : list (string * json)) : option json :=
  match fields with
  | [] => None
  | (k', v) :: rest => if String.eqb k k' then Some v else assoc k rest
  end.

Definition get_field (k : string) (v : json) : option json :=
  match v with
  | JObj fields => assoc k fields
  | _ => None
  end.

Definition join_with (sep : string) (l : list string) : string :=
  match l with
  | [] => EmptyString
  | x :: rest => fold_left (fun acc y => (acc ++ sep ++ y)%string) rest x
  end.

(** [String(v)].  An object is converted through its [toString] member:
    the inherited one gives [[object Object]]; an own member of that name
    is data, not a function, and the conversion throws (the inherited
    [valueOf] returns the object itself).  An array joins the strings of its
    elements, [null] counting as the empty string. *)
Fixpoint json_to_String (v : json) : result string :=
  match v with
  | JNull => Ok "null"
  | JBool true => Ok "true"
  | JBool false => Ok "false"
  | JNum n => Ok (NilZero.string_of_int (Z.to_int n))
  | JStr s => Ok s
  | JArr l =>
      parts ← (fix go (l : list json) : result (list string) :=
                 match l with
                 | [] => Ok []
                 | x :: rest =>
                     p ← match x with
                         | JNull => Ok EmptyString
                         | _ => json_to_String x
                         end;
                     ps ← go rest;
                     Ok (p :: ps)
                 end) l;
      Ok (join_with "," parts)
  | JObj fields =>
      match assoc "toString" fields with
      | Some _ =>
          Err (JsError "TypeError: Cannot convert object to primitive value")
      | None => Ok "[object Object]"
      end
  end.

Definition to_String_opt (v : option json) : result string :=
  match v with
  | None => Ok "undefined"
  | Some j => json_to_String j
  end.

(** The integer a string is the canonical decimal form of:
    [parseInt(t, 10).toString() === t]. *)
Definition canonical_int (s : string) : option Z :=
  match NilZero.int_of_string s with
  | Some i =>
      let z := Z.of_int i in
      if String.eqb (NilZero.string_of_int (Z.to_int z)) s then Some z
      else None
  | None => None
  end.

(** [document.createElement(name)] for an HTML document: a fresh element
    whose [tagName] reads in upper case.  The names are taken to be valid
    element names. *)
Definition createElement (name : string) : Element :=
  {| el_tag := toUpperCase name; el_attrs := ∅ |}.

(** ASCII white space, which separates the tokens of a class attribute for
    the host (the vertical tab is not among it). *)
Definition is_ascii_ws (c : ascii) : bool :=
  let n := nat_of_ascii c in
  (n =? 9)%nat || (n =? 10)%nat || (n =? 12)%nat || (n =? 13)%nat
  || (n =? 32)%nat.

Definition has_ascii_ws (s : string) : bool :=
  existsb is_ascii_ws (list_ascii_of_string s).

(** The pieces of a string between runs of ASCII white space. *)
Fixpoint ws_tokens_from (cur : string) (s : string) : list string :=
  match s with
  | EmptyString => if String.eqb cur EmptyString then [] else [cur]
  | String c s' =>
      if is_ascii_ws c
      then if String.eqb cur EmptyString then ws_tokens_from EmptyString s'
           else cur :: ws_tokens_from EmptyString s'
      else ws_tokens_from (cur ++ String c EmptyString)%string s'
  end.

(** An ordered set: each token once, at its first place. *)
Definition set_append (acc : list string) (tok : string) : list string :=
  if bool_decide (tok ∈ acc) then acc else acc ++ [tok].

(** [el.classList] as the host reads it from the class attribute. *)
Definition token_set (el : Element) : list string :=
  foldl set_append []
    (ws_tokens_from EmptyString (default EmptyString (getAttribute el "class"))).

(** The update of the class attribute after the token set changed: nothing
    when there is no attribute and no token, the tokens joined by a space
    otherwise. *)
Definition update_class (el : Element) (toks : list string) : Element :=
  match getAttribute el "class", toks with
  | None, [] => el
  | _, _ => setAttribute el "class" (join_with " " toks)
  end.

(** The test [classList.add] and [classList.remove] make of each token. *)
Definition check_token (tok : string) : result unit :=
  if String.eqb tok EmptyString
  then Err (JsError "SyntaxError: the token must not be empty")
  else if has_ascii_ws tok
       then Err (JsError "InvalidCharacterError: the token contains white space")
       else Ok tt.

Fixpoint check_tokens (toks : list string) : result unit :=
  match toks with
  | [] => Ok tt
  | tok :: rest => _ ← check_token tok; check_tokens rest
  end.

(** [el.classList.add(tok1, tok2, ...)]: every token is checked, then each
    joins the set unless it is there, then the attribute is updated. *)
Definition classList_add_all (el : Element) (toks : list string)
  : result Element :=
  _ ← check_tokens toks;
  Ok (update_class el (foldl set_append (token_set el) toks)).

(** [el.classList.add(tok)]. *)
Definition classList_add (el : Element) (tok : string) : result Element :=
  classList_add_all el [tok].

(** [el.classList.remove(tok)]. *)
Definition classList_remove (el : Element) (tok : string) : result Element :=
  _ ← check_token tok;
  Ok (update_class el
        (List.filter (fun x => negb (String.eqb x tok)) (token_set el))).

(** [el.classList.length]. *)
Definition classList_length (el : Element) : nat :=
  List.length (token_set el).

(** ** [ShadowBlot.create], the static method *)

Module ShadowBlot.

(** [tagName[i]] *)
Definition tag_at (l : list string) (i : Z) : string :=
  if i <? 0 then "undefined" else default "undefined" (l !! Z.to_nat i).

(** The element name [create(t)] passes to [createElement]. *)
Definition element_name (tn : TagName) (t : option json) : string :=
  match tn with
  | TagOne s => s
  | TagMany l =>
      let t' := match t with
                | Some (JStr s) =>
                    let u := toUpperCase s in
                    match canonical_int u with
                    | Some z => Some (JNum z)
                    | None => Some (JStr u)
                    end
                | _ => t
                end in
      match t' with
      | Some (JNum n) => tag_at l (n - 1)
      | Some (JStr s) => if bool_decide (s ∈ l) then s else tag_at l 0
      | _ => tag_at l 0
      end
  end.

(** [static create(t)]. *)
Definition create (cls : Descriptor) (t : option json) : result Element :=
  match tagName cls with
  | None => Err (ParchmentError "Blot definition missing tagName")
  | Some tn =>
      let e := createElement (element_name tn t) in
      match className cls with
      | Some c =>
          if String.eqb c EmptyString then Ok e else classList_add e c
      | None => Ok e
      end
  end.

End ShadowBlot.

(** ** The host functions the blots call *)

(** [JSON.stringify] and [JSON.parse] belong to the host; [link_sanitize] is
    [sanitize] of [formats/link], which the image grid imports;
    [imageGridId] is what [imageGridId()] draws with [Math.random];
    [String_normalize] is [String.prototype.normalize]; [Number_positive s]
    is [Number(s) > 0] for a string [s]; [style_get el p] is [el.style[p]]
    and [style_set el p v] the element after [el.style[p] = v] (the host
    parses the value and rewrites the style attribute).  The blots and the
    attributors are modelled for every such host. *)
Record Host : Type := mkHost {
  JSON_stringify : json -> string;
  JSON_parse : string -> option json;
  link_sanitize : string -> list string -> bool;
  imageGridId : string;
  String_normalize : string -> string;
  Number_positive : string -> bool;
  style_get : Element -> string -> string;
  style_set : Element -> string -> prim -> Element
}.

(** ** Attributor ([class b]), ClassAttributor ([class y]) and
    StyleAttributor ([class A]) *)

Module Attributor.

(** [new Attributor(attrName, keyName, {scope, whitelist})]; the two
    subclasses inherit the constructor. *)
Definition new (k : AttrKind) (attrName keyName : string)
    (opt_scope : option Z) (opt_whitelist : option (list prim))
  : Descriptor :=
  let i := Z.land Scope.TYPE Scope.ATTRIBUTE in
  {| kind := IsAttributor k;
     blotName := None;
     attrName := Some attrName;
     keyName := Some keyName;
     className := None;
     tagName := None;
     scope := match opt_scope with
              | Some s => Z.lor (Z.land s Scope.LEVEL) i
              | None => Scope.ATTRIBUTE
              end;
     whitelist := opt_whitelist;
     defaultChild := None;
     requiredContainer := None;
     allowedChildren := None;
     class_id := match k with
                 | AttrPlain => "Attributor"
                 | AttrClass => "ClassAttributor"
                 | AttrStyle => "StyleAttributor"
                 end;
     lineage := match k with
                | AttrPlain => []
                | _ => ["Attributor"]
                end |}.

(** [whitelist.indexOf(v) > -1]: strict equality on primitives. *)
Definition in_whitelist (wl : list prim) (v : prim) : bool :=
  existsb (fun w => bool_decide (w = v)) wl.

(** [canAdd(node, e)], which the subclasses inherit. *)
Definition canAdd (a : Descriptor) (e : prim) : bool :=
  match whitelist a with
  | None => true
  | Some wl =>
      match e with
      | VStr s => in_whitelist wl (VStr (remove_quotes s))
      | _ => in_whitelist wl e
      end
  end.


(** [this.keyName] where a string is made of it. *)
Definition key (a : Descriptor) : string := default "undefined" (keyName a).

(** *** [Attributor] itself *)

(** [add(node, e)]: the node afterwards and the boolean returned. *)
Definition plain_add (a : Descriptor) (node : Element) (e : prim)
  : Element * bool :=
  if canAdd a e then (setAttribute node (key a) (to_String e), true)
  else (node, false).

(** [remove(node)]. *)
Definition plain_remove (a : Descriptor) (node : Element) : Element :=
  removeAttribute node (key a).

(** [getAttribute] gives a string or [null]. *)
Definition read (a : Descriptor) (node : Element) : prim :=
  match getAttribute node (key a) with
  | Some s => VStr s
  | None => VNull
  end.

(** [value(node)]: [canAdd(node, e) && e ? e : (empty string)]. *)
Definition plain_value (a : Descriptor) (node : Element) : string :=
  let e := read a node in
  if canAdd a e && truthy e
  then match e with VStr s => s | _ => EmptyString end
  else EmptyString.

(** *** [ClassAttributor] *)

(** [function g(node, prefix)]: the pieces of the class attribute, cut at
    white space, that start with the prefix and a dash. *)
Definition class_matches (node : Element) (prefix : string) : list string :=
  List.filter (String.prefix (prefix ++ "-")%string)
    (split_ws (default EmptyString (getAttribute node "class"))).

Fixpoint remove_tokens (node : Element) (toks : list string)
  : result Element :=
  match toks with
  | [] => Ok node
  | tok :: rest => n ← classList_remove node tok; remove_tokens n rest
  end.

(** [remove(node)]: every matching token leaves the class list; an empty
    class list takes the attribute with it. *)
Definition class_remove (a : Descriptor) (node : Element) : result Element :=
  n ← remove_tokens node (class_matches node (key a));
  if (classList_length n =? 0)%nat then Ok (removeAttribute n "class")
  else Ok n.

(** [add(node, e)]. *)
Definition class_add (a : Descriptor) (node : Element) (e : prim)
  : result (Element * bool) :=
  if canAdd a e then
    n1 ← class_remove a node;
    n2 ← classList_add n1 (key a ++ "-" ++ to_String e)%string;
    Ok (n2, true)
  else Ok (node, false).

(** [value(node)]: the first matching token without its prefix;
    [this.keyName.length] throws when there is no key name. *)
Definition class_value (a : Descriptor) (node : Element) : result string :=
  let tok := default EmptyString (head (class_matches node (key a))) in
  match keyName a with
  | None => Err (JsError "TypeError: Cannot read properties of undefined")
  | Some k =>
      let e := js_slice_from tok (Z.of_nat (String.length k) + 1) in
      Ok (if canAdd a (VStr e) then e else EmptyString)
  end.

(** *** [StyleAttributor] *)

(** The key of a style attributor is taken to name, in its camel case, a
    property the style object of the host has: reading it gives a
    string. *)

Section WithHost.
Variable host : Host.

(** [function v(name)]: the dashed name in camel case; a piece after a dash
    that is empty has no first character to upper-case. *)
Fixpoint camel_rest (parts : list string) : result string :=
  match parts with
  | [] => Ok EmptyString
  | EmptyString :: _ =>
      Err (JsError "TypeError: Cannot read properties of undefined")
  | String c p :: rest =>
      tl ← camel_rest rest;
      Ok (String (upper_ascii c) p ++ tl)%string
  end.

Definition camelize (a : Descriptor) : result string :=
  match keyName a with
  | None => Err (JsError "TypeError: Cannot read properties of undefined")
  | Some k =>
      match split_on "-"%char k with
      | [] => Ok EmptyString
      | first :: rest => tl ← camel_rest rest; Ok (first ++ tl)%string
      end
  end.

(** [add(node, e)]. *)
Definition style_add (a : Descriptor) (node : Element) (e : prim)
  : result (Element * bool) :=
  if canAdd a e then p ← camelize a; Ok (style_set host node p e, true)
  else Ok (node, false).

(** [remove(node)]: the property is emptied; an empty or absent style
    attribute is removed. *)
Definition style_remove (a : Descriptor) (node : Element) : result Element :=
  p ← camelize a;
  let n := style_set host node p (VStr EmptyString) in
  match getAttribute n "style" with
  | None | Some EmptyString => Ok (removeAttribute n "style")
  | Some _ => Ok n
  end.

(** [value(node)]. *)
Definition style_value (a : Descriptor) (node : Element) : result string :=
  p ← camelize a;
  let e := style_get host node p in
  Ok (if canAdd a (VStr e) then e else EmptyString).

(** *** The methods, by the class of the attributor *)

(** A definition that is a blot class is not an attributor and has no [add]
    or [remove]; these methods are for attributors, and a call on a blot
    class is given as the error of a missing method (the static [value] of
    the leaf classes is [LeafBlot.static_value]). *)

Definition not_an_attributor {A : Type} (m : string) : result A :=
  Err (JsError ("TypeError: " ++ m ++ " is not a function")).

(** [a.add(node, e)]. *)
Definition add (a : Descriptor) (node : Element) (e : prim)
  : result (Element * bool) :=
  match kind a with
  | IsAttributor AttrPlain => Ok (plain_add a node e)
  | IsAttributor AttrClass => class_add a node e
  | IsAttributor AttrStyle => style_add a node e
  | IsBlot _ => not_an_attributor "add"
  end.

(** [a.remove(node)]. *)
Definition remove (a : Descriptor) (node : Element) : result Element :=
  match kind a with
  | IsAttributor AttrPlain => Ok (plain_remove a node)
  | IsAttributor AttrClass => class_remove a node
  | IsAttributor AttrStyle => style_remove a node
  | IsBlot _ => not_an_attributor "remove"
  end.

(** [a.value(node)]. *)
Definition value (a : Descriptor) (node : Element) : result string :=
  match kind a with
  | IsAttributor AttrPlain => Ok (plain_value a node)
  | IsAttributor AttrClass => class_value a node
  | IsAttributor AttrStyle => style_value a node
  | IsBlot _ => not_an_attributor "value"
  end.

End WithHost.
End Attributor.

(** ** The image grid *)

Module ImageGrid.
Section WithHost.
Variable host : Host.

(** [const MAX_IMAGE_LENGTH = 3] and [static getMaxLength()]. *)
Definition MAX_IMAGE_LENGTH : Z := 3.
Definition getMaxLength : Z := MAX_IMAGE_LENGTH.

Definition type_error (msg : string) : error := JsError msg.

(** [JSON.stringify(data)] handed to [setAttribute]: [undefined] prints as
    such. *)
Definition stringify_attr (data : option json) : string :=
  match data with
  | None => "undefined"
  | Some d => JSON_stringify host d
  end.

(** [static sanitize(url)], on the string the URL is written as. *)
Definition sanitize (url : string) : string :=
  if link_sanitize host url ["http"; "https"; "data"] then url else "//:0".

Definition string_of_index (i : nat) : string :=
  NilZero.string_of_uint (Nat.to_uint i).

(** A [div] with the given class tokens and no child. *)
Definition bar (toks : list string) : result Node :=
  el ← classList_add_all (createElement "div") toks;
  Ok (NElem el []).

(** One drop helper: [drop-index] is its position. *)
Definition dropHelper (i : nat) : result Node :=
  el ← classList_add (createElement "div") "image-grid-drop-helper";
  Ok (NElem (setAttribute el "drop-index" (string_of_index i)) []).

(** [for (let i = 0; i <= data.length; i++)]: [n + 1] helpers from [i]. *)
Fixpoint dropHelpers (i n : nat) : result (list Node) :=
  h ← dropHelper i;
  match n with
  | O => Ok [h]
  | S n' => hs ← dropHelpers (S i) n'; Ok (h :: hs)
  end.

(** The destructuring [{ attributes: { ratio } }] of one item in
    [data.reduce]: it throws unless [item.attributes] is there. *)
Definition item_attributes (item : json) : result json :=
  match get_field "attributes" item with
  | None | Some JNull =>
      Err (type_error "TypeError: cannot destructure attributes")
  | Some a => Ok a
  end.

(** [Number(v)] converts an object or an array through [String]; that is
    where it can throw. *)
Definition Number_check (v : option json) : result unit :=
  match v with
  | Some (JArr l) => _ ← json_to_String (JArr l); Ok tt
  | Some (JObj fields) => _ ← json_to_String (JObj fields); Ok tt
  | _ => Ok tt
  end.

(** [data.reduce((accumulator, { attributes: { ratio } }) =>
    accumulator + Number(ratio), 0)], for what it throws; the sum only
    enters the widths. *)
Fixpoint reduce_ratios (items : list json) : result unit :=
  match items with
  | [] => Ok tt
  | item :: rest =>
      attrs ← item_attributes item;
      _ ← Number_check (get_field "ratio" attrs);
      reduce_ratios rest
  end.

(** [v > 0] for what [inlineComment.length] reads. *)
Definition gt_zero (v : option json) : result bool :=
  match v with
  | None | Some JNull => Ok false
  | Some (JBool b) => Ok b
  | Some (JNum n) => Ok (0 <? n)
  | Some (JStr s) => Ok (Number_positive host s)
  | Some j => s ← json_to_String j; Ok (Number_positive host s)
  end.

(** [inlineComment.forEach(commentId => container.classList.add(commentId))]
    on an array. *)
Fixpoint add_comments (el : Element) (ids : list json) : result Element :=
  match ids with
  | [] => Ok el
  | id :: rest =>
      tok ← json_to_String id;
      el' ← classList_add el tok;
      add_comments el' rest
  end.

(** [if (inlineComment && inlineComment.length > 0) inlineComment.forEach(...)]:
    only an array has a [forEach]. *)
Definition comment_tokens (el : Element) (inlineComment : option json)
  : result Element :=
  match inlineComment with
  | None | Some JNull | Some (JBool _) | Some (JNum _) => Ok el
  | Some (JStr s) =>
      if String.eqb s EmptyString then Ok el
      else Err (type_error "TypeError: forEach is not a function")
  | Some (JArr l) => add_comments el l
  | Some (JObj fields) =>
      positive ← gt_zero (assoc "length" fields);
      if positive : bool
      then Err (type_error "TypeError: forEach is not a function")
      else Ok el
  end.

(** The container built for one item of [data.forEach].  The width written
    to [style] (a floating-point percentage), the [value] property of the
    input and the event listeners are not part of the node as modelled. *)
Definition item_container (index : nat) (item : json) : result Node :=
  attrs ← item_attributes item;
  let imageSrc := get_field "image" item in
  let caption := get_field "caption" attrs in
  src ← to_String_opt imageSrc;
  cap ← to_String_opt caption;
  let img :=
    setAttribute
      (setAttribute (createElement "IMG") "src" (sanitize src))
      "caption" cap in
  let input0 :=
    setAttribute
      (setAttribute
         (setAttribute
            (setAttribute (createElement "input") "type" "text")
            "maxlength" "40")
         "placeholder" "Write a caption")
      "spellcheck" "false" in
  input ← classList_add input0 "caption";
  c1 ← classList_add_all (createElement "DIV")
         ["image-grid-item-container"; "ql-img"];
  c2 ← comment_tokens c1 (get_field "inline-comment" attrs);
  let c3 := setAttribute
              (setAttribute c2 "item-index" (string_of_index index))
              "contenteditable" "false" in
  Ok (NElem c3 [NElem img []; NElem input []]).

Fixpoint item_containers (index : nat) (items : list json)
  : result (list Node) :=
  match items with
  | [] => Ok []
  | item :: rest =>
      c ← item_container index item;
      cs ← item_containers (S index) rest;
      Ok (c :: cs)
  end.

Definition add_class (n : Node) (tok : string) : result Node :=
  match n with
  | NElem el kids => el' ← classList_add el tok; Ok (NElem el' kids)
  | _ => Err (type_error "TypeError: classList of a non-element")
  end.

(** [firstElementChild.classList.add('left')] and
    [lastElementChild.classList.add('right')]. *)
Definition mark_ends (cs : list Node) : result (list Node) :=
  match cs with
  | [] => Err (type_error "TypeError: firstElementChild is null")
  | c :: rest =>
      c' ← add_class c "left";
      match reverse (c' :: rest) with
      | [] => Ok []
      | z :: front => z' ← add_class z "right"; Ok (reverse (z' :: front))
      end
  end.

(** [static create(value)]; [cls] is the class it is called on. *)
Definition create (cls : Descriptor) (value : option json) : result Node :=
  node ← ShadowBlot.create cls None;
  match value with
  | None | Some JNull => Err (type_error "TypeError: cannot destructure data")
  | Some v =>
      let data := get_field "data" v in
      let node1 := setAttribute node "image-grid-data" (stringify_attr data) in
      cursor ← bar ["vertical-bar"; "cursor"];
      guideline ← bar ["vertical-bar"; "guideline"];
      wrapper ← classList_add (createElement "div")
                  "image-grid-drop-helper-wrapper";
      match data with
      | Some (JArr items) =>
          helpers ← dropHelpers 0 (List.length items);
          itemWrapper ← classList_add (createElement "div")
                          "image-grid-item-wrapper";
          _ ← reduce_ratios items;
          containers ← item_containers 0 items;
          marked ← mark_ends containers;
          Ok (NElem (setAttribute node1 "contenteditable" "false")
                [cursor; guideline; NElem wrapper helpers;
                 NElem (setAttribute itemWrapper "contenteditable" "false")
                   marked])
      | _ => Err (type_error "TypeError: data is not an array")
      end
  end.

(** [static value(domNode)]. *)
Definition value (domNode : Node) : result json :=
  match domNode with
  | NElem el _ =>
      match getAttribute el "image-grid-data" with
      | None => Ok (JObj [("data", JNull)])
      | Some s =>
          match JSON_parse host s with
          | Some data => Ok (JObj [("data", data)])
          | None => Err (JsError "SyntaxError: JSON.parse")
          end
      end
  | _ => Err (type_error "TypeError: getAttribute is not a function")
  end.

(** [constructor(scroll, domNode)]: the node is given an [id]. *)
Definition constructor (domNode : Node) : result Node :=
  match domNode with
  | NElem el kids => Ok (NElem (setAttribute el "id" (imageGridId host)) kids)
  | _ => Err (type_error "TypeError: setAttribute is not a function")
  end.

End WithHost.
End ImageGrid.

(** ** The blot tree *)

(** A blot with the blots below it.  [Leaf] is a [LeafBlot] or an
    [EmbedBlot] with the host node it owns; [Text] is a [TextBlot] with the
    [data] of its text node and its own [text], which the blot reads from
    the node through [normalize] and writes back on an edit; [Parent] is a
    [ParentBlot] with its host element and its [children], in list order.
    The child nodes of a parent's element are the host nodes of its
    children. *)
Inductive Blot : Type :=
| Leaf (cls : Descriptor) (dom : Node)
| Text (cls : Descriptor) (data : string) (text : string)
| Parent (cls : Descriptor) (dom : Element) (children : list Blot).

Definition statics (b : Blot) : Descriptor :=
  match b with
  | Leaf cls _ | Text cls _ _ | Parent cls _ _ => cls
  end.

Definition is_parent_kind (k : DefKind) : bool :=
  match k with
  | IsBlot (KParent | KContainer | KInline | KBlock | KScroll) => true
  | _ => false
  end.

(** [length()]: 1 for a leaf, the number of characters of a text, the sum
    over the children of a parent. *)
Fixpoint length (b : Blot) : Z :=
  match b with
  | Leaf _ _ => 1
  | Text _ _ s => Z.of_nat (String.length s)
  | Parent _ _ cs => foldr (fun c acc => length c + acc) 0 cs
  end.

Module Create.
Section WithHost.
Variable host : Host.
Variable reg : Registry.t.

Import Registry.

Definition unable : error := ParchmentError "Unable to create blot".

Definition selector_of_node (n : Node) : Selector :=
  match n with
  | NText _ => SelTextNode
  | NElem el _ => SelElement el
  | NOther => SelOther
  end.

(** [new r(scroll, node, value)], given the children [build] made.  A text
    blot reads its text from the node: [TextBlot.value] is
    [data.normalize()].  The constructors are reached with an element or a
    text node ([query] answers nothing for a node of another type); a text
    class on an element, which has no [data], is an error, and a parent
    class is taken to be built on an element. *)
Definition construct (r : Descriptor) (node : Node) (kids : list Blot)
  : result Blot :=
  match kind r with
  | IsAttributor _ => Err (JsError "TypeError: r is not a constructor")
  | IsBlot KText =>
      match node with
      | NText data => Ok (Text r data (String_normalize host data))
      | _ => Err (JsError "TypeError: data is undefined")
      end
  | IsBlot KImageGrid => n ← ImageGrid.constructor host node; Ok (Leaf r n)
  | IsBlot (KLeaf | KEmbed) => Ok (Leaf r node)
  | IsBlot (KParent | KContainer | KInline | KBlock | KScroll) =>
      match node with
      | NElem el _ => Ok (Parent r el kids)
      | _ => Err (JsError "TypeError: not an element")
      end
  end.

(** [r.create(s)], the static method of the class [r]. *)
Definition static_create (r : Descriptor) (s : option json) : result Node :=
  match kind r with
  | IsAttributor _ => Err (JsError "TypeError: r.create is not a function")
  | IsBlot KText => data ← to_String_opt s; Ok (NText data)
  | IsBlot KImageGrid => ImageGrid.create host r s
  | IsBlot _ => el ← ShadowBlot.create r s; Ok (NElem el [])
  end.

(** [create(scroll, e, s)] for [e] a name or a scope mask: the blot is built
    on a node of its own making. *)
Definition create (e : Selector) (s : option json) : result Blot :=
  match query reg e Scope.ANY with
  | None => Err unable
  | Some r => node ← static_create r s; construct r node []
  end.

(** The fall-back of [makeAttachedBlot] ([function d]) for the node [t]: a
    blot created for [Scope.INLINE] whose host node receives the child nodes
    of [t].  The result is the blot and its host node, which takes the place
    of [t] under [t]'s parent. *)
Definition wrap_unknown (t : Node) : result (Blot * Node) :=
  s ← create (SelNumber Scope.INLINE) None;
  match s with
  | Parent _ el _ => Ok (s, NElem el (childNodes t))
  | Leaf _ (NElem el kids) => Ok (s, NElem el (kids ++ childNodes t))
  | Leaf _ n =>
      match childNodes t with
      | [] => Ok (s, n)
      | _ => Err (JsError "HierarchyRequestError")
      end
  | Text _ data _ =>
      match childNodes t with
      | [] => Ok (s, NText data)
      | _ => Err (JsError "HierarchyRequestError")
      end
  end.

(** [create(scroll, t)] for a host node [t], with the [build] the constructor
    of a parent runs over the child nodes, last to first:
    [try { e = d(t, scroll); insertBefore(e, head) }
     catch (err) { if (err instanceof ParchmentError) return; throw err }],
    and [d] inlined: [try { s = create(t) } catch { fall back }].  The host
    nodes are taken not to be in the identity table yet.  The result is the
    blot and the host subtree as [build] leaves it. *)
Fixpoint create_node (t : Node) {struct t} : result (Blot * Node) :=
  match query reg (selector_of_node t) Scope.ANY with
  | None => Err unable
  | Some r =>
      if is_parent_kind (kind r) then
        match t with
        | NElem el kids =>
            let build :=
              fix build (kids : list Node) : result (list Blot * list Node) :=
                match kids with
                | [] => Ok ([], [])
                | k :: rest =>
                    '(bs, hs) ← build rest;
                    let made := match create_node k with
                                | Ok x => Ok x
                                | Err _ => wrap_unknown k
                                end in
                    match made with
                    | Ok (b, h) => Ok (b :: bs, h :: hs)
                    | Err (ParchmentError _) => Ok (bs, k :: hs)
                    | Err e => Err e
                    end
                end in
            '(bs, hs) ← build kids;
            b ← construct r t bs;
            Ok (b, NElem el hs)
        | _ => b ← construct r t []; Ok (b, t)
        end
      else
        b ← construct r t [];
        Ok (b, match b with Leaf _ n => n | _ => t end)
  end.

(** [makeAttachedBlot(t, scroll)] ([function d]) for a node that is not in
    the identity table. *)
Definition makeAttachedBlot (t : Node) : result (Blot * Node) :=
  match create_node t with
  | Ok x => Ok x
  | Err _ => wrap_unknown t
  end.

(** [ParentBlot.build] over the child nodes [kids]. *)
Fixpoint build (kids : list Node) : result (list Blot * list Node) :=
  match kids with
  | [] => Ok ([], [])
  | k :: rest =>
      '(bs, hs) ← build rest;
      match makeAttachedBlot k with
      | Ok (b, h) => Ok (b :: bs, h :: hs)
      | Err (ParchmentError _) => Ok (bs, k :: hs)
      | Err e => Err e
      end
  end.

End WithHost.
End Create.

(** ** The operations of the blots *)

(** What [split] returns: the blot itself, its next sibling (which may be
    [null]), or a new blot; in the last case [left] is the blot as the split
    leaves it and [right] the new blot, which stands right after it. *)
Inductive SplitOut : Type :=
| SplitSelf
| SplitNext
| SplitNew (left right : Blot).

(** What a child's [deleteAt] leaves: [here] takes the place of the blot
    among its siblings; [touched], when present, takes the place of its next
    sibling. *)
Record DelOut : Type := mkDelOut {
  here : list Blot;
  touched : option (list Blot)
}.

(** What [enforceAllowedChildren] leaves of a parent: the parent itself
    unless it was unwrapped, and the blots now standing after its place. *)
Record Enforced : Type := mkEnforced {
  this_after : option Blot;
  siblings_after : list Blot
}.

Module Ops.
Section WithHost.
Variable host : Host.
Variable reg : Registry.t.

(** [ScrollBlot.update()] called without records, as the root's content
    operations do first: it folds the pending records of the observer into
    the tree and optimizes.  It belongs to the reconciliation and is a
    parameter here. *)
Variable update : Blot -> result Blot.


(** [clone()]: [this.scroll.create(this.domNode.cloneNode(false))]. *)
Definition clone (b : Blot) : result Blot :=
  let node := match b with
              | Parent _ el _ => NElem el []
              | Leaf _ (NElem el _) => NElem el []
              | Leaf _ n => n
              | Text _ data _ => NText data
              end in
  '(c, _) ← Create.create_node host reg node;
  Ok c.

(** [appendChild(t)] on a parent: [insertBefore(t)], which puts [t] last. *)
Definition appendChild (b i : Blot) : result Blot :=
  match b with
  | Parent c e ks => Ok (Parent c e (ks ++ [i]))
  | _ => Err (JsError "TypeError: appendChild is not a function")
  end.

(** [s.appendChild(k)] for each of [kids]. *)
Definition appendChildren (s : Blot) (kids : list Blot) : result Blot :=
  match kids with
  | [] => Ok s
  | _ =>
      match s with
      | Parent c e ks => Ok (Parent c e (ks ++ kids))
      | _ => Err (JsError "TypeError: appendChild is not a function")
      end
  end.

(** The walk of [ParentBlot.split] over the children [cs], along the visits
    [plan] of [forEachAt(t, this.length(), ...)]: for each child visited,
    [n = child.split(i, e)] and [null != n && s.appendChild(n)], where
    [child_split c i] is the call [child.split(i, e)].  The result is the
    children the parent keeps and those appended to the clone [s]. *)
Fixpoint split_walk (child_split : Blot -> Z -> result SplitOut)
    (cs : list Blot) (plan : list (option (Z * Z)))
  : result (list Blot * list Blot) :=
  match cs with
  | [] => Ok ([], [])
  | c :: rest =>
      match plan with
      | Some (i, _) :: plan' =>
          out ← child_split c i;
          match out with
          | SplitSelf =>
              '(kept, moved) ← split_walk child_split rest plan';
              Ok (kept, c :: moved)
          | SplitNew l r =>
              '(kept, moved) ← split_walk child_split rest plan';
              Ok (l :: kept, r :: moved)
          | SplitNext =>
              (* [n] is [c.next]: it is moved to [s], where the iterator
                 then finds it as the last entry *)
              match rest with
              | [] => Ok ([c], [])
              | c2 :: rest2 =>
                  match plan' with
                  | Some (i2, _) :: _ =>
                      out2 ← child_split c2 i2;
                      match out2 with
                      | SplitNew l r => Ok (c :: rest2, [l; r])
                      | _ => Ok (c :: rest2, [c2])
                      end
                  | _ => Ok (c :: rest2, [c2])
                  end
              end
          end
      | _ =>
          '(kept, moved) ← split_walk child_split rest (tail plan);
          Ok (c :: kept, moved)
      end
  end.

(** [split(t, e = false)]: [ShadowBlot.split] for a leaf, [TextBlot.split],
    [ParentBlot.split].  [has_parent] tells whether [this.parent] is set;
    the children of a parent have one.  A text blot tests [t] against the
    length of its [text] and then has the host cut the node:
    [domNode.splitText(t)] takes its offset modulo [2^32] and throws past
    the end of the [data]; the blot of the new node comes from the
    registry, and the text of the old one is read again from the node. *)
Fixpoint split (has_parent : bool) (b : Blot) (t : Z) (force : bool)
    {struct b} : result SplitOut :=
  match b with
  | Leaf _ _ => Ok (if t =? 0 then SplitSelf else SplitNext)
  | Text cls data text =>
      let len := Z.of_nat (String.length text) in
      if negb force && (t =? 0) then Ok SplitSelf
      else if negb force && (t =? len) then Ok SplitNext
      else
        let off := t mod 2 ^ 32 in
        if Z.of_nat (String.length data) <? off
        then Err (JsError "IndexSizeError: splitText")
        else
          let kept := substring 0 (Z.to_nat off) data in
          let cut := substring (Z.to_nat off)
                       (String.length data - Z.to_nat off) data in
          '(r, _) ← Create.create_node host reg (NText cut);
          if has_parent
          then Ok (SplitNew (Text cls kept (String_normalize host kept)) r)
          else Err (JsError "TypeError: Cannot read properties of null")
  | Parent cls el cs =>
      let len := length b in
      if negb force && (t =? 0) then Ok SplitSelf
      else if negb force && (t =? len) then Ok SplitNext
      else
        s ← clone b;
        '(kept, moved) ← split_walk (fun c i => split true c i force) cs
                           (LinkedList.forEachAt length cs t len);
        s' ← appendChildren s moved;
        Ok (SplitNew (Parent cls el kept) s')
  end.

(** [null == s ? create("text", e) : create(e, s)]. *)
Definition new_content (e : string) (s : option json) : result Blot :=
  match s with
  | None | Some JNull =>
      Create.create host reg (Registry.SelString "text") (Some (JStr e))
  | _ => Create.create host reg (Registry.SelString e) s
  end.

(** [ShadowBlot.insertAt(t, e, s)], on the result of [this.split(t)]:
    [this.parent.insertBefore(i, r || undefined)]. *)
Definition place (b i : Blot) (out : SplitOut) : list Blot :=
  match out with
  | SplitSelf => [i; b]
  | SplitNext => [b; i]
  | SplitNew l r => [l; i; r]
  end.

(** [child instanceof t] for some [t] of [this.statics.allowedChildren]. *)
Definition allowed (cls : Descriptor) (child : Blot) : result bool :=
  match allowedChildren cls with
  | None => Err (JsError "TypeError: allowedChildren is undefined")
  | Some l => Ok (existsb (Classes.instanceof (statics child)) l)
  end.

(** [enforceAllowedChildren()] on the parent [Parent cls el _]: [before] are
    the children already passed, [cs] the ones still to visit.
    [has_parent] tells whether [this.parent] is set. *)
Fixpoint enforce_from (cls : Descriptor) (el : Element) (has_parent : bool)
    (before cs : list Blot) {struct cs} : result Enforced :=
  match cs with
  | [] => Ok (mkEnforced (Some (Parent cls el before)) [])
  | e :: after =>
      ok ← allowed cls e;
      if ok : bool then enforce_from cls el has_parent (before ++ [e]) after
      else if scope (statics e) =? Scope.BLOCK_BLOT then
        (* [null != e.next && this.splitAfter(e)] *)
        c1 ← match after with
             | [] => Ok []
             | _ => s ← clone (Parent cls el []);
                    s' ← appendChildren s after;
                    Ok [s']
             end;
        match before with
        | [] =>
            (* [e.parent] is [this]: [this.unwrap()] *)
            if has_parent then Ok (mkEnforced None (e :: c1))
            else Ok (mkEnforced None [])
        | _ =>
            (* [this.splitAfter(e.prev)], then [e.parent.unwrap()] on the
               clone that holds [e] alone *)
            s ← clone (Parent cls el []);
            _ ← appendChildren s [e];
            if has_parent
            then Ok (mkEnforced (Some (Parent cls el before)) (e :: c1))
            else Ok (mkEnforced (Some (Parent cls el before)) [])
        end
      else
        match e with
        | Parent _ _ kids =>
            (* [e.unwrap()] *)
            enforce_from cls el has_parent (before ++ kids) after
        | _ =>
            (* [e.remove()] *)
            enforce_from cls el has_parent before after
        end
  end.

Definition enforceAllowedChildren (b : Blot) (has_parent : bool)
  : result Enforced :=
  match b with
  | Parent cls el cs => enforce_from cls el has_parent [] cs
  | _ => Err (JsError "TypeError: enforceAllowedChildren is not a function")
  end.

Definition enforced_list (r : Enforced) : list Blot :=
  match this_after r with
  | Some b => b :: siblings_after r
  | None => siblings_after r
  end.

(** [ParentBlot.insertAt(t, e, s)] on the children [cs] of a parent:
    [child_insertAt c has_next r] is the call [i.insertAt(r, e, s)] on the
    child [find] returned, dispatched on the child's class. *)
Definition ParentBlot_insertAt
    (child_insertAt : Blot -> bool -> Z -> result (list Blot))
    (cls : Descriptor) (el : Element) (cs : list Blot) (t : Z) (e : string)
    (s : option json) : result Blot :=
  match LinkedList.find length cs t false with
  | Some (i, r) =>
      let inner :=
        fix inner (cs : list Blot) (i : nat) : result (list Blot) :=
          match cs with
          | [] => Ok []
          | c :: rest =>
              match i with
              | O =>
                  repl ← child_insertAt c
                           (match rest with [] => false | _ => true end) r;
                  Ok (repl ++ rest)%list
              | S i' => tl ← inner rest i'; Ok (c :: tl)
              end
          end in
      cs' ← inner cs i;
      Ok (Parent cls el cs')
  | None =>
      i ← new_content e s;
      Ok (Parent cls el (cs ++ [i]))
  end.

(** [insertAt(t, e, s)] on a blot below the root, by the class of the blot:
    [ShadowBlot.insertAt] for a leaf, [TextBlot.insertAt],
    [ParentBlot.insertAt], [ContainerBlot.insertAt], [BlockBlot.insertAt].
    The result takes the place of the blot among its siblings; [has_next]
    tells whether the blot has a next sibling.  The root is never below the
    root. *)
Fixpoint insertAt (b : Blot) (has_next : bool) (t : Z) (e : string)
    (s : option json) {struct b} : result (list Blot) :=
  match b with
  | Leaf _ _ =>
      i ← new_content e s;
      out ← split true b t false;
      Ok (place b i out)
  | Text cls _ text =>
      match s with
      | None | Some JNull =>
          let text' := (js_slice text 0 t ++ e ++ js_slice_from text t)%string
          in Ok [Text cls text' text']
      | _ =>
          i ← new_content e s;
          out ← split true b t false;
          Ok (place b i out)
      end
  | Parent cls el cs =>
      let generic :=
        ParentBlot_insertAt (fun c hn r => insertAt c hn r e s)
          cls el cs t e s in
      match kind cls with
      | IsBlot KContainer =>
          b' ← generic;
          r ← enforceAllowedChildren b' true;
          Ok (enforced_list r)
      | IsBlot KBlock =>
          let inline_content :=
            match s with
            | None | Some JNull => true
            | _ => bool_decide
                     (Registry.query reg (Registry.SelString e) Scope.INLINE
                      <> None)
            end in
          if inline_content then b' ← generic; Ok [b']
          else
            out ← split true b t false;
            match out, has_next with
            | SplitNext, false =>
                Err (JsError "Attempt to insertAt after block boundaries")
            | _, _ =>
                i ← Create.create host reg (Registry.SelString e) s;
                Ok (place b i out)
            end
      | IsBlot KScroll => Err (JsError "a scroll below the root")
      | _ => b' ← generic; Ok [b']
      end
  end.

(** [ScrollBlot.insertAt(t, e, s)]: [this.update()], then
    [ParentBlot.insertAt]. *)
Definition ScrollBlot_insertAt (b : Blot) (t : Z) (e : string)
    (s : option json) : result Blot :=
  b' ← update b;
  match b' with
  | Parent cls el cs =>
      ParentBlot_insertAt (fun c hn r => insertAt c hn r e s) cls el cs t e s
  | _ => Err (JsError "TypeError: children is undefined")
  end.

(** The walk of [ParentBlot.deleteAt(t, e)] over the children:
    [forEachAt(t, e, (c, i, l) => c.deleteAt(i, l))], where
    [child_deleteAt c next i l] is that call, dispatched on the child's
    class. *)
Definition delete_range
    (child_deleteAt : Blot -> option Blot -> Z -> Z -> result DelOut)
    (cls : Descriptor) (el : Element) (cs : list Blot) (t e : Z)
  : result Blot :=
  let walk :=
    fix walk (cs : list Blot) (plan : list (option (Z * Z)))
      : result (list Blot) :=
      match cs with
      | [] => Ok []
      | c :: rest =>
          match plan with
          | Some (i, l) :: plan' =>
              out ← child_deleteAt c (head rest) i l;
              match touched out with
              | None => tl ← walk rest plan'; Ok (here out ++ tl)%list
              | Some nrepl =>
                  match rest with
                  | [] => Ok (here out)
                  | _ :: rest2 =>
                      tl ← walk rest2 (tail plan');
                      Ok (here out ++ nrepl ++ tl)%list
                  end
              end
          | _ => tl ← walk rest (tail plan); Ok (c :: tl)
          end
      end in
  cs' ← walk cs (LinkedList.forEachAt length cs t e);
  Ok (Parent cls el cs').

(** [ParentBlot.deleteAt(t, e)]: the whole range removes the blot
    ([return this.remove()]); otherwise the walk.  The result takes the place
    of the blot among its siblings. *)
Definition ParentBlot_deleteAt
    (child_deleteAt : Blot -> option Blot -> Z -> Z -> result DelOut)
    (b : Blot) (t e : Z) : result (list Blot) :=
  match b with
  | Parent cls el cs =>
      if (t =? 0) && (e =? length b) then Ok []
      else b' ← delete_range child_deleteAt cls el cs t e; Ok [b']
  | _ => Err (JsError "TypeError: children is undefined")
  end.

(** [deleteAt(t, e)] on a blot below the root, by the class of the blot:
    [ShadowBlot.deleteAt] ([this.isolate(t, e).remove()]) for a leaf,
    [TextBlot.deleteAt], [ParentBlot.deleteAt], [ContainerBlot.deleteAt].
    [next] is the next sibling of the blot. *)
Fixpoint deleteAt (b : Blot) (next : option Blot) (t e : Z) {struct b}
  : result DelOut :=
  match b with
  | Leaf _ _ =>
      if t =? 0 then Ok (mkDelOut [] None)
      else
        match next with
        | None => Err (JsError "Attempt to isolate at end")
        | Some n =>
            out ← split true n e false;
            match out with
            | SplitNew _ nr => Ok (mkDelOut [b] (Some [nr]))
            | _ => Ok (mkDelOut [b] (Some []))
            end
        end
  | Text cls _ text =>
      let text' := (js_slice text 0 t ++ js_slice_from text (t + e))%string in
      Ok (mkDelOut [Text cls text' text'] None)
  | Parent cls el cs =>
      match kind cls with
      | IsBlot KScroll => Err (JsError "a scroll below the root")
      | IsBlot KContainer =>
          repl ← ParentBlot_deleteAt deleteAt b t e;
          match repl with
          | [b'] =>
              r ← enforceAllowedChildren b' true;
              Ok (mkDelOut (enforced_list r) None)
          | _ => Ok (mkDelOut repl None)
          end
      | _ =>
          repl ← ParentBlot_deleteAt deleteAt b t e;
          Ok (mkDelOut repl None)
      end
  end.





End WithHost.
End Ops.

(** ** [LeafBlot.value] *)

Module LeafBlot.
Section WithHost.
Variable host : Host.

(** JavaScript truthiness of a value. *)
Definition json_truthy (v : json) : bool :=
  match v with
  | JNull => false
  | JBool b => b
  | JNum n => negb (n =? 0)
  | JStr s => negb (String.eqb s EmptyString)
  | JArr _ | JObj _ => true
  end.

(** [this.statics.value(this.domNode)]: [LeafBlot]'s static [value] returns
    [true]; [TextBlot] ([data.normalize()]) and [ImageGrid] have their
    own. *)
Definition static_value (cls : Descriptor) (dom : Node) : result json :=
  match kind cls with
  | IsBlot KImageGrid => ImageGrid.value host dom
  | IsBlot KText =>
      match dom with
      | NText data => Ok (JStr (String_normalize host data))
      | _ => Err (JsError "TypeError: data is undefined")
      end
  | _ => Ok (JBool true)
  end.

(** [value()]: [{ [this.statics.blotName]: statics.value(domNode) || true }]
    for a leaf, the text for a text blot. *)
Definition value (b : Blot) : result json :=
  match b with
  | Leaf cls dom =>
      v ← static_value cls dom;
      Ok (JObj [(default "undefined" (blotName cls),
                 if json_truthy v then v else JBool true)])
  | Text _ _ s => Ok (JStr s)
  | Parent _ _ _ => Err (JsError "TypeError: value is not a function")
  end.

End WithHost.
End LeafBlot.

(** ** Reading a tree *)

(** The content of a blot, one atom per unit of length: the characters of
    the texts and the embeds, left to right. *)
Inductive Atom : Type :=
| AChar (c : ascii)
| AEmbed (cls : Descriptor) (dom : Node).

Fixpoint flat (b : Blot) : list Atom :=
  match b with
  | Leaf cls dom => [AEmbed cls dom]
  | Text _ _ s => map AChar (list_ascii_of_string s)
  | Parent _ _ cs => foldr (fun c acc => flat c ++ acc) [] cs
  end.

Definition flats (cs : list Blot) : list Atom :=
  foldr (fun c acc => flat c ++ acc) [] cs.

(** The blot, without what is below it. *)
Definition same_head (b b' : Blot) : Prop :=
  match b, b' with
  | Leaf c d, Leaf c' d' => c = c' /\ d = d'
  | Text c _ _, Text c' _ _ => c = c'
  | Parent c e _, Parent c' e' _ => c = c' /\ e = e'
  | _, _ => False
  end.

(** The registry resolves the host node of every parent and text of the
    tree to the class the blot has: the tree was built through this
    registry. *)
Fixpoint registered (reg : Registry.t) (b : Blot) : Prop :=
  match b with
  | Leaf _ _ => True
  | Text cls _ _ =>
      kind cls = IsBlot KText /\
      Registry.query reg Registry.SelTextNode Scope.ANY = Some cls
  | Parent cls el cs =>
      is_parent_kind (kind cls) = true /\
      Registry.query reg (Registry.SelElement el) Scope.ANY = Some cls /\
      foldr (fun c acc => registered reg c /\ acc) True cs
  end.

(** ** What a split leaves, in closed form *)

(** The text of every text blot is no longer than the data of its node: an
    offset into the text is one into the data. *)
Fixpoint fits (b : Blot) : Prop :=
  match b with
  | Leaf _ _ => True
  | Text _ data text => (String.length text <= String.length data)%nat
  | Parent _ _ cs => foldr (fun c acc => fits c /\ acc) True cs
  end.

Section Cut.
Variable host : Host.

(** Every text blot holds the data of its node as its text, and
    [normalize] leaves every piece of it as it is. *)
Fixpoint stable (b : Blot) : Prop :=
  match b with
  | Leaf _ _ => True
  | Text _ data text =>
      data = text /\
      forall a n : nat,
        String_normalize host (substring a n data) = substring a n data
  | Parent _ _ cs => foldr (fun c acc => stable c /\ acc) True cs
  end.

(** The children [cs] of a parent of length [L] divided at the offset [k]:
    those the parent keeps and those that go to the new blot.  [n] is the
    offset at which the first of [cs] starts.  A child that ends at or
    before [k] stays, and so does an empty child at the very end when [k]
    is 0; any other child is divided at its own offset, by [cut_child]: it
    goes over whole, or keeps its left part and hands its right part
    over. *)
Definition cut_children (cut_child : Blot -> Z -> SplitOut) (k L : Z)
  : list Blot -> Z -> list Blot * list Blot :=
  fix go (cs : list Blot) (n : Z) : list Blot * list Blot :=
    match cs with
    | [] => ([], [])
    | c :: rest =>
        let '(kept, moved) := go rest (n + length c) in
        if (n + length c <=? k) || (k + L <=? n) then (c :: kept, moved)
        else
          match cut_child c (Z.max (k - n) 0) with
          | SplitNew l r => (l :: kept, r :: moved)
          | _ => (kept, c :: moved)
          end
    end.

(** The blot [b] divided at the offset [k], as the specification words it:
    a leaf is never divided; a text or a parent is returned as it is at
    offset 0, and gives way to its next sibling at its full length, unless
    [force] is set; otherwise a text is divided into two texts of its class
    over the two parts of its data, each reading its text from its part,
    and a parent into two parents of its class and element over the two
    parts of its children. *)
Fixpoint cut (force : bool) (b : Blot) (k : Z) {struct b} : SplitOut :=
  match b with
  | Leaf _ _ => if k =? 0 then SplitSelf else SplitNext
  | Text cls data text =>
      if negb force && (k =? 0) then SplitSelf
      else if negb force && (k =? Z.of_nat (String.length text))
      then SplitNext
      else
        let before := substring 0 (Z.to_nat k) data in
        let after := substring (Z.to_nat k)
                       (String.length data - Z.to_nat k) data in
        SplitNew (Text cls before (String_normalize host before))
                 (Text cls after (String_normalize host after))
  | Parent cls el cs =>
      if negb force && (k =? 0) then SplitSelf
      else if negb force && (k =? length b) then SplitNext
      else
        let '(kept, moved) :=
          cut_children (cut force) k (length b) cs 0 in
        SplitNew (Parent cls el kept) (Parent cls el moved)
  end.

End Cut.

(** ** A reference host, for the examples *)

Module Demo.

Definition dquote : ascii := ascii_of_nat 34.
Definition backslash : ascii := ascii_of_nat 92.

(** A string between double quotes, the double quote and the backslash
    escaped. *)
Fixpoint escape (s : string) : string :=
  match s with
  | EmptyString => EmptyString
  | String c s' =>
      if Ascii.eqb c dquote || Ascii.eqb c backslash
      then String backslash (String c (escape s'))
      else String c (escape s')
  end.

Definition quoted (s : string) : string :=
  String dquote (escape s ++ String dquote EmptyString)%string.

(** A compact JSON printer for the values of the model. *)
Fixpoint stringify (j : json) : string :=
  match j with
  | JNull => "null"
  | JBool true => "true"
  | JBool false => "false"
  | JNum n => NilZero.string_of_int (Z.to_int n)
  | JStr s => quoted s
  | JArr l => ("[" ++ join_with "," (map stringify l) ++ "]")%string
  | JObj fields =>
      ("{" ++ join_with ","
                (map (fun kv => (quoted (fst kv) ++ ":" ++ stringify (snd kv))%string)
                   fields) ++ "}")%string
  end.

(** The characters of a string literal up to its closing quote. *)
Fixpoint parse_chars (s : list ascii) : option (string * list ascii) :=
  match s with
  | [] => None
  | c :: rest =>
      if Ascii.eqb c dquote then Some (EmptyString, rest)
      else if Ascii.eqb c backslash then
        match rest with
        | c' :: rest' =>
            '(str, r) ← parse_chars rest'; Some (String c' str, r)
        | [] => None
        end
      else '(str, r) ← parse_chars rest; Some (String c str, r)
  end.

Definition is_num_char (c : ascii) : bool :=
  let n := nat_of_ascii c in
  ((48 <=? n)%nat && (n <=? 57)%nat) || (n =? 45)%nat.

Fixpoint span_num (s : list ascii) : string * list ascii :=
  match s with
  | c :: rest =>
      if is_num_char c
      then let '(d, r) := span_num rest in (String c d, r)
      else (EmptyString, s)
  | [] => (EmptyString, [])
  end.

Definition starts_with (p : string) (s : list ascii) : option (list ascii) :=
  let lp := list_ascii_of_string p in
  if bool_decide (take (List.length lp) s = lp)
  then Some (drop (List.length lp) s) else None.

(** A parser for what [stringify] prints; [fuel] bounds the nesting and the
    number of elements. *)
Fixpoint parse_value (fuel : nat) (s : list ascii)
  : option (json * list ascii) :=
  match fuel with
  | O => None
  | S f =>
      match starts_with "null" s, starts_with "true" s, starts_with "false" s with
      | Some r, _, _ => Some (JNull, r)
      | _, Some r, _ => Some (JBool true, r)
      | _, _, Some r => Some (JBool false, r)
      | _, _, _ =>
          match s with
          | [] => None
          | c :: rest =>
              if Ascii.eqb c dquote then
                '(str, r) ← parse_chars rest; Some (JStr str, r)
              else if Ascii.eqb c "["%char then
                match rest with
                | "]"%char :: r => Some (JArr [], r)
                | _ => '(vs, r) ← parse_elems f rest; Some (JArr vs, r)
                end
              else if Ascii.eqb c "{"%char then
                match rest with
                | "}"%char :: r => Some (JObj [], r)
                | _ => '(kvs, r) ← parse_members f rest; Some (JObj kvs, r)
                end
              else
                let '(d, r) := span_num s in
                i ← NilZero.int_of_string d; Some (JNum (Z.of_int i), r)
          end
      end
  end
with parse_elems (fuel : nat) (s : list ascii)
  : option (list json * list ascii) :=
  match fuel with
  | O => None
  | S f =>
      '(v, r) ← parse_value f s;
      match r with
      | ","%char :: r' => '(vs, r'') ← parse_elems f r'; Some (v :: vs, r'')
      | "]"%char :: r' => Some ([v], r')
      | _ => None
      end
  end
with parse_members (fuel : nat) (s : list ascii)
  : option (list (string * json) * list ascii) :=
  match fuel with
  | O => None
  | S f =>
      match s with
      | c :: rest =>
          if Ascii.eqb c dquote then
            '(k, r) ← parse_chars rest;
            match r with
            | ":"%char :: r1 =>
                '(v, r2) ← parse_value f r1;
                match r2 with
                | ","%char :: r3 =>
                    '(kvs, r4) ← parse_members f r3; Some ((k, v) :: kvs, r4)
                | "}"%char :: r3 => Some ([(k, v)], r3)
                | _ => None
                end
            | _ => None
            end
          else None
      | [] => None
      end
  end.

Definition parse (s : string) : option json :=
  match parse_value (S (String.length s)) (list_ascii_of_string s) with
  | Some (j, []) => Some j
  | _ => None
  end.

(** The protocol test of the link format: the text before the first colon
    is one of the protocols. *)
Fixpoint before_colon (s : string) : string :=
  match s with
  | EmptyString => EmptyString
  | String c s' =>
      if Ascii.eqb c ":"%char then EmptyString else String c (before_colon s')
  end.

Definition sanitize (url : string) (protocols : list string) : bool :=
  existsb (String.eqb (before_colon url)) protocols.

(** [Number(s) > 0] on the decimal integers. *)
Definition positive (s : string) : bool :=
  match NilZero.int_of_string s with
  | Some i => 0 <? Z.of_int i
  | None => false
  end.

(** A style of one declaration, kept in the [style] attribute as
    [name:value]. *)
Definition get_style (el : Element) (p : string) : string :=
  match getAttribute el "style" with
  | Some decl =>
      if String.eqb (before_colon decl) p
      then js_slice_from decl (Z.of_nat (String.length p) + 1)
      else EmptyString
  | None => EmptyString
  end.

Definition set_style (el : Element) (p : string) (v : prim) : Element :=
  setAttribute el "style"
    (if String.eqb (to_String v) EmptyString then EmptyString
     else p ++ ":" ++ to_String v)%string.

(** On the strings of the examples, which are ASCII, [normalize] changes
    nothing. *)
Definition host : Host :=
  {| JSON_stringify := stringify;
     JSON_parse := parse;
     link_sanitize := sanitize;
     imageGridId := "image-grid-k3x9";
     String_normalize := fun s => s;
     Number_positive := positive;
     style_get := get_style;
     style_set := set_style |}.

(** A leaf embed of block level, registered under the name [divider]. *)
Definition Divider : Descriptor :=
  {| kind := IsBlot KEmbed; blotName := Some "divider"; attrName := None;
     keyName := None; className := None; tagName := Some (TagOne "HR");
     scope := Scope.BLOCK_BLOT; whitelist := None; defaultChild := None;
     requiredContainer := None; allowedChildren := None;
     class_id := "Divider";
     lineage := ["EmbedBlot"; "LeafBlot"; "ShadowBlot"] |}.

(** The registry after the classes of the source, the image grid and the
    divider are registered. *)
Definition registry : Registry.t :=
  default Registry.empty
    (Registry.after
       [Classes.TextBlot; Classes.InlineBlot; Classes.BlockBlot;
        Classes.ScrollBlot; Classes.ImageGrid; Divider]
       Registry.empty).

Definition P : Element := {| el_tag := "P"; el_attrs := ∅ |}.
Definition DIV : Element := {| el_tag := "DIV"; el_attrs := ∅ |}.

(** A paragraph holding the texts [ab] and [cd]. *)
Definition paragraph : Blot :=
  Parent Classes.BlockBlot P
    [Text Classes.TextBlot "ab" "ab"; Text Classes.TextBlot "cd" "cd"].

(** The data of a grid of one image. *)
Definition one_image : json :=
  JArr [JObj [("image", JStr "https://example.org/a.png");
              ("attributes", JObj [("ratio", JNum 2);
                                   ("caption", JStr "a")])]].

End Demo.

(** ** Looking a position up in the tree: [path] and [descendant] *)

Module Locate.

(** [const [s, i] = this.children.find(t, e)] followed by a use of [s] and
    [i]: [child s i] when an entry is found, [none] when [s] is [null]. *)
Definition with_found {R : Type} (child : Blot -> Z -> R) (none : R)
    (cs : list Blot) (t : Z) (e : bool) : R :=
  match LinkedList.find length cs t e with
  | Some (i, r) =>
      (fix nth (cs : list Blot) (i : nat) : R :=
         match cs with
         | [] => none
         | c :: rest =>
             match i with
             | O => child c r
             | S i' => nth rest i'
             end
         end) cs i
  | None => none
  end.

(** [ParentBlot.path(t, e = false)]: the blots from this one down to the
    one holding offset [t], each with the offset inside it.  Only a parent
    has the method. *)
Fixpoint path (b : Blot) (t : Z) (e : bool) {struct b}
  : result (list (Blot * Z)) :=
  match b with
  | Parent _ _ cs =>
      tl ← with_found
             (fun s i =>
                match s with
                | Parent _ _ _ => path s i e
                | _ => Ok [(s, i)]
                end)
             (Ok []) cs t e;
      Ok ((b, t) :: tl)
  | _ => Err (JsError "TypeError: path is not a function")
  end.

(** The criteria of [descendant]: a predicate (a function without
    [blotName], which is also called on [null]) or a class. *)
Inductive Criteria : Type :=
| ByPredicate (p : option Blot -> bool)
| ByClass (class_id : string).

Definition meets (crit : Criteria) (s : option Blot) : bool :=
  match crit, s with
  | ByPredicate p, _ => p s
  | ByClass cid, Some b => Classes.instanceof (statics b) cid
  | ByClass _, None => false
  end.

(** [ParentBlot.descendant(criteria, index = 0)]: the first blot on the
    way down to [index] that meets the criteria, with the offset inside it;
    [(None, -1)] is [[null, -1]]. *)
Fixpoint descendant (crit : Criteria) (b : Blot) (t : Z) {struct b}
  : result (option Blot * Z) :=
  match b with
  | Parent _ _ cs =>
      with_found
        (fun s i =>
           if meets crit (Some s) then Ok (Some s, i)
           else match s with
                | Parent _ _ _ => descendant crit s i
                | _ => Ok (None, -1)
                end)
        (if meets crit None then Ok (None, 0) else Ok (None, -1))
        cs t false
  | _ => Err (JsError "TypeError: descendant is not a function")
  end.

End Locate.

(** ** The keyboard module: bindings and how events are matched *)

Module Keyboard.

(** The value of a field of a binding: a primitive, an array of keys (the
    [key] of a binding given for several keys), or another object (a
    handler, a regular expression, a format table), known by its
    identity. *)
Inductive Val : Type :=
| Prim (p : prim)
| Keys (l : list prim)
| Ref (id : nat).

#[global] Instance Val_eq_dec : EqDecision Val.
Proof. solve_decision. Defined.

(** A binding or a context: an object, as the fields it has. *)
Abbreviation Obj := (gmap string Val).

(** [o[k]]. *)
Definition get (o : Obj) (k : string) : Val :=
  default (Prim VUndefined) (o !! k).

(** Truthiness: an object is truthy. *)
Definition truthy_val (v : Val) : bool :=
  match v with
  | Prim p => truthy p
  | _ => true
  end.

(** What a keydown event shows of itself to [match] and [listen]. *)
Record Event : Type := mkEvent {
  evt_key : string;
  evt_which : Z;
  evt_altKey : bool;
  evt_ctrlKey : bool;
  evt_metaKey : bool;
  evt_shiftKey : bool
}.

Definition modifiers : list string :=
  ["altKey"; "ctrlKey"; "metaKey"; "shiftKey"].

(** [evt[key]] for one of the four modifier names. *)
Definition evt_modifier (evt : Event) (k : string) : bool :=
  if String.eqb k "altKey" then evt_altKey evt
  else if String.eqb k "ctrlKey" then evt_ctrlKey evt
  else if String.eqb k "metaKey" then evt_metaKey evt
  else evt_shiftKey evt.

(** [static match(evt, binding)]. *)
Definition match_ (evt : Event) (binding : Obj) : bool :=
  if existsb
       (fun k =>
          negb (Bool.eqb (truthy_val (get binding k)) (evt_modifier evt k))
          && negb (bool_decide (get binding k = Prim VNull)))
       modifiers
  then false
  else bool_decide (get binding "key" = Prim (VStr (evt_key evt)))
       || bool_decide (get binding "key" = Prim (VNum (evt_which evt))).

(** [this.bindings]: the lists of bindings, by property name.  The names
    an object inherits ([constructor] and the like) are not names of keys
    and are left out. *)
Abbreviation Store := (gmap string (list Obj)).

Section Platform.

(** [/Mac/i.test(navigator.platform)]. *)
Variable mac : bool.

(** The string a property key that is an object converts to. *)
Variable ref_to_String : nat -> string.

Definition SHORTKEY : string := if mac then "metaKey" else "ctrlKey".

(** What [normalize] and [addBinding] are given: a primitive or an
    object. *)
Inductive Arg : Type :=
| APrim (p : prim)
| AObj (o : Obj).

(** [function normalize(binding)]; [None] is [null]. *)
Definition normalize (binding : Arg) : result (option Obj) :=
  let finish := fun o : Obj =>
    if truthy_val (get o "shortKey")
    then Ok (Some (delete "shortKey" (<[SHORTKEY := get o "shortKey"]> o)))
    else Ok (Some o) in
  match binding with
  | APrim (VStr s) => finish {["key" := Prim (VStr s)]}
  | APrim (VNum n) => finish {["key" := Prim (VNum n)]}
  | AObj o => finish o
  | APrim VNull =>
      (* [typeof null] is ['object'] and its clone is [null] *)
      Err (JsError "TypeError: Cannot read properties of null")
  | APrim _ => Ok None
  end.

(** [extend(target, source)]: the fields of [source] that are not
    [undefined] are written over those of [target]. *)
Definition extend2 (target source : Obj) : Obj :=
  filter (fun kv => kv.2 <> Prim VUndefined) source ∪ target.

(** [extend({}, a, b, c, d)]. *)
Definition extend (a b c d : Obj) : Obj :=
  extend2 (extend2 (extend2 (extend2 ∅ a) b) c) d.

(** A context or handler argument: a function or an object. *)
Inductive Extra : Type :=
| EFun (id : nat)
| EObj (o : Obj).

(** [if (typeof context === 'function') context = { handler: context }]. *)
Definition as_object (x : Extra) : Obj :=
  match x with
  | EFun id => {["handler" := Ref id]}
  | EObj o => o
  end.

(** The property name a value used as a key converts to. *)
Definition to_property (v : Val) : string :=
  match v with
  | Prim p => to_String p
  | Keys l => join_with "," (map (fun p => match p with
                                           | VUndefined | VNull => EmptyString
                                           | _ => to_String p
                                           end) l)
  | Ref id => ref_to_String id
  end.

(** One turn of [keys.forEach] in [addBinding]. *)
Definition add_single (binding context handler : Obj) (store : Store)
    (key : Val) : Store :=
  let singleBinding := extend binding {["key" := key]} context handler in
  let name := to_property (get singleBinding "key") in
  <[name := default [] (store !! name) ++ [singleBinding]]> store.

(** [Array.isArray(binding.key) ? binding.key : [binding.key]]. *)
Definition keys_of (binding : Obj) : list Val :=
  match get binding "key" with
  | Keys l => map Prim l
  | v => [v]
  end.

(** [addBinding(keyBinding, context = {}, handler = {})]. *)
Definition addBinding (store : Store) (keyBinding : Arg)
    (context handler : Extra) : result Store :=
  nb ← normalize keyBinding;
  match nb with
  | None => Ok store
  | Some binding =>
      Ok (foldl (add_single binding (as_object context) (as_object handler))
            store (keys_of binding))
  end.

(** The bindings [listen] looks at for an event:
    [(bindings[evt.key] || []).concat(bindings[evt.which] || [])]. *)
Definition candidates (store : Store) (evt : Event) : list Obj :=
  default [] (store !! evt_key evt)
  ++ default [] (store !! to_String (VNum (evt_which evt))).

(** [bindings.filter(binding => Keyboard.match(evt, binding))]. *)
Definition matches (store : Store) (evt : Event) : list Obj :=
  List.filter (match_ evt) (candidates store evt).

End Platform.
End Keyboard.

(** * Properties *)

(** ** The ordered container *)

Module LinkedListFacts.
Import LinkedList.
Section Facts.
Context {A : Type}.
Variable len : A -> Z.

Lemma total_app (l1 l2 : list A) :
  total len (l1 ++ l2) = total len l1 + total len l2.
Proof. induction l1 as [|a l1 IH]; simpl; lia. Qed.

Lemma remainder_cons (a : A) (l : list A) (j : nat) (t : Z) :
  remainder len (a :: l) (S j) t = remainder len l j (t - len a).
Proof. unfold remainder. simpl. lia. Qed.

Lemma remainder_0 (l : list A) (t : Z) : remainder len l 0 t = t.
Proof. unfold remainder. simpl. lia. Qed.

Lemma stops_cons (a : A) (l : list A) (j : nat) (r : Z) (e : bool) :
  stops len (a :: l) (S j) r e <-> stops len l j r e.
Proof. unfold stops. simpl. tauto. Qed.

(** The test of the loop, read as a proposition. *)
Lemma stop_test (cur : A) (rest : list A) (t : Z) (e : bool) :
  (t <? len cur)
  || (e && (t =? len cur)
        && match rest with
           | [] => true
           | nxt :: _ => negb (len nxt =? 0)
           end) = true
  <-> stops len (cur :: rest) 0 t e.
Proof.
  unfold stops. simpl. split.
  - intros H. exists cur. split; [reflexivity|].
    apply orb_true_iff in H as [H|H].
    + left. lia.
    + right. apply andb_true_iff in H as [H H3].
      apply andb_true_iff in H as [H1 H2].
      repeat split; [assumption | lia |].
      destruct rest as [|nxt rest]; simpl; [exact I|].
      apply negb_true_iff in H3. lia.
  - intros (c & Hc & H). injection Hc as <-.
    destruct H as [H | (He & Hr & Hn)].
    + apply orb_true_iff. left. lia.
    + apply orb_true_iff. right. subst e.
      rewrite !andb_true_iff. repeat split; [lia|].
      destruct rest as [|nxt rest]; simpl in *; [reflexivity|].
      apply negb_true_iff. lia.
Qed.

Lemma find_from_spec (l : list A) (i0 : nat) (t : Z) (e : bool) :
  match find_from len i0 l t e with
  | Some (i, r) =>
      exists j : nat, i = (i0 + j)%nat /\ r = remainder len l j t /\
        stops len l j r e /\
        forall j' : nat, (j' < j)%nat ->
          ~ stops len l j' (remainder len l j' t) e
  | None => forall j : nat, ~ stops len l j (remainder len l j t) e
  end.
Proof.
  revert i0 t. induction l as [|cur rest IH]; intros i0 t; simpl.
  - intros j (c & Hc & _). rewrite lookup_nil in Hc. discriminate.
  - destruct ((t <? len cur) || _) eqn:Htest.
    + exists 0%nat. rewrite remainder_0.
      split; [lia|]. split; [reflexivity|].
      split; [apply stop_test; exact Htest|]. intros j' Hj'. lia.
    + assert (Hno : ~ stops len (cur :: rest) 0 t e).
      { intros Hs. apply stop_test in Hs. congruence. }
      specialize (IH (S i0) (t - len cur)).
      destruct (find_from len (S i0) rest (t - len cur) e) as [[i r]|].
      * destruct IH as (j & Hi & Hr & Hs & Hmin).
        exists (S j). rewrite remainder_cons.
        split; [lia|]. split; [exact Hr|].
        split; [apply stops_cons; exact Hs|].
        intros [|j'] Hj'.
        -- rewrite remainder_0. exact Hno.
        -- rewrite remainder_cons, stops_cons. apply Hmin. lia.
      * intros [|j].
        -- rewrite remainder_0. exact Hno.
        -- rewrite remainder_cons, stops_cons. apply IH.
Qed.


Definition nonneg (l : list A) : Prop := Forall (fun a => 0 <= len a) l.

Lemma total_nonneg (l : list A) : nonneg l -> 0 <= total len l.
Proof. induction 1; simpl; lia. Qed.

Lemma find_from_none (l : list A) (i0 : nat) (t : Z) :
  nonneg l -> total len l <= t -> find_from len i0 l t false = None.
Proof.
  intros Hl. revert i0 t. induction Hl as [|a l Ha Hl IH]; intros i0 t Ht;
    simpl in *; [reflexivity|].
  pose proof (total_nonneg l Hl).
  rewrite orb_false_r. destruct (t <? len a) eqn:E; [lia|].
  apply IH. lia.
Qed.

Lemma visits_none (l : list A) (t e n : Z) :
  nonneg l -> t + e <= n -> visits len l t e n = map (fun _ => None) l.
Proof.
  intros Hl. revert n. induction Hl as [|a l Ha Hl IH]; intros n Hn; simpl;
    [reflexivity|].
  rewrite IH by lia.
  replace (t + e <=? n) with true by lia. rewrite orb_true_r. reflexivity.
Qed.

Lemma visits_before (l : list A) (t e n : Z) :
  nonneg l -> n + total len l <= t ->
  visits len l t e n = map (fun _ => None) l.
Proof.
  intros Hl. revert n. induction Hl as [|a l Ha Hl IH]; intros n Hn; simpl in *;
    [reflexivity|].
  pose proof (total_nonneg l Hl).
  rewrite IH by lia.
  replace (n + len a <=? t) with true by lia. reflexivity.
Qed.

Lemma loop_visits (l : list A) (t e n : Z) :
  nonneg l ->
  match l with
  | a :: _ => t < n + len a
  | [] => True
  end ->
  forEachAt_loop len l t e n = visits len l t e n.
Proof.
  intros Hl. revert n. induction Hl as [|a l Ha Hl IH]; intros n Hn;
    [reflexivity|].
  cbn [forEachAt_loop visits].
  destruct (n <? t + e) eqn:E.
  - replace (n + len a <=? t) with false by lia.
    replace (t + e <=? n) with false by lia. simpl.
    rewrite IH; [destruct (n <? t); reflexivity|].
    destruct Hl as [|a' l' Ha' _]; [exact I|]. lia.
  - change (a :: l) with ([a] ++ l). rewrite map_app. simpl.
    replace (t + e <=? n) with true by lia. rewrite orb_true_r.
    f_equal. symmetry. apply visits_none; [exact Hl|lia].
Qed.

Lemma map_none_repeat (l : list A) :
  map (fun _ : A => @None (Z * Z)) l = repeat None (List.length l).
Proof. induction l; simpl; congruence. Qed.

Lemma forEachAt_from_visits (l : list A) (i0 : nat) (t e n : Z) :
  nonneg l -> 0 < e -> n <= t ->
  match find_from len i0 l (t - n) false with
  | None => visits len l t e n = map (fun _ => None) l
  | Some (i, r) =>
      exists j : nat, i = (i0 + j)%nat /\
        visits len l t e n
        = repeat None j ++ forEachAt_loop len (drop j l) t e (t - r)
  end.
Proof.
  intros Hl He. revert i0 n.
  induction Hl as [|a l Ha Hl IH]; intros i0 n Hn; [reflexivity|].
  cbn [find_from]. rewrite orb_false_r.
  destruct (t - n <? len a) eqn:E.
  - exists 0%nat. split; [lia|]. simpl repeat. simpl drop.
    replace (t - (t - n)) with n by lia.
    rewrite loop_visits; [reflexivity|constructor; assumption|lia].
  - specialize (IH (S i0) (n + len a)).
    replace (t - (n + len a)) with (t - n - len a) in IH by lia.
    destruct (find_from len (S i0) l (t - n - len a) false) as [[i r]|].
    + destruct IH as (j & -> & Hv); [lia|].
      exists (S j). split; [lia|]. cbn [visits].
      replace (n + len a <=? t) with true by lia. simpl. rewrite Hv.
      reflexivity.
    + cbn [visits]. replace (n + len a <=? t) with true by lia. simpl.
      rewrite IH by lia. reflexivity.
Qed.

(** The entries [forEachAt] hands to the visitor, in closed form. *)
Lemma forEachAt_visits (l : list A) (t e : Z) :
  nonneg l -> 0 <= t -> 0 < e -> forEachAt len l t e = visits len l t e 0.
Proof.
  intros Hl Ht He. unfold forEachAt. replace (e <=? 0) with false by lia.
  unfold find.
  pose proof (forEachAt_from_visits l 0 t e 0 Hl He Ht) as H.
  replace (t - 0) with t in H by lia.
  destruct (find_from len 0 l t false) as [[i r]|].
  - destruct H as (j & -> & Hv). rewrite Hv. reflexivity.
  - symmetry. exact H.
Qed.

Lemma forEachAt_empty_range (l : list A) (t e : Z) :
  e <= 0 -> forEachAt len l t e = map (fun _ => None) l.
Proof. intros He. unfold forEachAt. replace (e <=? 0) with true by lia. reflexivity. Qed.

End Facts.

(** C1 (as the code has it).  [find] walks from the head, subtracting each
  entry's length, and returns the first entry at which the remainder is
  smaller than the entry's length, together with that remainder; with
  [preferEnd] set it also returns at an entry whose length equals the
  remainder, provided no entry follows or the entry that follows has a
  length other than zero, so that on a tie it goes on to the next entry only
  when that entry is empty.  When no entry passes the test the result is
  [[null, 0]]. *)
Theorem find_walk {A : Type} (len : A -> Z) (l : list A) (t : Z)
  (preferEnd : bool) :
match find len l t preferEnd with
| Some (i, r) =>
    r = remainder len l i t /\ stops len l i r preferEnd /\
    forall j : nat, (j < i)%nat ->
      ~ stops len l j (remainder len l j t) preferEnd
| None => forall j : nat, ~ stops len l j (remainder len l j t) preferEnd
end.
Proof.
unfold find. pose proof (find_from_spec len l 0 t preferEnd) as H.
destruct (find_from len 0 l t preferEnd) as [[i r]|]; [|exact H].
destruct H as (j & -> & Hr & Hs & Hmin). simpl. auto.
Qed.

(** C1, the tie-break as worded fails: with entries of lengths 2 and 3 and
  [preferEnd] set, offset 2 is answered with the first entry and remainder
  2, where the wording sends the search on to the second entry. *)
Lemma find_tie_break_counterexample :
find (fun z : Z => z) [2; 3] 2 true = Some (0%nat, 2) /\
find_as_worded (fun z : Z => z) [2; 3] 2 true = Some (1%nat, 0) /\
find (fun z : Z => z) [2; 0; 3] 2 true = Some (1%nat, 0).
Proof. repeat split. Qed.

End LinkedListFacts.

(** ** The registry *)

Module RegistryFacts.
Import Registry.

(** The upper-cased tag names under which [register] files [e]. *)
Definition filed_tags (e : Descriptor) : list string :=
  match tagName (stored e) with
  | Some tn => tag_list tn
  | None => []
  end.

(** [e] is a blot definition without a class marker that lists the tag
    [T]. *)
Definition classless_under (T : string) (e : Descriptor) : Prop :=
  keyName e = None /\ className e = None /\ T ∈ filed_tags e.


Lemma get_Some (tg : gmap string Descriptor) (k : string) (d : Descriptor) :
  tg !! k = Some d -> get tg k = Def d.
Proof. intros H. unfold get. rewrite H. reflexivity. Qed.


Lemma register_tags_notin (e : Descriptor) (ts : list string)
    (tg : gmap string Descriptor) (T : string) :
  T ∉ ts -> register_tags e ts tg !! T = tg !! T.
Proof.
  revert tg. induction ts as [|x ts IH]; intros tg Hn; simpl; [reflexivity|].
  apply not_elem_of_cons in Hn as [Hx Hts].
  rewrite IH by exact Hts.
  destruct (get tg x), (className e); try reflexivity;
    rewrite lookup_insert_ne; congruence.
Qed.


Lemma register_tags_classless (e : Descriptor) (ts : list string)
    (tg : gmap string Descriptor) (T : string) :
  className e = None -> T ∈ ts -> register_tags e ts tg !! T = Some e.
Proof.
  intros Hc. revert tg. induction ts as [|y ts IH]; intros tg Hin; simpl.
  - apply elem_of_nil in Hin. contradiction.
  - rewrite Hc.
    assert (Hins : (match get tg y with
                    | Def _ => <[y:=e]> tg
                    | Inherited => <[y:=e]> tg
                    | Missing => <[y:=e]> tg
                    end) = <[y:=e]> tg) by (destruct (get tg y); reflexivity).
    rewrite Hins. destruct (decide (T ∈ ts)) as [Hts|Hts].
    + apply IH. exact Hts.
    + apply elem_of_cons in Hin as [->|Hin]; [|contradiction].
      rewrite register_tags_notin by exact Hts. apply lookup_insert_eq.
Qed.

Lemma className_stored (e : Descriptor) : className (stored e) = className e.
Proof. unfold stored. destruct (keyName e); reflexivity. Qed.



Lemma register_classless (T : string) (e d' : Descriptor) (reg reg' : t) :
  register e reg = Ok (d', reg') -> classless_under T e ->
  d' = stored e /\ tags reg' !! T = Some (stored e) /\
  classes reg' = classes reg.
Proof.
  unfold register, classless_under, filed_tags. intros Hr (Hk & Hc & Hin).
  destruct (decide (blotName e = Some "abstract"));
    [destruct (blotName e), (attrName e); discriminate|].
  rewrite Hk, Hc in Hr.
  destruct (tagName (stored e)) as [tn|];
    [|apply elem_of_nil in Hin; contradiction].
  assert (Hgo : Ok (stored e,
             mk (attributes reg) (classes reg)
                (register_tags (stored e) (tag_list tn) (tags reg))
                (<[type_key e:=stored e]> (types reg))) = Ok (d', reg')).
  { destruct (blotName e), (attrName e); try exact Hr; discriminate. }
  injection Hgo as <- <-. split; [reflexivity|]. simpl.
  split; [|reflexivity].
  apply register_tags_classless; [rewrite className_stored|]; assumption.
Qed.




(** A second definition without a class marker under the tag [P]. *)
Definition Paragraph2 : Descriptor :=
  {| kind := IsBlot KBlock; blotName := Some "paragraph2"; attrName := None;
     keyName := None; className := None; tagName := Some (TagOne "p");
     scope := Scope.BLOCK_BLOT; whitelist := None; defaultChild := None;
     requiredContainer := None; allowedChildren := None;
     class_id := "Paragraph2";
     lineage := ["BlockBlot"; "ParentBlot"; "ShadowBlot"] |}.




Definition reg_block : t :=
  default empty (after [Classes.BlockBlot] empty).



End RegistryFacts.

(** ** Attributors *)

Module AttributorFacts.
Import Attributor.






(** A font attributor restricted to two families. *)
Definition font : Descriptor :=
  new AttrPlain "font" "data-font" None
    (Some [VStr "serif"; VStr "its"]).



Lemma land_level_type (s : Z) :
  Z.land (Z.lor (Z.land s 12) 1) 3 = 1.
Proof.
  rewrite Z.land_lor_distr_l, <- Z.land_assoc.
  change (Z.land 12 3) with 0. rewrite Z.land_0_r. reflexivity.
Qed.

Lemma land_level_blot (s : Z) :
  Z.land (Z.lor (Z.land s 12) 1) 2 = 0.
Proof.
  rewrite Z.land_lor_distr_l, <- Z.land_assoc.
  change (Z.land 12 2) with 0. rewrite Z.land_0_r. reflexivity.
Qed.

(** C10.  The scope of a constructed attributor is the LEVEL bits of the
    scope option joined with the attribute TYPE bit, or [ATTRIBUTE] when no
    scope is given; its TYPE bits are those of [ATTRIBUTE], it has none of
    the TYPE bits of [BLOT], and [query] with a mask whose TYPE bits are
    those of [BLOT] never returns it, whatever the registry and the
    selector. *)
Theorem attributor_scope_type (k : AttrKind) (name keyname : string)
    (opt_scope : option Z) (opt_whitelist : option (list prim)) :
  let a := new k name keyname opt_scope opt_whitelist in
  scope a = match opt_scope with
            | Some s => Z.lor (Z.land s Scope.LEVEL)
                          (Z.land Scope.TYPE Scope.ATTRIBUTE)
            | None => Scope.ATTRIBUTE
            end /\
  Z.land (scope a) Scope.TYPE = Z.land Scope.ATTRIBUTE Scope.TYPE /\
  Z.land (scope a) (Z.land Scope.BLOT Scope.TYPE) = 0 /\
  forall (reg : Registry.t) (sel : Registry.Selector) (mask : Z),
    Z.land mask Scope.TYPE = Z.land Scope.BLOT Scope.TYPE ->
    Registry.query reg sel mask <> Some a.
Proof.
  intros a.
  assert (Htype : Z.land (scope a) Scope.TYPE = 1).
  { subst a. simpl. destruct opt_scope as [s|]; [|reflexivity].
    apply land_level_type. }
  assert (Hblot : Z.land (scope a) 2 = 0).
  { subst a. simpl. destruct opt_scope as [s|]; [|reflexivity].
    apply land_level_blot. }
  split; [reflexivity|]. split; [exact Htype|]. split; [exact Hblot|].
  intros reg sel mask Hmask Hq. unfold Registry.query in Hq.
  destruct (Registry.resolve reg sel) as [d| |]; [|discriminate..].
  destruct (Registry.scope_matches mask d) eqn:Hm; [|discriminate].
  injection Hq as ->. unfold Registry.scope_matches in Hm.
  apply andb_true_iff in Hm as [_ Hm]. rewrite Hmask in Hm.
  change (Z.land Scope.BLOT Scope.TYPE) with 2 in Hm.
  rewrite Z.land_comm, Hblot in Hm. discriminate.
Qed.

End AttributorFacts.

(** ** The optimize loop *)

Module ScrollOptimizeFacts.
Import ScrollOptimize.
Section Facts.
Context {Record World : Type}.
Variable takeRecords : World -> list Record * World.
Variable mark : list Record -> World -> World.
Variable visit : World -> World.

Abbreviation body := (body takeRecords mark visit).
Abbreviation iterate := (iterate takeRecords mark visit).
Abbreviation pending := (pending takeRecords mark visit).
Abbreviation optimize_loop := (optimize_loop takeRecords mark visit).

Lemma iterate_S_body (k : nat) (o t : list Record) (wd : World) :
  iterate (S k) o t wd
  = iterate k (body o t wd).1.1 (body o t wd).1.2 (body o t wd).2.
Proof.
  induction k as [|k IH].
  - simpl. destruct (body o t wd) as [[? ?] ?]. reflexivity.
  - change (iterate (S (S k)) o t wd)
      with (let '(o1, t1, wd1) := iterate (S k) o t wd in body o1 t1 wd1).
    rewrite IH. reflexivity.
Qed.

Lemma loop_spec (e : nat) (o t : list Record) (wd : World) :
  (e <= w)%nat ->
  (e <= (optimize_loop e o t wd).2 <= w)%nat /\
  (forall k : nat, (e + k <= w)%nat ->
     (forall j : nat, (j < k)%nat -> pending j o t wd <> []) ->
     pending k o t wd = [] ->
     optimize_loop e o t wd
     = (Ok ((iterate k o t wd).1.2, (iterate k o t wd).2), (e + k)%nat)) /\
  ((forall k : nat, (e + k <= w)%nat -> pending k o t wd <> []) ->
   optimize_loop e o t wd = (Err max_iterations, w)).
Proof.
  funelim (optimize_loop e o t wd); intros He.
  - simpl. split; [lia|]. split.
    + intros [|k] Hk Hlt Hp.
      * simpl. f_equal. lia.
      * exfalso. apply (Hlt 0%nat); [lia|]. reflexivity.
    + intros Hall. exfalso. apply (Hall 0%nat); [lia|]. reflexivity.
  - simpl. assert (e = w) by lia. subst e.
    split; [lia|]. split.
    + intros [|k] Hk Hlt Hp; [discriminate|lia].
    + reflexivity.
  - destruct H as (Hb & Hok & Herr); [lia|].
    split; [lia|]. split.
    + intros [|k] Hk Hlt Hp; [discriminate|].
      rewrite iterate_S_body. replace (e + S k)%nat with (S e + k)%nat by lia.
      apply Hok; [lia| |].
      * intros j Hj. specialize (Hlt (S j)). unfold ScrollOptimize.pending in *.
        rewrite iterate_S_body in Hlt. apply Hlt. lia.
      * unfold ScrollOptimize.pending in *. rewrite iterate_S_body in Hp.
        exact Hp.
    + intros Hall. apply Herr. intros k Hk. specialize (Hall (S k)).
      unfold ScrollOptimize.pending in *. rewrite iterate_S_body in Hall.
      apply Hall. lia.
Qed.

End Facts.

(** C6.  Whatever the host does, the loop of [optimize] is left after at most
    100 passes of its body.  When the record list is still non-empty at each
    of the tests, the one after the 100th pass included, the loop throws the
    error "Maximum optimize iterations reached" after exactly 100 passes and
    makes no further one; when the list is first found empty at the test
    after [k <= 100] passes, the loop ends normally after exactly [k]
    passes. *)
Theorem optimize_loop_bounded {Record World : Type}
    (takeRecords : World -> list Record * World)
    (mark : list Record -> World -> World) (visit : World -> World)
    (o t : list Record) (wd : World) :
  let out := optimize_loop takeRecords mark visit 0 o t wd in
  (out.2 <= 100)%nat /\
  ((forall k : nat, (k <= 100)%nat ->
      pending takeRecords mark visit k o t wd <> []) ->
   out = (Err max_iterations, 100%nat)) /\
  (forall k : nat, (k <= 100)%nat ->
     (forall j : nat, (j < k)%nat ->
        pending takeRecords mark visit j o t wd <> []) ->
     pending takeRecords mark visit k o t wd = [] ->
     out = (Ok ((iterate takeRecords mark visit k o t wd).1.2,
                (iterate takeRecords mark visit k o t wd).2), k)).
Proof.
  intros out. subst out.
  destruct (loop_spec takeRecords mark visit 0 o t wd) as (Hb & Hok & Herr);
    [unfold w; lia|].
  split; [unfold w in Hb; lia|]. split.
  - intros Hall. apply Herr. intros k Hk. apply Hall. unfold w in Hk. lia.
  - intros k Hk Hlt Hp. apply (Hok k); [unfold w; lia| |]; assumption.
Qed.

End ScrollOptimizeFacts.

(** ** The blots *)

Module BlotFacts.
Section Facts.
Variable host : Host.
Variable reg : Registry.t.

Lemma Blot_ind2 (P : Blot -> Prop) :
  (forall cls dom, P (Leaf cls dom)) ->
  (forall cls d s, P (Text cls d s)) ->
  (forall cls el cs, Forall P cs -> P (Parent cls el cs)) ->
  forall b, P b.
Proof.
  intros HL HT HP. fix IH 1. intros [cls dom|cls d s|cls el cs];
    [apply HL|apply HT|].
  apply HP. induction cs as [|c cs IHcs]; constructor; [apply IH|exact IHcs].
Qed.

Lemma length_nonneg (b : Blot) : 0 <= length b.
Proof.
  induction b as [cls dom|cls d s|cls el cs IH] using Blot_ind2; simpl;
    [lia..|].
  induction IH as [|c cs Hc _ IHcs]; simpl; lia.
Qed.

Lemma children_nonneg (cs : list Blot) : LinkedListFacts.nonneg length cs.
Proof. apply Forall_forall. intros c _. apply length_nonneg. Qed.

Lemma length_parent (cls : Descriptor) (el : Element) (cs : list Blot) :
  length (Parent cls el cs) = LinkedList.total length cs.
Proof. reflexivity. Qed.

Lemma chars_count (s : string) :
  List.length (list_ascii_of_string s) = String.length s.
Proof. induction s; simpl; congruence. Qed.

Lemma flat_length (b : Blot) : Z.of_nat (List.length (flat b)) = length b.
Proof.
  induction b as [cls dom|cls d s|cls el cs IH] using Blot_ind2; simpl.
  - reflexivity.
  - rewrite length_map, chars_count. reflexivity.
  - induction IH as [|c cs Hc _ IHcs]; simpl; [reflexivity|].
    rewrite length_app. lia.
Qed.

Lemma flats_length (cs : list Blot) :
  Z.of_nat (List.length (flats cs)) = LinkedList.total length cs.
Proof.
  induction cs as [|c cs IH]; simpl; [reflexivity|].
  rewrite length_app. pose proof (flat_length c). lia.
Qed.

Lemma split_parent_eq (hp : bool) (cls : Descriptor) (el : Element)
    (cs : list Blot) (t : Z) (force : bool) :
  Ops.split host reg hp (Parent cls el cs) t force =
  let len := length (Parent cls el cs) in
  if negb force && (t =? 0) then Ok SplitSelf
  else if negb force && (t =? len) then Ok SplitNext
  else
    s ← Ops.clone host reg (Parent cls el cs);
    '(kept, moved) ← Ops.split_walk
                       (fun c i => Ops.split host reg true c i force) cs
                       (LinkedList.forEachAt length cs t len);
    s' ← Ops.appendChildren s moved;
    Ok (SplitNew (Parent cls el kept) s').
Proof. reflexivity. Qed.

Lemma substring_list (s : string) (a n : nat) :
  list_ascii_of_string (substring a n s)
  = take n (drop a (list_ascii_of_string s)).
Proof.
  revert a n. induction s as [|c s IH]; intros a n.
  - destruct a, n; reflexivity.
  - destruct a as [|a].
    + destruct n as [|n]; simpl; [reflexivity|]. rewrite IH. reflexivity.
    + simpl. apply IH.
Qed.

Lemma create_text (cls : Descriptor) (s : string) :
  kind cls = IsBlot KText ->
  Registry.query reg Registry.SelTextNode Scope.ANY = Some cls ->
  Create.create_node host reg (NText s)
  = Ok (Text cls s (String_normalize host s), NText s).
Proof.
  intros Hk Hq. simpl. rewrite Hq, Hk. simpl. unfold Create.construct.
  rewrite Hk. reflexivity.
Qed.

Lemma clone_parent (cls : Descriptor) (el : Element) (cs : list Blot) :
  is_parent_kind (kind cls) = true ->
  Registry.query reg (Registry.SelElement el) Scope.ANY = Some cls ->
  Ops.clone host reg (Parent cls el cs) = Ok (Parent cls el []).
Proof.
  intros Hk Hq. unfold Ops.clone. simpl. rewrite Hq, Hk. simpl.
  unfold Create.construct.
  destruct (kind cls) as [[]|]; try discriminate; reflexivity.
Qed.

Definition registered_all (cs : list Blot) : Prop :=
  foldr (fun c acc => registered reg c /\ acc) True cs.

Definition fits_all (cs : list Blot) : Prop :=
  foldr (fun c acc => fits c /\ acc) True cs.

Definition stable_all (cs : list Blot) : Prop :=
  foldr (fun c acc => stable host c /\ acc) True cs.

Lemma registered_all_Forall (cs : list Blot) :
  registered_all cs <-> Forall (registered reg) cs.
Proof.
  induction cs as [|c cs IH]; simpl; [split; [constructor|trivial]|].
  rewrite Forall_cons. tauto.
Qed.

Lemma flat_nil_of_length (c : Blot) : length c <= 0 -> flat c = [].
Proof.
  intros H. pose proof (flat_length c). destruct (flat c); [reflexivity|].
  simpl in *. lia.
Qed.

Lemma walk_none (f : Blot -> Z -> result SplitOut) (cs : list Blot) :
  Ops.split_walk f cs (map (fun _ => None) cs) = Ok (cs, []).
Proof.
  induction cs as [|c cs IH]; [reflexivity|]. simpl. rewrite IH. reflexivity.
Qed.

(** *** The closed form of a split *)

Lemma cut_children_cons (f : Blot -> Z -> SplitOut) (k L : Z) (c : Blot)
    (rest : list Blot) (n : Z) :
  cut_children f k L (c :: rest) n =
  let '(kept, moved) := cut_children f k L rest (n + length c) in
  if (n + length c <=? k) || (k + L <=? n) then (c :: kept, moved)
  else
    match f c (Z.max (k - n) 0) with
    | SplitNew l r => (l :: kept, r :: moved)
    | _ => (kept, c :: moved)
    end.
Proof. reflexivity. Qed.

Lemma cut_children_beyond (f : Blot -> Z -> SplitOut) (k L : Z)
    (cs : list Blot) (n : Z) :
  k + L <= n -> cut_children f k L cs n = (cs, []).
Proof.
  revert n. induction cs as [|c cs IH]; intros n Hn; [reflexivity|].
  rewrite cut_children_cons, IH by (pose proof (length_nonneg c); lia).
  replace (k + L <=? n) with true by lia. rewrite orb_true_r. reflexivity.
Qed.

Lemma cut_parent_eq (force : bool) (cls : Descriptor) (el : Element)
    (cs : list Blot) (k : Z) :
  cut host force (Parent cls el cs) k =
  if negb force && (k =? 0) then SplitSelf
  else if negb force && (k =? length (Parent cls el cs)) then SplitNext
  else
    let '(kept, moved) :=
      cut_children (cut host force) k (length (Parent cls el cs)) cs 0 in
    SplitNew (Parent cls el kept) (Parent cls el moved).
Proof. reflexivity. Qed.

Lemma cut_not_next (force : bool) (c : Blot) (i : Z) :
  i < length c \/ i = 0 -> 0 <= i -> cut host force c i <> SplitNext.
Proof.
  intros Hi H0. destruct c as [cls dom|cls d s|cls el cs].
  - simpl in *. replace (i =? 0) with true by lia. discriminate.
  - cbn [cut]. cbv zeta. cbn [length] in Hi. destruct force; simpl; [discriminate|].
    destruct (i =? 0) eqn:E0; [discriminate|].
    replace (i =? Z.of_nat (String.length s)) with false by lia.
    discriminate.
  - rewrite cut_parent_eq. destruct force; cbn [negb andb].
    + destruct (cut_children _ _ _ _ _). discriminate.
    + destruct (i =? 0) eqn:E0; [discriminate|].
      replace (i =? length (Parent cls el cs)) with false by lia.
      cbv iota. destruct (cut_children _ _ _ _ _). discriminate.
Qed.

Lemma cut_Self (force : bool) (c : Blot) (i : Z) :
  cut host force c i = SplitSelf -> i = 0.
Proof.
  destruct c as [cls dom|cls d s|cls el cs].
  - simpl. destruct (i =? 0) eqn:E; [lia|discriminate].
  - cbn [cut]. cbv zeta. destruct (negb force && (i =? 0)) eqn:E.
    + apply andb_true_iff in E as [_ E]. lia.
    + clear E. destruct (negb force && _); discriminate.
  - rewrite cut_parent_eq. destruct (negb force && (i =? 0)) eqn:E.
    + apply andb_true_iff in E as [_ E]. lia.
    + clear E. destruct (negb force && _); [discriminate|].
      destruct (cut_children _ _ _ _ _). discriminate.
Qed.

Lemma cut_same_head (force : bool) (b l r : Blot) (k : Z) :
  cut host force b k = SplitNew l r -> same_head b l /\ same_head b r.
Proof.
  destruct b as [cls dom|cls d s|cls el cs].
  - simpl. destruct (k =? 0); discriminate.
  - cbn [cut]. cbv zeta. destruct (negb force && (k =? 0)); [discriminate|].
    destruct (negb force && _); [discriminate|].
    intros H. injection H as <- <-. split; reflexivity.
  - rewrite cut_parent_eq. destruct (negb force && (k =? 0)); [discriminate|].
    destruct (negb force && _); [discriminate|].
    destruct (cut_children _ _ _ _ _) as [kept moved].
    intros H. injection H as <- <-. repeat split.
Qed.

Definition split_eq (b : Blot) : Prop :=
  registered reg b -> fits b -> forall (k : Z) (force : bool),
  0 <= k <= length b -> length b < 2 ^ 32 ->
  Ops.split host reg true b k force = Ok (cut host force b k).

Lemma walk_cut (force : bool) (k L : Z) (cs : list Blot) :
  0 <= k -> L < 2 ^ 32 -> Forall split_eq cs ->
  registered_all cs -> fits_all cs ->
  forall n : Z, 0 <= n -> n + LinkedList.total length cs <= L ->
  Ops.split_walk (fun c i => Ops.split host reg true c i force) cs
    (LinkedList.visits length cs k L n)
  = Ok (cut_children (cut host force) k L cs n).
Proof.
  intros Hk HL Hall.
  induction Hall as [|c cs Hc Hcs IH]; intros Hreg Hfit n Hn Htot;
    [reflexivity|].
  destruct Hreg as [Hrc Hrcs]. destruct Hfit as [Hfc Hfcs]. simpl in Htot.
  pose proof (length_nonneg c) as Hlc.
  pose proof (LinkedListFacts.total_nonneg length cs (children_nonneg cs))
    as Hpos.
  specialize (IH Hrcs Hfcs (n + length c) ltac:(lia) ltac:(lia)).
  rewrite cut_children_cons. cbn [LinkedList.visits Ops.split_walk].
  destruct (cut_children (cut host force) k L cs (n + length c))
    as [kept moved].
  destruct ((n + length c <=? k) || (k + L <=? n)) eqn:Etest.
  - cbn [tail]. rewrite IH. reflexivity.
  - apply orb_false_iff in Etest as [E1 E2].
    assert (Hplan : (if n <? k
                     then (k - n, Z.min L (n + length c - k))
                     else (0, Z.min (length c) (k + L - n)))
                    = (Z.max (k - n) 0,
                       if n <? k then Z.min L (n + length c - k)
                       else Z.min (length c) (k + L - n))).
    { destruct (n <? k) eqn:E; f_equal; lia. }
    rewrite Hplan. clear Hplan.
    assert (Hi : 0 <= Z.max (k - n) 0 <= length c) by lia.
    rewrite (Hc Hrc Hfc _ force Hi ltac:(lia)). simpl.
    pose proof (cut_not_next force c (Z.max (k - n) 0) ltac:(lia) ltac:(lia))
      as Hnn.
    destruct (cut host force c (Z.max (k - n) 0)) as [| |l r];
      [|contradiction|]; rewrite IH; reflexivity.
Qed.

Lemma split_cut (b : Blot) : split_eq b.
Proof.
  induction b as [cls dom|cls d s|cls el cs IH] using Blot_ind2;
    intros Hreg Hfit k force Hk Hlen.
  - reflexivity.
  - destruct Hreg as [Hkind Hq]. simpl in Hk, Hfit, Hlen. cbn [Ops.split cut].
    destruct (negb force && (k =? 0)); [reflexivity|].
    destruct (negb force && (k =? Z.of_nat (String.length s)));
      [reflexivity|].
    rewrite Z.mod_small by lia.
    replace (Z.of_nat (String.length d) <? k) with false by lia.
    rewrite (create_text cls _ Hkind Hq). reflexivity.
  - destruct Hreg as (Hkind & Hq & Hregs).
    rewrite split_parent_eq, cut_parent_eq. cbv zeta.
    destruct (negb force && (k =? 0)); [reflexivity|].
    destruct (negb force && (k =? length (Parent cls el cs)));
      [reflexivity|].
    rewrite length_parent in *.
    pose proof (LinkedListFacts.total_nonneg length cs (children_nonneg cs))
      as Htot.
    rewrite (clone_parent cls el cs Hkind Hq). simpl.
    assert (Hwalk :
      Ops.split_walk (fun c i => Ops.split host reg true c i force) cs
        (LinkedList.forEachAt length cs k (LinkedList.total length cs))
      = Ok (cut_children (cut host force) k (LinkedList.total length cs)
              cs 0)).
    { destruct (Z.eq_dec (LinkedList.total length cs) 0) as [Hz|Hz].
      - rewrite LinkedListFacts.forEachAt_empty_range by lia.
        rewrite walk_none, cut_children_beyond by lia. reflexivity.
      - rewrite LinkedListFacts.forEachAt_visits
          by (try apply children_nonneg; lia).
        apply walk_cut; try assumption; lia. }
    rewrite Hwalk. simpl.
    destruct (cut_children _ _ _ _ _) as [kept moved]. simpl.
    assert (Happ : Ops.appendChildren (Parent cls el []) moved
                   = Ok (Parent cls el moved)).
    { destruct moved; reflexivity. }
    rewrite Happ. reflexivity.
Qed.

(** *** The content on the two sides *)

Definition cut_ok (b : Blot) : Prop :=
  stable host b -> forall (k : Z) (force : bool), 0 <= k <= length b ->
  match cut host force b k with
  | SplitSelf => k = 0
  | SplitNext => k = length b /\ k <> 0
  | SplitNew l r =>
      flat l = take (Z.to_nat k) (flat b) /\
      flat r = drop (Z.to_nat k) (flat b)
  end.

Lemma cut_children_flat (force : bool) (k L : Z) (cs : list Blot) :
  0 <= k -> Forall cut_ok cs -> stable_all cs ->
  forall n : Z, 0 <= n -> n + LinkedList.total length cs <= L ->
  flats (fst (cut_children (cut host force) k L cs n))
  = take (Z.to_nat (k - n)) (flats cs) /\
  flats (snd (cut_children (cut host force) k L cs n))
  = drop (Z.to_nat (k - n)) (flats cs).
Proof.
  intros Hk Hall. induction Hall as [|c cs Hc Hcs IH]; intros Hst n Hn HL.
  - simpl. rewrite take_nil, drop_nil. split; reflexivity.
  - destruct Hst as [Hsc Hscs]. simpl in HL.
    pose proof (length_nonneg c) as Hlc.
    pose proof (LinkedListFacts.total_nonneg length cs (children_nonneg cs))
      as Htot.
    pose proof (flat_length c) as Hfl.
    destruct (IH Hscs (n + length c) ltac:(lia) ltac:(lia))
      as (Hkept & Hmoved).
    rewrite cut_children_cons.
    destruct (cut_children (cut host force) k L cs (n + length c))
      as [kept moved]. simpl fst in *. simpl snd in *.
    destruct ((n + length c <=? k) || (k + L <=? n)) eqn:Etest.
    + apply orb_true_iff in Etest as [E|E].
      * assert (Hge : (List.length (flat c) <= Z.to_nat (k - n))%nat) by lia.
        simpl. rewrite take_app_ge, drop_app_ge by exact Hge.
        rewrite Hkept, Hmoved.
        replace (Z.to_nat (k - n) - List.length (flat c))%nat
          with (Z.to_nat (k - (n + length c))) by lia.
        split; reflexivity.
      * assert (length c = 0) by lia.
        simpl. rewrite (flat_nil_of_length c) by lia.
        simpl. rewrite Hkept, Hmoved.
        replace (Z.to_nat (k - (n + length c))) with (Z.to_nat (k - n)) by lia.
        split; reflexivity.
    + apply orb_false_iff in Etest as [E1 E2].
      set (i := Z.max (k - n) 0).
      assert (Hi : 0 <= i <= length c) by lia.
      specialize (Hc Hsc i force Hi).
      pose proof (cut_not_next force c i ltac:(lia) ltac:(lia)) as Hnn.
      destruct (cut host force c i) as [| |l r] eqn:Ecut; [|contradiction|].
      * simpl. rewrite Hkept, Hmoved.
        replace (Z.to_nat (k - (n + length c))) with 0%nat by lia.
        replace (Z.to_nat (k - n)) with 0%nat by lia.
        split; reflexivity.
      * destruct Hc as [Hl Hr]. simpl. rewrite Hl, Hr, Hkept, Hmoved.
        assert (Hle : (Z.to_nat i <= List.length (flat c))%nat) by lia.
        assert (Hik : Z.to_nat i = Z.to_nat (k - n)) by lia.
        rewrite <- Hik.
        rewrite take_app_le, drop_app_le by exact Hle.
        replace (Z.to_nat (k - (n + length c))) with 0%nat by lia.
        simpl. rewrite app_nil_r. split; reflexivity.
Qed.

Lemma cut_spec (b : Blot) : cut_ok b.
Proof.
  induction b as [cls dom|cls d s|cls el cs IH] using Blot_ind2;
    intros Hst k force Hk.
  - simpl. destruct (k =? 0) eqn:E; simpl in *; lia.
  - destruct Hst as [-> Hnorm]. simpl in Hk. cbn [cut].
    destruct (negb force && (k =? 0)) eqn:E0.
    { apply andb_true_iff in E0 as [_ E0]. apply Z.eqb_eq in E0. exact E0. }
    destruct (negb force && (k =? Z.of_nat (String.length s))) eqn:E1.
    { apply andb_true_iff in E1 as [F1 F2]. apply andb_false_iff in E0.
      apply Z.eqb_eq in F2.
      destruct E0 as [E0|E0]; [congruence|]. apply Z.eqb_neq in E0.
      split; assumption. }
    cbn [flat]. rewrite !Hnorm, !substring_list. simpl drop.
    rewrite !firstn_map, skipn_map. split; [reflexivity|].
    f_equal. apply take_ge. rewrite length_drop, chars_count. lia.
  - rewrite cut_parent_eq. rewrite length_parent in *.
    pose proof (LinkedListFacts.total_nonneg length cs (children_nonneg cs))
      as Htot.
    destruct (negb force && (k =? 0)) eqn:E0.
    { apply andb_true_iff in E0 as [_ E0]. apply Z.eqb_eq in E0. exact E0. }
    destruct (negb force && (k =? LinkedList.total length cs)) eqn:E1.
    { apply andb_true_iff in E1 as [F1 F2]. apply andb_false_iff in E0.
      apply Z.eqb_eq in F2.
      destruct E0 as [E0|E0]; [congruence|]. apply Z.eqb_neq in E0.
      split; assumption. }
    destruct (cut_children_flat force k (LinkedList.total length cs) cs
                ltac:(lia) IH Hst 0 ltac:(lia) ltac:(lia)) as [H1 H2].
    destruct (cut_children _ _ _ _ _) as [kept moved].
    simpl fst in *. simpl snd in *. replace (k - 0) with k in * by lia.
    cbn [flat]. fold (flats kept) (flats moved) (flats cs).
    rewrite H1, H2. split; reflexivity.
Qed.

Lemma stable_fits (b : Blot) : stable host b -> fits b.
Proof.
  induction b as [cls dom|cls d s|cls el cs IH] using Blot_ind2; simpl.
  - trivial.
  - intros [-> _]. lia.
  - induction IH as [|c cs Hc _ IHcs]; simpl; [trivial|].
    intros [H1 H2]. split; [apply Hc; exact H1|apply IHcs; exact H2].
Qed.

(** What a split that succeeds returns, on the content: used where only
    the two sides matter. *)
Lemma split_spec (b : Blot) (k : Z) (force : bool) :
  registered reg b -> stable host b ->
  0 <= k <= length b -> length b < 2 ^ 32 ->
  match Ops.split host reg true b k force with
  | Ok SplitSelf => k = 0
  | Ok SplitNext => k = length b /\ k <> 0
  | Ok (SplitNew l r) =>
      flat l = take (Z.to_nat k) (flat b) /\
      flat r = drop (Z.to_nat k) (flat b) /\
      same_head b l /\ same_head b r
  | Err _ => False
  end.
Proof.
  intros Hreg Hst Hk Hlen.
  rewrite (split_cut b Hreg (stable_fits b Hst) k force Hk Hlen).
  pose proof (cut_spec b Hst k force Hk) as H.
  destruct (cut host force b k) as [| |l r] eqn:E; try exact H.
  destruct H as [Hl Hr]. pose proof (cut_same_head _ _ _ _ _ E). tauto.
Qed.

End Facts.





Lemma registered_paragraph : registered Demo.registry Demo.paragraph.
Proof. simpl. repeat split; vm_compute; reflexivity. Qed.


Lemma stable_paragraph : stable Demo.host Demo.paragraph.
Proof. simpl. repeat split. Qed.

Lemma small_paragraph : length Demo.paragraph < 2 ^ 32.
Proof. reflexivity. Qed.


Definition HR : Node := NElem {| el_tag := "HR"; el_attrs := ∅ |} [].


Definition is_parent (b : Blot) : bool :=
  match b with
  | Parent _ _ _ => true
  | _ => false
  end.

Lemma find_at_end (cs : list Blot) :
  LinkedList.find length cs (LinkedList.total length cs) false = None.
Proof.
  apply LinkedListFacts.find_from_none; [apply children_nonneg|lia].
Qed.

Lemma not_inline_content (reg : Registry.t) (e : string) (s : option json) :
  s <> None -> s <> Some JNull ->
  Registry.query reg (Registry.SelString e) Scope.INLINE = None ->
  match s with
  | None | Some JNull => true
  | _ => bool_decide
           (Registry.query reg (Registry.SelString e) Scope.INLINE <> None)
  end = false.
Proof.
  intros H1 H2 Hq. destruct s as [[]|]; try congruence;
    apply bool_decide_eq_false; rewrite Hq; intros H; apply H; reflexivity.
Qed.

(** C7 (as the code has it).  For a parent whose [insertAt] is
    [ParentBlot.insertAt] alone (a plain parent, an inline, and a block when
    the content is text or of inline scope), inserting at the offset equal to
    the parent's length gives the tree that creating the blot for the content
    and appending it as the last child gives, failures of the creation
    included; so does the root's [insertAt] when its [update()] finds
    nothing to change.  A container appends in the same way and then
    enforces its allowed children.  A block given a value whose type is not
    of inline scope puts the new blot outside itself: before the block when
    the block has length 0, after it when it has content and a next
    sibling, and the call throws when it has content and no next
    sibling. *)
Theorem insertAt_end_is_append (host : Host) (reg : Registry.t)
    (update : Blot -> result Blot)
    (cls : Descriptor) (el : Element) (cs : list Blot) (has_next : bool)
    (e : string) (s : option json) :
  let p := Parent cls el cs in
  let appended :=
    i ← Ops.new_content host reg e s; Ops.appendChild p i in
  (kind cls = IsBlot KParent \/ kind cls = IsBlot KInline \/
   (kind cls = IsBlot KBlock /\
    (s = None \/ s = Some JNull \/
     Registry.query reg (Registry.SelString e) Scope.INLINE <> None)) ->
   Ops.insertAt host reg p has_next (length p) e s
   = (p' ← appended; Ok [p'])) /\
  (update p = Ok p ->
   Ops.ScrollBlot_insertAt host reg update p (length p) e s = appended) /\
  (kind cls = IsBlot KContainer ->
   Ops.insertAt host reg p has_next (length p) e s
   = (p' ← appended;
      r ← Ops.enforceAllowedChildren host reg p' true;
      Ok (Ops.enforced_list r))) /\
  (kind cls = IsBlot KBlock -> s <> None -> s <> Some JNull ->
   Registry.query reg (Registry.SelString e) Scope.INLINE = None ->
   Ops.insertAt host reg p has_next (length p) e s
   = if length p =? 0
     then i ← Create.create host reg (Registry.SelString e) s; Ok [i; p]
     else if has_next
          then i ← Create.create host reg (Registry.SelString e) s;
               Ok [p; i]
          else Err (JsError "Attempt to insertAt after block boundaries")).
Proof.
  intros p appended.
  assert (Hgen : forall f,
    Ops.ParentBlot_insertAt host reg f cls el cs (length p) e s = appended).
  { intros f. unfold Ops.ParentBlot_insertAt. subst p.
    rewrite length_parent, find_at_end. reflexivity. }
  split; [|split; [|split]].
  - intros Hkind. subst p. cbn [Ops.insertAt]. cbv zeta. rewrite Hgen.
    destruct Hkind as [-> | [-> | [-> Hs]]]; [reflexivity..|].
    assert (Hin : match s with
                  | None | Some JNull => true
                  | _ => bool_decide
                           (Registry.query reg (Registry.SelString e)
                              Scope.INLINE <> None)
                  end = true).
    { destruct Hs as [-> | [-> | Hq]]; [reflexivity..|].
      destruct s as [[]|]; try reflexivity; apply bool_decide_eq_true; exact Hq. }
    rewrite Hin. reflexivity.
  - intros Hup. unfold Ops.ScrollBlot_insertAt. rewrite Hup. simpl.
    apply Hgen.
  - intros Hkind. subst p. cbn [Ops.insertAt]. cbv zeta.
    rewrite Hgen, Hkind. reflexivity.
  - intros Hkind Hs1 Hs2 Hq. subst p. cbn [Ops.insertAt]. cbv zeta.
    rewrite Hkind, (not_inline_content reg e s Hs1 Hs2 Hq).
    rewrite split_parent_eq. cbv zeta. cbn [negb andb].
    destruct (length (Parent cls el cs) =? 0) eqn:E0; [reflexivity|].
    rewrite Z.eqb_refl. simpl. destruct has_next; reflexivity.
Qed.

Lemma insertAt_end_witness :
  Ops.insertAt Demo.host Demo.registry Demo.paragraph false
    (length Demo.paragraph) "ef" None
  = Ok [Parent Classes.BlockBlot Demo.P
          [Text Classes.TextBlot "ab" "ab"; Text Classes.TextBlot "cd" "cd";
           Text Classes.TextBlot "ef" "ef"]].
Proof.
  refine (eq_trans
            (proj1 (insertAt_end_is_append Demo.host Demo.registry
                      (fun b => Ok b) Classes.BlockBlot Demo.P
                      [Text Classes.TextBlot "ab" "ab";
                       Text Classes.TextBlot "cd" "cd"]
                      false "ef" None) _) _).
  - right. right. split; [reflexivity|]. left. reflexivity.
  - vm_compute. reflexivity.
Defined.

(** C7, as worded, fails on a block given content of block scope with a
    value: the new blot is placed after the block, among the block's
    siblings, or, when the block has no next sibling, the call throws; an
    empty block gets it before itself; appending would have made it the
    block's last child. *)
Lemma block_insert_counterexample :
  Ops.insertAt Demo.host Demo.registry Demo.paragraph true
    (length Demo.paragraph) "divider" (Some (JBool true))
  = Ok [Demo.paragraph; Leaf Demo.Divider HR] /\
  Ops.insertAt Demo.host Demo.registry Demo.paragraph false
    (length Demo.paragraph) "divider" (Some (JBool true))
  = Err (JsError "Attempt to insertAt after block boundaries") /\
  Ops.insertAt Demo.host Demo.registry
    (Parent Classes.BlockBlot Demo.P []) false 0 "divider"
    (Some (JBool true))
  = Ok [Leaf Demo.Divider HR; Parent Classes.BlockBlot Demo.P []] /\
  (i ← Ops.new_content Demo.host Demo.registry "divider" (Some (JBool true));
   Ops.appendChild Demo.paragraph i)
  = Ok (Parent Classes.BlockBlot Demo.P
          [Text Classes.TextBlot "ab" "ab"; Text Classes.TextBlot "cd" "cd";
           Leaf Demo.Divider HR]).
Proof. repeat split; vm_compute; reflexivity. Qed.


Definition root : Blot := Parent Classes.ScrollBlot Demo.DIV [Demo.paragraph].





End BlotFacts.

(** ** The image grid *)

Module ImageGridFacts.
Section Facts.
Variable host : Host.





















End Facts.







End ImageGridFacts.

(** ** Adapting host nodes *)

Module CreateFacts.









End CreateFacts.

(** ** More on the ordered container *)

Module LinkedListMore.
Import LinkedList LinkedListFacts.
Section Facts.
Context {A : Type}.
Variable len : A -> Z.

Lemma offset_from_take (l : list A) (e : Z) (i : nat) :
  (i < List.length l)%nat ->
  offset_from len e l i = e + total len (take i l).
Proof.
  revert e i. induction l as [|a l IH]; intros e i Hi; simpl in Hi; [lia|].
  destruct i as [|i]; simpl; [lia|].
  rewrite IH by lia. lia.
Qed.

Lemma offset_from_out (l : list A) (e : Z) (i : nat) :
  (List.length l <= i)%nat -> offset_from len e l i = -1.
Proof.
  revert e i. induction l as [|a l IH]; intros e i Hi; simpl in Hi.
  - destruct i; reflexivity.
  - destruct i as [|i]; [lia|]. simpl. apply IH. lia.
Qed.

(** X1.  [offset] of the entry at position [i] is the sum of the lengths of
    the entries before it, and [-1] when there is no such entry. *)
Theorem offset_is_sum_before (l : list A) (i : nat) :
  offset len l i
  = if bool_decide (i < List.length l)%nat then total len (take i l) else -1.
Proof.
  unfold offset. case_bool_decide.
  - rewrite offset_from_take by assumption. lia.
  - apply offset_from_out. lia.
Qed.

Lemma find_from_locates (l : list A) (i0 : nat) (t : Z) :
  nonneg len l -> 0 <= t < total len l ->
  exists (j : nat) (a : A),
    find_from len i0 l t false = Some ((i0 + j)%nat, t - total len (take j l)) /\
    l !! j = Some a /\
    0 <= t - total len (take j l) < len a.
Proof.
  intros Hl. revert i0 t. induction Hl as [|a l Ha Hl IH]; intros i0 t Ht;
    simpl in Ht; [lia|].
  cbn [find_from]. rewrite orb_false_r.
  destruct (t <? len a) eqn:E.
  - exists 0%nat, a. simpl. replace (i0 + 0)%nat with i0 by lia.
    replace (t - 0) with t by lia. repeat split; lia.
  - destruct (IH (S i0) (t - len a)) as (j & b & Hf & Hb & Hr); [lia|].
    exists (S j), b. simpl. rewrite Hf.
    replace (S i0 + j)%nat with (i0 + S j)%nat by lia.
    replace (t - len a - total len (take j l))
      with (t - (len a + total len (take j l))) by lia.
    repeat split; [exact Hb|lia..].
Qed.

(** X2.  When no length is negative and [0 <= t < total], [find(t)] returns
    the entry that contains offset [t]: the offset of that entry plus the
    remainder returned is [t], and the remainder is within the entry. *)
Theorem find_locates (l : list A) (t : Z) :
  nonneg len l -> 0 <= t < total len l ->
  exists (i : nat) (r : Z) (a : A),
    find len l t false = Some (i, r) /\ l !! i = Some a /\
    offset len l i + r = t /\ 0 <= r < len a.
Proof.
  intros Hl Ht.
  destruct (find_from_locates l 0 t Hl Ht) as (j & a & Hf & Ha & Hr).
  exists j, (t - total len (take j l)), a. unfold find. simpl in Hf.
  split; [exact Hf|]. split; [exact Ha|]. split; [|exact Hr].
  unfold offset.
  rewrite offset_from_take by (apply lookup_lt_is_Some; eauto). lia.
Qed.

(** X3.  When no length is negative, [find(t)] without [preferEnd] returns
    [[null, 0]] exactly when [t] is at or past the total length (for
    [t >= 0]). *)
Theorem find_none_iff (l : list A) (t : Z) :
  nonneg len l -> 0 <= t ->
  (find len l t false = None <-> total len l <= t).
Proof.
  intros Hl Ht. split.
  - intros Hn. destruct (Z_lt_le_dec t (total len l)) as [Hlt|Hle]; [|exact Hle].
    destruct (find_from_locates l 0 t Hl ltac:(lia)) as (j & a & Hf & _).
    unfold find in Hn. congruence.
  - intros Hle. apply find_from_none; assumption.
Qed.

Lemma find_from_cons (i : nat) (cur : A) (rest : list A) (t : Z) (e : bool) :
  find_from len i (cur :: rest) t e
  = if (t <? len cur)
       || (e && (t =? len cur)
             && match rest with
                | [] => true
                | nxt :: _ => negb (len nxt =? 0)
                end)
    then Some (i, t)
    else find_from len (S i) rest (t - len cur) e.
Proof. reflexivity. Qed.

Lemma last_cons_default (l : list A) (a b : A) :
  List.last (b :: l) a = List.last l b.
Proof.
  revert a b. induction l as [|c l IH]; intros a b; [reflexivity|].
  change (List.last (b :: c :: l) a) with (List.last (c :: l) a).
  rewrite !IH. reflexivity.
Qed.

Lemma find_from_end (l : list A) (a : A) (i0 : nat) (t : Z) :
  nonneg len (a :: l) -> t = total len (a :: l) ->
  find_from len i0 (a :: l) t true
  = Some ((i0 + List.length l)%nat, len (List.last l a)).
Proof.
  revert a i0 t. induction l as [|b l IH]; intros a i0 t Hl Ht.
  - simpl in *. replace (t <? len a) with false by lia.
    replace (t =? len a) with true by lia. simpl.
    replace (i0 + 0)%nat with i0 by lia. f_equal. f_equal. lia.
  - apply Forall_cons in Hl as [Ha Hl].
    pose proof (total_nonneg len (b :: l) Hl) as Htot.
    rewrite find_from_cons. simpl in Ht.
    assert (Hb : 0 <= len b) by (apply Forall_cons in Hl as [? _]; assumption).
    assert (Htl : 0 <= total len l).
    { apply total_nonneg. apply Forall_cons in Hl as [_ ?]. assumption. }
    assert (E : (t <? len a)
                || (true && (t =? len a) && negb (len b =? 0)) = false).
    { apply orb_false_iff. split; [lia|].
      destruct (t =? len a) eqn:E1; [|reflexivity].
      destruct (len b =? 0) eqn:E2; [reflexivity|]. lia. }
    rewrite E. rewrite (IH b (S i0) (t - len a) Hl) by (simpl; lia).
    f_equal. f_equal; [simpl; lia|]. rewrite last_cons_default. reflexivity.
Qed.

(** X4.  When no length is negative and the list is not empty,
    [find(total, true)] returns the last entry together with its length:
    with [preferEnd] the end of the content is the end of the last entry. *)
Theorem find_end_prefers_last (l : list A) (a : A) :
  nonneg len (a :: l) ->
  find len (a :: l) (total len (a :: l)) true
  = Some (List.length l, len (List.last l a)).
Proof.
  intros Hl. unfold find. rewrite (find_from_end l a 0 _ Hl eq_refl).
  reflexivity.
Qed.

(** The counts [forEachAt] passes, added up. *)
Definition counts (plan : list (option (Z * Z))) : Z :=
  foldr (fun p acc => match p with Some (_, c) => c + acc | None => acc end)
    0 plan.

Lemma counts_none (l : list A) :
  counts (map (fun _ => None) l) = 0.
Proof. induction l as [|a l IH]; simpl; [reflexivity|exact IH]. Qed.

Lemma visits_counts (l : list A) (t e n : Z) :
  nonneg len l -> 0 < e -> n <= t + e -> t + e <= n + total len l ->
  counts (visits len l t e n) = t + e - Z.max t n.
Proof.
  intros Hl He. revert n. induction Hl as [|a l Ha Hl IH]; intros n Hn Hend;
    simpl in *; [lia|].
  pose proof (total_nonneg len l Hl) as Htot.
  destruct (Z_le_gt_dec (t + e) (n + len a)) as [Hlast|Hmore].
  - (* the range ends within this entry *)
    rewrite (visits_none len l t e (n + len a) Hl) by lia.
    rewrite counts_none.
    destruct ((n + len a <=? t) || (t + e <=? n)) eqn:E.
    + apply orb_true_iff in E as [E|E]; lia.
    + apply orb_false_iff in E as [E1 E2].
      destruct (n <? t) eqn:E3; lia.
  - rewrite IH by lia.
    destruct ((n + len a <=? t) || (t + e <=? n)) eqn:E.
    + apply orb_true_iff in E as [E|E]; lia.
    + apply orb_false_iff in E as [E1 E2].
      destruct (n <? t) eqn:E3; lia.
Qed.

(** X5.  When no length is negative and the range [t, t + e) lies within
    the content ([0 <= t], [0 < e], [t + e <= total]), the counts
    [forEachAt(t, e, ...)] hands to the visitor add up to [e]: the visits
    cover the range exactly. *)
Theorem forEachAt_covers_range (l : list A) (t e : Z) :
  nonneg len l -> 0 <= t -> 0 < e -> t + e <= total len l ->
  counts (forEachAt len l t e) = e.
Proof.
  intros Hl Ht He Hend.
  rewrite (forEachAt_visits len l t e Hl Ht He).
  rewrite (visits_counts l t e 0 Hl He) by lia. lia.
Qed.

Lemma at_lookup (l : list A) (i : nat) : at_ l (Z.of_nat i) = l !! i.
Proof.
  revert i. induction l as [|a l IH]; intros i; [reflexivity|].
  destruct i as [|i]; [reflexivity|]. cbn [at_].
  assert ((0 <? Z.of_nat (S i)) = true) as -> by (apply Z.ltb_lt; lia).
  replace (Z.of_nat (S i) - 1) with (Z.of_nat i) by lia.
  apply IH.
Qed.

(** X6.  [at(i)] is the entry at position [i] for [i >= 0] (none past the
    end), and the head for a negative [i]. *)
Theorem at_is_lookup (l : list A) (i : Z) :
  at_ l i = if 0 <=? i then l !! Z.to_nat i else head l.
Proof.
  destruct (0 <=? i) eqn:E.
  - rewrite <- (Z2Nat.id i) at 1 by lia. apply at_lookup.
  - destruct l as [|a l]; simpl; [reflexivity|].
    replace (0 <? i) with false by lia. reflexivity.
Qed.

End Facts.

Lemma nonneg_2_3 : nonneg (fun z : Z => z) [2; 3].
Proof. repeat constructor; lia. Qed.

Lemma find_locates_witness :
  exists (i : nat) (r : Z) (a : Z),
    find (fun z : Z => z) [2; 3] 4 false = Some (i, r) /\
    [2; 3] !! i = Some a /\
    offset (fun z : Z => z) [2; 3] i + r = 4 /\ 0 <= r < a.
Proof.
  refine (find_locates (fun z : Z => z) [2; 3] 4 nonneg_2_3 _).
  vm_compute. split; [discriminate|reflexivity].
Defined.

Lemma find_none_iff_witness :
  find (fun z : Z => z) [2; 3] 5 false = None <->
  total (fun z : Z => z) [2; 3] <= 5.
Proof.
  refine (find_none_iff (fun z : Z => z) [2; 3] 5 nonneg_2_3 _).
  vm_compute. discriminate.
Defined.

Lemma find_end_prefers_last_witness :
  find (fun z : Z => z) [2; 3] (total (fun z : Z => z) [2; 3]) true
  = Some (1%nat, 3).
Proof.
  exact (find_end_prefers_last (fun z : Z => z) [3] 2 nonneg_2_3).
Defined.

Lemma forEachAt_covers_range_witness :
  counts (forEachAt (fun z : Z => z) [2; 3] 1 3) = 3.
Proof.
  refine (forEachAt_covers_range (fun z : Z => z) [2; 3] 1 3 nonneg_2_3 _ _ _).
  - vm_compute. discriminate.
  - vm_compute. reflexivity.
  - vm_compute. discriminate.
Defined.

End LinkedListMore.

(** ** More on the registry *)

Module RegistryMore.
Import Registry.

Lemma register_result (e d : Descriptor) (reg reg' : t) :
  register e reg = Ok (d, reg') ->
  d = stored e /\
  types reg' = <[type_key e := stored e]> (types reg) /\
  (blotName e <> None \/ attrName e <> None) /\
  blotName e <> Some "abstract".
Proof.
  unfold register. intros H.
  destruct (decide (blotName e = Some "abstract")) as [Ha|Ha];
    [destruct (blotName e), (attrName e); discriminate|].
  assert (Hname : blotName e <> None \/ attrName e <> None).
  { destruct (blotName e), (attrName e); try discriminate;
      (left; discriminate) || (right; discriminate). }
  assert (Hgo : match keyName e with
                | Some k => Ok (stored e,
                    mk (<[k:=stored e]> (attributes reg)) (classes reg)
                       (tags reg) (<[type_key e:=stored e]> (types reg)))
                | None => Ok (stored e,
                    mk (attributes reg)
                      match className e with
                      | Some c => <[c:=stored e]> (classes reg)
                      | None => classes reg
                      end
                      match tagName (stored e) with
                      | Some tn =>
                          register_tags (stored e) (tag_list tn) (tags reg)
                      | None => tags reg
                      end (<[type_key e:=stored e]> (types reg)))
                end = Ok (d, reg')).
  { destruct (blotName e), (attrName e); try exact H; discriminate. }
  destruct (keyName e); injection Hgo as <- <-; repeat split; assumption.
Qed.

(** X7.  A definition that [register] accepted is what [query] returns for
    its name: the string [blotName || attrName] resolves to the registered
    definition whenever its scope meets the mask on both axes, and to
    nothing otherwise. *)
Theorem register_then_query_by_name (e d : Descriptor) (reg reg' : t)
    (mask : Z) :
  register e reg = Ok (d, reg') ->
  query reg' (SelString (type_key e)) mask
  = if scope_matches mask d then Some d else None.
Proof.
  intros H. destruct (register_result e d reg reg' H) as (-> & Ht & _).
  unfold query, resolve.
  rewrite (RegistryFacts.get_Some _ _ (stored e))
    by (rewrite Ht; apply lookup_insert_eq).
  reflexivity.
Qed.

Lemma register_then_query_witness :
  query RegistryFacts.reg_block (SelString "block") Scope.ANY
  = Some Classes.BlockBlot.
Proof.
  refine (eq_trans (register_then_query_by_name Classes.BlockBlot
            (stored Classes.BlockBlot) empty RegistryFacts.reg_block
            Scope.ANY _) _).
  - vm_compute. reflexivity.
  - vm_compute. reflexivity.
Defined.

(** X8.  [register] throws exactly when the definition has neither a
    [blotName] nor an [attrName] ("Invalid definition") or its [blotName] is
    the reserved name [abstract] ("Cannot register abstract class"); in
    every other case it returns the definition as stored. *)
Theorem register_outcome (e : Descriptor) (reg : t) :
  match register e reg with
  | Err err =>
      (blotName e = None /\ attrName e = None /\
       err = ParchmentError "Invalid definition") \/
      (blotName e = Some "abstract" /\
       err = ParchmentError "Cannot register abstract class")
  | Ok (d, _) =>
      d = stored e /\ (blotName e <> None \/ attrName e <> None) /\
      blotName e <> Some "abstract"
  end.
Proof.
  destruct (register e reg) as [[d reg']|err] eqn:E.
  - destruct (register_result e d reg reg' E) as (H1 & _ & H2 & H3). auto.
  - unfold register in E.
    destruct (blotName e) as [b|], (attrName e) as [a|];
      try (destruct (decide (Some b = Some "abstract")) as [H|H];
           [right; split; [exact H|congruence]
           |destruct (keyName e); discriminate]).
    + destruct (decide (None = Some "abstract")); [discriminate|].
      destruct (keyName e); discriminate.
    + left. repeat split. congruence.
Qed.





(** X12.  Tag names are upper-cased when a definition is registered: a
    definition without class marker and key name that declares the single
    tag [s] becomes the entry of the tag [toUpperCase s], and the definition
    as stored declares that upper-case tag. *)
Theorem register_uppercases_tag (e d : Descriptor) (reg reg' : t)
    (s : string) :
  register e reg = Ok (d, reg') ->
  keyName e = None -> className e = None -> tagName e = Some (TagOne s) ->
  tags reg' !! toUpperCase s = Some d /\
  tagName d = Some (TagOne (toUpperCase s)).
Proof.
  intros Hr Hk Hc Ht.
  assert (Hst : tagName (stored e) = Some (TagOne (toUpperCase s))).
  { unfold stored. rewrite Hk. simpl. rewrite Ht. reflexivity. }
  assert (Hcl : RegistryFacts.classless_under (toUpperCase s) e).
  { repeat split; [exact Hk|exact Hc|]. unfold RegistryFacts.filed_tags.
    rewrite Hst. simpl. apply list_elem_of_here. }
  destruct (RegistryFacts.register_classless _ _ _ _ _ Hr Hcl) as (-> & H & _).
  split; [exact H|exact Hst].
Qed.

Lemma register_uppercases_tag_witness :
  tags (default empty (after [RegistryFacts.Paragraph2] empty)) !! "P"
  = Some (stored RegistryFacts.Paragraph2).
Proof.
  refine (proj1 (register_uppercases_tag RegistryFacts.Paragraph2
            (stored RegistryFacts.Paragraph2) empty
            (default empty (after [RegistryFacts.Paragraph2] empty)) "p"
            _ eq_refl eq_refl eq_refl)).
  vm_compute. reflexivity.
Defined.

Lemma land_level_block (n : Z) :
  Z.land (Z.land n 12) 11 = Z.land n 8.
Proof. rewrite <- Z.land_assoc. reflexivity. Qed.

Lemma land_level_inline (n : Z) :
  Z.land (Z.land n 12) 7 = Z.land n 4.
Proof. rewrite <- Z.land_assoc. reflexivity. Qed.

(** X11.  A number given to [query] is a scope probe: when it has the bit 8
    (the block level) it resolves to the type named [block], otherwise when
    it has the bit 4 (the inline level) to the type named [inline], and
    otherwise to nothing; the block level wins when both bits are set. *)
Theorem number_selector (reg : t) (n : Z) :
  resolve reg (SelNumber n)
  = if Z.testbit n 3 then get (types reg) "block"
    else if Z.testbit n 2 then get (types reg) "inline"
    else Missing.
Proof.
  unfold resolve. change Scope.LEVEL with 12. change Scope.BLOCK with 11.
  change Scope.INLINE with 7.
  rewrite land_level_block, land_level_inline.
  assert (H8 : (Z.land n 8 =? 0) = negb (Z.testbit n 3)).
  { change 8 with (2 ^ 3).
    destruct (Z.testbit n 3) eqn:E.
    - apply Z.eqb_neq. intros H.
      assert (Z.testbit (Z.land n (2 ^ 3)) 3 = false) by (rewrite H; apply Z.bits_0).
      rewrite Z.land_spec, E, Z.pow2_bits_true in H0 by lia. discriminate.
    - apply Z.eqb_eq. apply Z.bits_inj'. intros k Hk.
      rewrite Z.land_spec, Z.bits_0.
      destruct (Z.eq_dec k 3) as [->|Hne]; [rewrite E; reflexivity|].
      rewrite Z.pow2_bits_false by lia. apply andb_false_r. }
  assert (H4 : (Z.land n 4 =? 0) = negb (Z.testbit n 2)).
  { change 4 with (2 ^ 2).
    destruct (Z.testbit n 2) eqn:E.
    - apply Z.eqb_neq. intros H.
      assert (Z.testbit (Z.land n (2 ^ 2)) 2 = false) by (rewrite H; apply Z.bits_0).
      rewrite Z.land_spec, E, Z.pow2_bits_true in H0 by lia. discriminate.
    - apply Z.eqb_eq. apply Z.bits_inj'. intros k Hk.
      rewrite Z.land_spec, Z.bits_0.
      destruct (Z.eq_dec k 2) as [->|Hne]; [rewrite E; reflexivity|].
      rewrite Z.pow2_bits_false by lia. apply andb_false_r. }
  rewrite H8, H4, !negb_involutive. reflexivity.
Qed.

End RegistryMore.

(** ** More on attributors *)

Module AttributorMore.
Import Attributor.

Lemma truthy_string (s : string) :
  (if truthy (VStr s) then s else EmptyString) = s.
Proof. destruct s; reflexivity. Qed.

Lemma value_after_set (a : Descriptor) (node : Element) (s : string) :
  plain_value a (setAttribute node (key a) s)
  = if canAdd a (VStr s) then s else EmptyString.
Proof.
  unfold plain_value, read, getAttribute, setAttribute. simpl.
  rewrite lookup_insert_eq.
  destruct (canAdd a (VStr s)); simpl; [apply truthy_string|reflexivity].
Qed.

(** X13.  A string value round-trips through a plain attributor: when
    [canAdd] accepts the string [s], [add] writes it under the key and
    returns true, and [value] of the node afterwards is [s], whatever the
    node held before. *)
Theorem add_then_value (host : Host) (a : Descriptor) (node : Element)
    (s : string) :
  kind a = IsAttributor AttrPlain ->
  canAdd a (VStr s) = true ->
  add host a node (VStr s) = Ok (setAttribute node (key a) s, true) /\
  value host a (setAttribute node (key a) s) = Ok s.
Proof.
  intros Hk H. unfold add, value. rewrite Hk. unfold plain_add. rewrite H.
  split; [reflexivity|]. rewrite value_after_set, H. reflexivity.
Qed.

Lemma add_then_value_witness :
  add Demo.host AttributorFacts.font {| el_tag := "SPAN"; el_attrs := ∅ |}
    (VStr "'serif'")
  = Ok (setAttribute {| el_tag := "SPAN"; el_attrs := ∅ |} "data-font"
          "'serif'", true) /\
  value Demo.host AttributorFacts.font
    (setAttribute {| el_tag := "SPAN"; el_attrs := ∅ |} "data-font"
       "'serif'") = Ok "'serif'".
Proof.
  exact (add_then_value Demo.host AttributorFacts.font
           {| el_tag := "SPAN"; el_attrs := ∅ |} "'serif'" eq_refl eq_refl).
Defined.

Definition is_string (v : prim) : bool :=
  match v with VStr _ => true | _ => false end.

Lemma in_whitelist_string (wl : list prim) (s : string) :
  forallb (fun w => negb (is_string w)) wl = true ->
  in_whitelist wl (VStr s) = false.
Proof.
  induction wl as [|w wl IH]; simpl; [reflexivity|].
  intros H. apply andb_true_iff in H as [Hw Hr]. rewrite (IH Hr).
  destruct w; simpl in *; try discriminate; reflexivity.
Qed.

Lemma canAdd_no_string (a : Descriptor) (wl : list prim) (s : string) :
  whitelist a = Some wl ->
  forallb (fun w => negb (is_string w)) wl = true ->
  canAdd a (VStr s) = false.
Proof.
  intros Hwl Hs. unfold canAdd. rewrite Hwl. apply in_whitelist_string.
  exact Hs.
Qed.

(** X14.  What is read back is always a string, and the whitelist is
    searched with strict equality: an attributor whose whitelist holds no
    string (numbers or booleans only) accepts those values in [add] but
    reports the empty string as the [value] of every node, also right after
    a successful [add].  This holds for each of the three classes of
    attributor wherever [value] returns; the plain attributor's [add] and
    [value] always return. *)
Theorem value_needs_string_whitelist (host : Host) (a : Descriptor)
    (k : AttrKind) (wl : list prim) (node : Element) :
  kind a = IsAttributor k ->
  whitelist a = Some wl ->
  forallb (fun w => negb (is_string w)) wl = true ->
  (forall v : string, value host a node = Ok v -> v = EmptyString) /\
  (forall (e : prim) (n : Element) (b : bool) (v : string),
     add host a node e = Ok (n, b) -> value host a n = Ok v ->
     v = EmptyString) /\
  (k = AttrPlain ->
   value host a node = Ok EmptyString /\
   forall e : prim,
     exists (n : Element) (b : bool),
       add host a node e = Ok (n, b) /\ b = canAdd a e /\
       value host a n = Ok EmptyString).
Proof.
  intros Hkind Hwl Hs.
  assert (Hc : forall s, canAdd a (VStr s) = false).
  { intros s. exact (canAdd_no_string a wl s Hwl Hs). }
  assert (Hp : forall n : Element, plain_value a n = EmptyString).
  { intros n. unfold plain_value, read.
    destruct (getAttribute n (key a)) as [s|].
    - rewrite Hc. reflexivity.
    - rewrite andb_false_r. reflexivity. }
  assert (Hv : forall (n : Element) (v : string),
            value host a n = Ok v -> v = EmptyString).
  { intros n v. unfold value. rewrite Hkind. destruct k.
    - rewrite Hp. congruence.
    - unfold class_value. destruct (keyName a); [|discriminate].
      rewrite Hc. congruence.
    - unfold style_value. destruct (camelize a); [|discriminate]. simpl.
      rewrite Hc. congruence. }
  split; [apply Hv|]. split.
  - intros e n b v _. apply Hv.
  - intros ->. unfold value, add. rewrite Hkind, Hp. split; [reflexivity|].
    intros e. unfold plain_add. destruct (canAdd a e); eexists _, _;
      rewrite Hp; repeat split.
Qed.

(** An attributor for a heading level, restricted to the numbers 1 to 3. *)
Definition level : Descriptor :=
  new AttrPlain "level" "data-level" None (Some [VNum 1; VNum 2; VNum 3]).

Lemma value_needs_string_whitelist_witness :
  add Demo.host level {| el_tag := "P"; el_attrs := ∅ |} (VNum 2)
  = Ok ({| el_tag := "P"; el_attrs := {["data-level" := "2"]} |}, true) /\
  value Demo.host level
    {| el_tag := "P"; el_attrs := {["data-level" := "2"]} |}
  = Ok EmptyString.
Proof.
  split; [vm_compute; reflexivity|].
  exact (proj1 (proj2 (proj2
           (value_needs_string_whitelist Demo.host level AttrPlain
              [VNum 1; VNum 2; VNum 3]
              {| el_tag := "P"; el_attrs := {["data-level" := "2"]} |}
              eq_refl eq_refl eq_refl)) eq_refl)).
Defined.

(** X15.  Without a whitelist a plain attributor accepts every value, which
    comes back as the string the host made of it: [value] after
    [add(node, e)] is [String(e)]. *)
Theorem add_then_value_unrestricted (host : Host) (a : Descriptor)
    (node : Element) (e : prim) :
  kind a = IsAttributor AttrPlain ->
  whitelist a = None ->
  add host a node e = Ok (setAttribute node (key a) (to_String e), true) /\
  value host a (setAttribute node (key a) (to_String e))
  = Ok (to_String e).
Proof.
  intros Hk Hwl.
  assert (Hc : forall v : prim, canAdd a v = true).
  { intros v. unfold canAdd. rewrite Hwl. reflexivity. }
  unfold add, value. rewrite Hk. unfold plain_add. rewrite Hc.
  split; [reflexivity|].
  rewrite value_after_set, Hc. reflexivity.
Qed.

Definition href : Descriptor := new AttrPlain "link" "href" None None.

Lemma add_then_value_unrestricted_witness :
  value Demo.host href
    (setAttribute {| el_tag := "A"; el_attrs := ∅ |} "href" "42")
  = Ok "42".
Proof.
  exact (proj2 (add_then_value_unrestricted Demo.host href
                  {| el_tag := "A"; el_attrs := ∅ |} (VNum 42)
                  eq_refl eq_refl)).
Defined.

(** X16.  The [add] and [remove] of a plain attributor touch the attribute
    under the attributor's own key only (attribute names are compared
    without regard to case), and after [remove] the [value] is the empty
    string. *)
Theorem attributor_frame (host : Host) (a : Descriptor) (node : Element)
    (e : prim) (k : string) :
  kind a = IsAttributor AttrPlain ->
  toLowerCase k <> toLowerCase (key a) ->
  (exists (n : Element) (b : bool),
     add host a node e = Ok (n, b) /\
     getAttribute n k = getAttribute node k /\
     el_tag n = el_tag node) /\
  (exists n : Element,
     remove host a node = Ok n /\
     getAttribute n k = getAttribute node k /\
     value host a n = Ok EmptyString /\
     el_tag n = el_tag node).
Proof.
  intros Hkind Hk. unfold add, remove, value. rewrite Hkind. split.
  - unfold plain_add. destruct (canAdd a e); eexists _, _;
      (split; [reflexivity|]); split; try reflexivity.
    unfold getAttribute, setAttribute. simpl.
    apply lookup_insert_ne. congruence.
  - eexists. split; [reflexivity|].
    unfold plain_remove, plain_value, read, getAttribute, removeAttribute.
    simpl. repeat split.
    + apply lookup_delete_ne. congruence.
    + rewrite lookup_delete_eq. rewrite andb_false_r. reflexivity.
Qed.

Lemma attributor_frame_witness :
  exists (n : Element) (b : bool),
    add Demo.host href {| el_tag := "A"; el_attrs := {["title" := "t"]} |}
      (VStr "x") = Ok (n, b) /\
    getAttribute n "title" = Some "t" /\
    el_tag n = "A".
Proof.
  refine (proj1 (attributor_frame Demo.host href
            {| el_tag := "A"; el_attrs := {["title" := "t"]} |}
            (VStr "x") "title" eq_refl _)).
  vm_compute. discriminate.
Defined.

End AttributorMore.

(** ** More on the text blot *)

Module TextFacts.

(** The position [slice] makes of an index: a negative index counts from
    the end, and every index is brought into the string. *)
Definition slice_index (len i : Z) : Z :=
  if i <? 0 then Z.max (len + i) 0 else Z.min i len.

Lemma chars_length (s : string) :
  List.length (list_ascii_of_string s) = String.length s.
Proof. induction s as [|c s IH]; simpl; [reflexivity|]. rewrite IH. reflexivity. Qed.

Lemma chars_app (s1 s2 : string) :
  list_ascii_of_string (s1 ++ s2)%string
  = list_ascii_of_string s1 ++ list_ascii_of_string s2.
Proof. induction s1 as [|c s1 IH]; simpl; [reflexivity|]. rewrite IH. reflexivity. Qed.

Lemma slice_index_range (len i : Z) :
  0 <= len -> 0 <= slice_index len i <= len.
Proof. unfold slice_index. intros H. destruct (i <? 0) eqn:E; lia. Qed.

Lemma js_slice_prefix (s : string) (t : Z) :
  list_ascii_of_string (js_slice s 0 t)
  = take (Z.to_nat (slice_index (Z.of_nat (String.length s)) t))
      (list_ascii_of_string s).
Proof.
  unfold js_slice. cbv zeta.
  fold (slice_index (Z.of_nat (String.length s)) t).
  pose proof (slice_index_range (Z.of_nat (String.length s)) t ltac:(lia)) as Hr.
  set (c := slice_index (Z.of_nat (String.length s)) t) in *.
  replace (0 <? 0) with false by reflexivity.
  replace (Z.min 0 (Z.of_nat (String.length s))) with 0 by lia.
  destruct (0 <? c) eqn:E.
  - rewrite BlotFacts.substring_list. rewrite Z.sub_0_r. reflexivity.
  - assert (c = 0) as -> by lia. reflexivity.
Qed.

Lemma js_slice_suffix (s : string) (t : Z) :
  list_ascii_of_string (js_slice_from s t)
  = drop (Z.to_nat (slice_index (Z.of_nat (String.length s)) t))
      (list_ascii_of_string s).
Proof.
  unfold js_slice_from, js_slice. cbv zeta.
  fold (slice_index (Z.of_nat (String.length s)) t).
  pose proof (slice_index_range (Z.of_nat (String.length s)) t ltac:(lia)) as Hr.
  set (c := slice_index (Z.of_nat (String.length s)) t) in *.
  replace (Z.of_nat (String.length s) <? 0) with false by lia.
  rewrite Z.min_id.
  destruct (c <? Z.of_nat (String.length s)) eqn:E.
  - rewrite BlotFacts.substring_list. apply take_ge.
    rewrite length_drop, chars_length. lia.
  - symmetry. apply drop_ge. rewrite chars_length. lia.
Qed.

Section Facts.
Variable host : Host.
Variable reg : Registry.t.

Lemma insertAt_text (cls : Descriptor) (d s : string) (has_next : bool)
    (t : Z) (e : string) (v : option json) :
  v = None \/ v = Some JNull ->
  exists s' : string,
    Ops.insertAt host reg (Text cls d s) has_next t e v
    = Ok [Text cls s' s'] /\
    (let c := Z.to_nat (slice_index (Z.of_nat (String.length s)) t) in
     list_ascii_of_string s'
     = take c (list_ascii_of_string s) ++ list_ascii_of_string e
       ++ drop c (list_ascii_of_string s)) /\
    length (Text cls s' s')
    = length (Text cls d s) + Z.of_nat (String.length e).
Proof.
  intros Hv.
  exists (js_slice s 0 t ++ e ++ js_slice_from s t)%string.
  assert (Hc : list_ascii_of_string (js_slice s 0 t ++ e ++ js_slice_from s t)
               = take (Z.to_nat (slice_index (Z.of_nat (String.length s)) t))
                   (list_ascii_of_string s) ++ list_ascii_of_string e
                 ++ drop (Z.to_nat (slice_index (Z.of_nat (String.length s)) t))
                      (list_ascii_of_string s)).
  { rewrite !chars_app, js_slice_prefix, js_slice_suffix. reflexivity. }
  split; [destruct Hv as [-> | ->]; reflexivity|].
  split; [exact Hc|].
  simpl. rewrite <- !chars_length, Hc, !length_app.
  pose proof (take_drop (Z.to_nat (slice_index (Z.of_nat (String.length s)) t))
                (list_ascii_of_string s)) as Htd.
  apply (f_equal (@List.length ascii)) in Htd. rewrite length_app in Htd.
  lia.
Qed.

Lemma deleteAt_text (cls : Descriptor) (d s : string) (next : option Blot)
    (t e : Z) :
  0 <= t -> 0 <= e -> t + e <= Z.of_nat (String.length s) ->
  exists s' : string,
    Ops.deleteAt host reg (Text cls d s) next t e
    = Ok (mkDelOut [Text cls s' s'] None) /\
    list_ascii_of_string s'
    = take (Z.to_nat t) (list_ascii_of_string s)
      ++ drop (Z.to_nat (t + e)) (list_ascii_of_string s) /\
    length (Text cls s' s') = length (Text cls d s) - e.
Proof.
  intros Ht He Hte.
  exists (js_slice s 0 t ++ js_slice_from s (t + e))%string.
  assert (Hc : list_ascii_of_string (js_slice s 0 t ++ js_slice_from s (t + e))
               = take (Z.to_nat t) (list_ascii_of_string s)
                 ++ drop (Z.to_nat (t + e)) (list_ascii_of_string s)).
  { rewrite chars_app, js_slice_prefix, js_slice_suffix.
    unfold slice_index.
    replace (t <? 0) with false by lia.
    replace (t + e <? 0) with false by lia.
    rewrite !Z.min_l by lia. reflexivity. }
  split; [reflexivity|]. split; [exact Hc|].
  simpl. rewrite <- !chars_length, Hc, length_app, length_take, length_drop.
  rewrite chars_length. lia.
Qed.

(** X17.  [TextBlot.insertAt(t, e)] without a value never fails and puts
    the characters of [e] at the position [slice] makes of [t]: a negative
    [t] counts from the end of the text and a [t] beyond the end appends.
    The text grows by the length of [e] in every case. *)
Theorem text_insertAt (cls : Descriptor) (d s : string) (has_next : bool)
    (t : Z) (e : string) (v : option json) :
  v = None \/ v = Some JNull ->
  exists s' : string,
    Ops.insertAt host reg (Text cls d s) has_next t e v
    = Ok [Text cls s' s'] /\
    (let c := Z.to_nat (slice_index (Z.of_nat (String.length s)) t) in
     list_ascii_of_string s'
     = take c (list_ascii_of_string s) ++ list_ascii_of_string e
       ++ drop c (list_ascii_of_string s)) /\
    length (Text cls s' s')
    = length (Text cls d s) + Z.of_nat (String.length e).
Proof. exact (insertAt_text cls d s has_next t e v). Qed.

(** X18.  [TextBlot.deleteAt(t, e)] for a range inside the text removes
    exactly the characters from [t] to [t + e]: the text is [e] shorter. *)
Theorem text_deleteAt (cls : Descriptor) (d s : string) (next : option Blot)
    (t e : Z) :
  0 <= t -> 0 <= e -> t + e <= Z.of_nat (String.length s) ->
  exists s' : string,
    Ops.deleteAt host reg (Text cls d s) next t e
    = Ok (mkDelOut [Text cls s' s'] None) /\
    list_ascii_of_string s'
    = take (Z.to_nat t) (list_ascii_of_string s)
      ++ drop (Z.to_nat (t + e)) (list_ascii_of_string s) /\
    length (Text cls s' s') = length (Text cls d s) - e.
Proof. exact (deleteAt_text cls d s next t e). Qed.

End Facts.

Lemma text_insertAt_witness :
  exists s' : string,
    Ops.insertAt Demo.host Demo.registry
      (Text Classes.TextBlot "abcd" "abcd") false (-1) "X" None
    = Ok [Text Classes.TextBlot s' s'] /\
    (let c := Z.to_nat (slice_index (Z.of_nat (String.length "abcd")) (-1)) in
     list_ascii_of_string s'
     = take c (list_ascii_of_string "abcd") ++ list_ascii_of_string "X"
       ++ drop c (list_ascii_of_string "abcd")) /\
    length (Text Classes.TextBlot s' s')
    = length (Text Classes.TextBlot "abcd" "abcd")
      + Z.of_nat (String.length "X").
Proof.
  exact (text_insertAt Demo.host Demo.registry Classes.TextBlot "abcd" "abcd" false
           (-1) "X" None (or_introl eq_refl)).
Defined.

Lemma text_deleteAt_witness :
  exists s' : string,
    Ops.deleteAt Demo.host Demo.registry
      (Text Classes.TextBlot "abcd" "abcd") None 1 2
    = Ok (mkDelOut [Text Classes.TextBlot s' s'] None) /\
    list_ascii_of_string s'
    = take (Z.to_nat 1) (list_ascii_of_string "abcd")
      ++ drop (Z.to_nat (1 + 2)) (list_ascii_of_string "abcd") /\
    length (Text Classes.TextBlot s' s')
    = length (Text Classes.TextBlot "abcd" "abcd") - 2.
Proof.
  refine (text_deleteAt Demo.host Demo.registry Classes.TextBlot "abcd" "abcd" None
            1 2 _ _ _); vm_compute; discriminate.
Defined.

End TextFacts.

(** ** Content operations on a tree *)

Module TreeFacts.
Import BlotFacts.

(** Trees whose parents are plain parents, inlines and blocks: no container
    (which re-checks its children after each operation) and no nested
    root. *)
Fixpoint plain (b : Blot) : bool :=
  match b with
  | Parent cls _ cs =>
      match kind cls with
      | IsBlot (KParent | KInline | KBlock) => forallb plain cs
      | _ => false
      end
  | _ => true
  end.

Lemma plain_children (cls : Descriptor) (el : Element) (cs : list Blot) :
  plain (Parent cls el cs) = true -> Forall (fun c => plain c = true) cs.
Proof.
  simpl. intros H. apply Forall_forall. intros c Hc.
  destruct (kind cls) as [[]|]; try discriminate;
    (rewrite forallb_forall in H; apply H; apply list_elem_of_In; exact Hc).
Qed.

Lemma flats_app (a b : list Blot) : flats (a ++ b) = flats a ++ flats b.
Proof.
  induction a as [|c a IH]; simpl; [reflexivity|].
  rewrite IH, app_assoc. reflexivity.
Qed.

Lemma flat_parent (cls : Descriptor) (el : Element) (cs : list Blot) :
  flat (Parent cls el cs) = flats cs.
Proof. reflexivity. Qed.

Lemma flats_one (b : Blot) : flats [b] = flat b.
Proof. simpl. apply app_nil_r. Qed.

Lemma take_drop_app {X : Type} (a b : list X) (p q : nat) :
  (p <= q)%nat ->
  take p (a ++ b) ++ drop q (a ++ b)
  = (take p a ++ drop q a)
    ++ (take (p - List.length a) b ++ drop (q - List.length a) b).
Proof.
  intros Hpq. rewrite take_app, drop_app.
  destruct (decide (p <= List.length a)%nat) as [Hp|Hp].
  - replace (p - List.length a)%nat with 0%nat by lia. simpl.
    rewrite app_nil_r, <- !app_assoc. reflexivity.
  - rewrite (drop_ge a q) by lia. rewrite !app_nil_r, <- !app_assoc.
    reflexivity.
Qed.

Lemma drop_min {X : Type} (l : list X) (q : nat) :
  drop (Nat.min q (List.length l)) l = drop q l.
Proof.
  destruct (decide (q <= List.length l)%nat).
  - rewrite Nat.min_l by lia. reflexivity.
  - rewrite Nat.min_r by lia. rewrite !drop_ge by lia. reflexivity.
Qed.

(** The loops of [ParentBlot.insertAt] and [ParentBlot.deleteAt], named. *)
Section Loops.
Variable child_insertAt : Blot -> bool -> Z -> result (list Blot).
Variable r : Z.

Fixpoint ins_inner (cs : list Blot) (i : nat) : result (list Blot) :=
  match cs with
  | [] => Ok []
  | c :: rest =>
      match i with
      | O =>
          repl ← child_insertAt c
                   (match rest with [] => false | _ => true end) r;
          Ok (repl ++ rest)%list
      | S i' => tl ← ins_inner rest i'; Ok (c :: tl)
      end
  end.

Lemma ins_inner_at (Q : list Blot -> Prop) (cs : list Blot) (i : nat)
    (a : Blot) :
  cs !! i = Some a ->
  (forall hn : bool, exists repl, child_insertAt a hn r = Ok repl /\ Q repl) ->
  exists repl,
    ins_inner cs i = Ok (take i cs ++ repl ++ drop (S i) cs) /\ Q repl.
Proof.
  intros Hi Hf. revert i Hi. induction cs as [|c cs IH]; intros i Hi.
  - rewrite lookup_nil in Hi. discriminate.
  - destruct i as [|i]; simpl in Hi.
    + injection Hi as ->.
      destruct (Hf (match cs with [] => false | _ => true end))
        as (repl & Hr & HQ).
      exists repl. simpl. rewrite Hr. simpl. rewrite drop_0.
      split; [reflexivity|exact HQ].
    + destruct (IH i Hi) as (repl & Hr & HQ). exists repl. simpl.
      rewrite Hr. simpl. split; [reflexivity|exact HQ].
Qed.

Variable child_deleteAt : Blot -> option Blot -> Z -> Z -> result DelOut.

Fixpoint del_walk (cs : list Blot) (plan : list (option (Z * Z)))
  : result (list Blot) :=
  match cs with
  | [] => Ok []
  | c :: rest =>
      match plan with
      | Some (i, l) :: plan' =>
          out ← child_deleteAt c (head rest) i l;
          match touched out with
          | None => tl ← del_walk rest plan'; Ok (here out ++ tl)%list
          | Some nrepl =>
              match rest with
              | [] => Ok (here out)
              | _ :: rest2 =>
                  tl ← del_walk rest2 (tail plan');
                  Ok (here out ++ nrepl ++ tl)%list
              end
          end
      | _ => tl ← del_walk rest (tail plan); Ok (c :: tl)
      end
  end.

End Loops.

Lemma ParentBlot_insertAt_eq
    (host : Host) (reg : Registry.t)
    (f : Blot -> bool -> Z -> result (list Blot))
    (cls : Descriptor) (el : Element) (cs : list Blot) (t : Z) (e : string)
    (s : option json) :
  Ops.ParentBlot_insertAt host reg f cls el cs t e s
  = match LinkedList.find length cs t false with
    | Some (i, r) => cs' ← ins_inner f r cs i; Ok (Parent cls el cs')
    | None => i ← Ops.new_content host reg e s; Ok (Parent cls el (cs ++ [i]))
    end.
Proof. reflexivity. Qed.

Lemma delete_range_eq
    (f : Blot -> option Blot -> Z -> Z -> result DelOut)
    (cls : Descriptor) (el : Element) (cs : list Blot) (t e : Z) :
  Ops.delete_range f cls el cs t e
  = (cs' ← del_walk f cs (LinkedList.forEachAt length cs t e);
     Ok (Parent cls el cs')).
Proof. reflexivity. Qed.

Section Content.
Variable host : Host.
Variable reg : Registry.t.

(** The atoms of a string. *)
Definition chars (e : string) : list Atom := map AChar (list_ascii_of_string e).

Lemma new_text (tc : Descriptor) (e : string) (v : option json) :
  Registry.query reg (Registry.SelString "text") Scope.ANY = Some tc ->
  kind tc = IsBlot KText ->
  v = None \/ v = Some JNull ->
  Ops.new_content host reg e v = Ok (Text tc e (String_normalize host e)).
Proof.
  intros Hq Hk Hv.
  assert (H : Create.create host reg (Registry.SelString "text")
                (Some (JStr e))
              = Ok (Text tc e (String_normalize host e))).
  { unfold Create.create. rewrite Hq. unfold Create.static_create.
    rewrite Hk. simpl. unfold Create.construct. rewrite Hk. reflexivity. }
  destruct Hv as [-> | ->]; exact H.
Qed.

Lemma insertAt_plain_parent (cls : Descriptor) (el : Element)
    (cs : list Blot) (hn : bool) (t : Z) (e : string) (v : option json) :
  plain (Parent cls el cs) = true -> v = None \/ v = Some JNull ->
  Ops.insertAt host reg (Parent cls el cs) hn t e v
  = (b' ← Ops.ParentBlot_insertAt host reg
            (fun c hn r => Ops.insertAt host reg c hn r e v) cls el cs t e v;
     Ok [b']).
Proof.
  intros Hp Hv. simpl in Hp. cbn [Ops.insertAt].
  destruct (kind cls) as [[]|]; try discriminate; try reflexivity.
  destruct Hv as [-> | ->]; reflexivity.
Qed.

Definition insert_ok (e : string) (v : option json) (b : Blot) : Prop :=
  plain b = true ->
  forall (hn : bool) (t : Z), 0 <= t ->
  exists bs : list Blot,
    Ops.insertAt host reg b hn t e v = Ok bs /\
    flats bs = take (Z.to_nat t) (flat b) ++ chars e
               ++ drop (Z.to_nat t) (flat b).

Lemma insert_spec (tc : Descriptor) (e : string) (v : option json) :
  Registry.query reg (Registry.SelString "text") Scope.ANY = Some tc ->
  kind tc = IsBlot KText ->
  v = None \/ v = Some JNull ->
  String_normalize host e = e ->
  forall b : Blot, insert_ok e v b.
Proof.
  intros Hq Hk Hv Hnorm.
  induction b as [cls dom|cls d s|cls el cs IH] using Blot_ind2;
    intros Hp hn t Ht.
  - (* a leaf: the new text goes before or after it *)
    cbn [Ops.insertAt]. rewrite (new_text tc e v Hq Hk Hv), Hnorm. simpl.
    destruct (t =? 0) eqn:E.
    + apply Z.eqb_eq in E as ->. exists [Text tc e e; Leaf cls dom].
      split; [reflexivity|]. simpl. rewrite ?app_nil_r. reflexivity.
    + apply Z.eqb_neq in E. exists [Leaf cls dom; Text tc e e].
      split; [reflexivity|].
      replace (Z.to_nat t) with (S (Z.to_nat (t - 1))) by lia.
      simpl. rewrite ?take_nil, ?drop_nil, ?app_nil_r. reflexivity.
  - (* a text *)
    destruct (TextFacts.insertAt_text host reg cls d s hn t e v Hv)
      as (s' & Hi & Hc & _).
    exists [Text cls s' s']. split; [exact Hi|].
    cbv zeta in Hc. rewrite flats_one. simpl. rewrite Hc.
    unfold TextFacts.slice_index. replace (t <? 0) with false by lia.
    unfold chars. rewrite !map_app, <- !firstn_map, <- !skipn_map.
    pose proof (TextFacts.chars_length s) as Hlen.
    destruct (Z_le_gt_dec t (Z.of_nat (String.length s))) as [Hle|Hgt].
    + rewrite Z.min_l by lia. reflexivity.
    + rewrite Z.min_r by lia. rewrite Nat2Z.id.
      rewrite !firstn_all2, !skipn_all2
        by (rewrite ?length_map, ?Hlen; lia).
      reflexivity.
  - (* a parent *)
    rewrite (insertAt_plain_parent cls el cs hn t e v Hp Hv).
    rewrite ParentBlot_insertAt_eq.
    pose proof (plain_children cls el cs Hp) as Hpc.
    pose proof (children_nonneg cs) as Hnn.
    rewrite flat_parent.
    destruct (Z_lt_le_dec t (LinkedList.total length cs)) as [Hlt|Hge].
    + destruct (LinkedListMore.find_from_locates length cs 0 t Hnn
                  ltac:(lia)) as (j & a & Hf & Ha & Hr).
      unfold LinkedList.find. rewrite Hf. simpl (0 + j)%nat.
      set (r := t - LinkedList.total length (take j cs)) in *.
      destruct (ins_inner_at
                  (fun c hn r => Ops.insertAt host reg c hn r e v) r
                  (fun repl => flats repl
                     = take (Z.to_nat r) (flat a) ++ chars e
                       ++ drop (Z.to_nat r) (flat a))
                  cs j a Ha) as (repl & Hins & Hrepl).
      { intros hn'. rewrite Forall_forall in IH, Hpc.
        apply (IH a (list_elem_of_lookup_2 _ _ _ Ha)
                 (Hpc a (list_elem_of_lookup_2 _ _ _ Ha)) hn' r).
        lia. }
      rewrite Hins. simpl.
      eexists. split; [reflexivity|].
      rewrite flats_one, flat_parent, !flats_app, Hrepl.
      assert (Hcs : flats cs = flats (take j cs) ++ flat a
                                ++ flats (drop (S j) cs)).
      { rewrite <- (take_drop_middle cs j a Ha) at 1.
        rewrite flats_app. reflexivity. }
      rewrite Hcs.
      pose proof (flats_length (take j cs)) as Hl1.
      pose proof (flat_length a) as Hl2.
      assert (Ht1 : Z.to_nat t
                    = (List.length (flats (take j cs)) + Z.to_nat r)%nat)
        by (subst r; lia).
      rewrite Ht1, take_app_add, drop_app_add.
      rewrite take_app_le, drop_app_le by lia.
      rewrite <- !app_assoc. reflexivity.
    + assert (Hn : LinkedList.find length cs t false = None)
        by (apply LinkedListFacts.find_from_none; assumption).
      rewrite Hn, (new_text tc e v Hq Hk Hv), Hnorm. simpl.
      eexists. split; [reflexivity|].
      rewrite flats_one, flat_parent, flats_app, flats_one. simpl.
      pose proof (flats_length cs) as Hl.
      rewrite take_ge, drop_ge by lia. rewrite app_nil_r. reflexivity.
Qed.

Lemma deleteAt_plain_parent (cls : Descriptor) (el : Element)
    (cs : list Blot) (next : option Blot) (t e : Z) :
  plain (Parent cls el cs) = true ->
  Ops.deleteAt host reg (Parent cls el cs) next t e
  = (repl ← Ops.ParentBlot_deleteAt (Ops.deleteAt host reg)
              (Parent cls el cs) t e;
     Ok (mkDelOut repl None)).
Proof.
  intros Hp. simpl in Hp. cbn [Ops.deleteAt].
  destruct (kind cls) as [[]|]; try discriminate; reflexivity.
Qed.

Definition delete_ok (b : Blot) : Prop :=
  plain b = true ->
  forall (next : option Blot) (t e : Z),
    0 <= t -> 0 <= e -> t + e <= length b -> 0 < e \/ length b = 0 ->
    exists bs : list Blot,
      Ops.deleteAt host reg b next t e = Ok (mkDelOut bs None) /\
      flats bs = take (Z.to_nat t) (flat b)
                 ++ drop (Z.to_nat (t + e)) (flat b).

Lemma del_walk_visits (t e : Z) (cs : list Blot) :
  0 <= t -> 0 < e ->
  Forall delete_ok cs -> Forall (fun c => plain c = true) cs ->
  forall n : Z, 0 <= n ->
  exists cs' : list Blot,
    del_walk (Ops.deleteAt host reg) cs (LinkedList.visits length cs t e n)
    = Ok cs' /\
    flats cs' = take (Z.to_nat (t - n)) (flats cs)
                ++ drop (Z.to_nat (t + e - n)) (flats cs).
Proof.
  intros Ht He Hall. induction Hall as [|c cs Hc Hcs IH]; intros Hpl n Hn.
  - exists []. split; [reflexivity|]. simpl. rewrite take_nil, drop_nil.
    reflexivity.
  - apply Forall_cons in Hpl as [Hpc Hpcs].
    pose proof (length_nonneg c) as Hlc.
    pose proof (flat_length c) as Hfl.
    destruct (IH Hpcs (n + length c) ltac:(lia)) as (cs' & Hw & Hflat).
    cbn [LinkedList.visits del_walk].
    assert (Hsplit :
      forall bs : list Blot,
        flats bs = take (Z.to_nat (t - n)) (flat c)
                   ++ drop (Z.to_nat (t + e - n)) (flat c) ->
        flats (bs ++ cs')
        = take (Z.to_nat (t - n)) (flats (c :: cs))
          ++ drop (Z.to_nat (t + e - n)) (flats (c :: cs))).
    { intros bs Hbs. rewrite flats_app, Hbs, Hflat.
      change (flats (c :: cs)) with (flat c ++ flats cs).
      rewrite take_drop_app by lia.
      replace (Z.to_nat (t - n) - List.length (flat c))%nat
        with (Z.to_nat (t - (n + length c))) by lia.
      replace (Z.to_nat (t + e - n) - List.length (flat c))%nat
        with (Z.to_nat (t + e - (n + length c))) by lia.
      reflexivity. }
    destruct ((n + length c <=? t) || (t + e <=? n)) eqn:Etest.
    + (* not visited *)
      cbn [tail]. rewrite Hw. simpl. exists (c :: cs').
      split; [reflexivity|].
      change (c :: cs') with ([c] ++ cs'). apply Hsplit.
      rewrite flats_one.
      apply orb_true_iff in Etest as [E|E].
      * rewrite take_ge, drop_ge by lia. rewrite app_nil_r. reflexivity.
      * replace (Z.to_nat (t - n)) with 0%nat by lia.
        replace (Z.to_nat (t + e - n)) with 0%nat by lia. reflexivity.
    + apply orb_false_iff in Etest as [E1 E2].
      set (i := if n <? t then t - n else 0).
      set (l := if n <? t then Z.min e (n + length c - t)
                else Z.min (length c) (t + e - n)).
      assert (Hplan : (if n <? t
                       then (t - n, Z.min e (n + length c - t))
                       else (0, Z.min (length c) (t + e - n)))
                      = (i, l)).
      { subst i l. destruct (n <? t); reflexivity. }
      rewrite Hplan. clear Hplan.
      assert (Hi : 0 <= i /\ 0 <= l /\ i + l <= length c /\
                   (0 < l \/ length c = 0) /\
                   Z.to_nat i = Z.to_nat (t - n) /\
                   Z.to_nat (i + l)
                   = Nat.min (Z.to_nat (t + e - n)) (List.length (flat c))).
      { subst i l. destruct (n <? t) eqn:E; lia. }
      destruct Hi as (Hi0 & Hl0 & Hil & Hpos & Hip & Hiq).
      destruct (Hc Hpc (head cs) i l Hi0 Hl0 Hil Hpos) as (bs & Hd & Hbs).
      rewrite Hd. simpl. rewrite Hw. simpl. exists (bs ++ cs').
      split; [reflexivity|]. apply Hsplit.
      rewrite Hbs, Hip, Hiq, drop_min. reflexivity.
Qed.

Lemma delete_spec (b : Blot) : delete_ok b.
Proof.
  induction b as [cls dom|cls d s|cls el cs IH] using Blot_ind2;
    intros Hp next t e Ht He Hte Hpos.
  - (* a leaf: the range is the leaf *)
    simpl in Hte, Hpos. assert (t = 0) as -> by lia. assert (e = 1) as -> by lia.
    exists []. split; reflexivity.
  - (* a text *)
    simpl in Hte.
    destruct (TextFacts.deleteAt_text host reg cls d s next t e Ht He Hte)
      as (s' & Hd & Hc & _).
    exists [Text cls s' s']. split; [exact Hd|].
    rewrite flats_one. simpl. rewrite Hc, map_app, <- firstn_map, <- skipn_map.
    reflexivity.
  - (* a parent *)
    rewrite (deleteAt_plain_parent cls el cs next t e Hp).
    pose proof (flat_length (Parent cls el cs)) as Hfl.
    unfold Ops.ParentBlot_deleteAt.
    destruct ((t =? 0) && (e =? length (Parent cls el cs))) eqn:Eall.
    + apply andb_true_iff in Eall as [E1 E2].
      apply Z.eqb_eq in E1, E2. subst t. exists []. split; [reflexivity|].
      rewrite drop_ge by lia. reflexivity.
    + assert (He' : 0 < e).
      { destruct Hpos as [H|H]; [exact H|].
        apply andb_false_iff in Eall as [E|E]; apply Z.eqb_neq in E; lia. }
      rewrite delete_range_eq.
      rewrite (LinkedListFacts.forEachAt_visits length cs t e
                 (children_nonneg cs) Ht He').
      destruct (del_walk_visits t e cs Ht He' IH
                  (plain_children cls el cs Hp) 0 ltac:(lia))
        as (cs' & Hw & Hflat).
      rewrite Hw. simpl. exists [Parent cls el cs'].
      split; [reflexivity|].
      rewrite flats_one, !flat_parent, Hflat, !Z.sub_0_r. reflexivity.
Qed.

End Content.

Lemma atoms_count (e : string) :
  List.length (chars e) = String.length e.
Proof. unfold chars. rewrite length_map. apply TextFacts.chars_length. Qed.

(** X19.  Inserting a text that [normalize] leaves as it is into a tree of
    plain parents, inlines and blocks (with the text class registered under
    its name) never fails, puts the characters of [e] at offset [t] of the
    content and leaves every other character and embed as it was, in
    order; an offset at or beyond the length appends.  The length grows by
    the length of [e]. *)
Theorem insertAt_content (host : Host) (reg : Registry.t) (tc : Descriptor)
    (b : Blot) (has_next : bool) (t : Z) (e : string) (v : option json) :
  Registry.query reg (Registry.SelString "text") Scope.ANY = Some tc ->
  kind tc = IsBlot KText ->
  v = None \/ v = Some JNull ->
  String_normalize host e = e ->
  plain b = true -> 0 <= t ->
  exists bs : list Blot,
    Ops.insertAt host reg b has_next t e v = Ok bs /\
    flats bs = take (Z.to_nat t) (flat b) ++ chars e
               ++ drop (Z.to_nat t) (flat b) /\
    LinkedList.total length bs = length b + Z.of_nat (String.length e).
Proof.
  intros Hq Hk Hv Hn Hp Ht.
  destruct (insert_spec host reg tc e v Hq Hk Hv Hn b Hp has_next t Ht)
    as (bs & Hi & Hf).
  exists bs. split; [exact Hi|]. split; [exact Hf|].
  rewrite <- flats_length, Hf, !length_app, atoms_count.
  pose proof (take_drop (Z.to_nat t) (flat b)) as Htd.
  apply (f_equal (@List.length Atom)) in Htd. rewrite length_app in Htd.
  pose proof (flat_length b). lia.
Qed.

Lemma insertAt_content_witness :
  exists bs : list Blot,
    Ops.insertAt Demo.host Demo.registry Demo.paragraph false 3 "xy" None
    = Ok bs /\
    flats bs = take (Z.to_nat 3) (flat Demo.paragraph) ++ chars "xy"
               ++ drop (Z.to_nat 3) (flat Demo.paragraph) /\
    LinkedList.total length bs
    = length Demo.paragraph + Z.of_nat (String.length "xy").
Proof.
  refine (insertAt_content Demo.host Demo.registry Classes.TextBlot
            Demo.paragraph false 3 "xy" None _ eq_refl (or_introl eq_refl)
            eq_refl eq_refl _).
  - vm_compute. reflexivity.
  - vm_compute. discriminate.
Defined.

(** X20.  Deleting a non-empty range that lies inside a tree of plain
    parents, inlines and blocks never fails and removes exactly the content
    from offset [t] to [t + e]: what stands before and after the range is
    kept, in order, and the length drops by [e]. *)
Theorem deleteAt_content (host : Host) (reg : Registry.t) (b : Blot)
    (next : option Blot) (t e : Z) :
  plain b = true -> 0 <= t -> 0 < e -> t + e <= length b ->
  exists bs : list Blot,
    Ops.deleteAt host reg b next t e = Ok (mkDelOut bs None) /\
    flats bs = take (Z.to_nat t) (flat b)
               ++ drop (Z.to_nat (t + e)) (flat b) /\
    LinkedList.total length bs = length b - e.
Proof.
  intros Hp Ht He Hte.
  destruct (delete_spec host reg b Hp next t e Ht ltac:(lia) Hte
              ltac:(left; exact He)) as (bs & Hd & Hf).
  exists bs. split; [exact Hd|]. split; [exact Hf|].
  rewrite <- flats_length, Hf, length_app, length_take, length_drop.
  pose proof (flat_length b). lia.
Qed.

Lemma deleteAt_content_witness :
  exists bs : list Blot,
    Ops.deleteAt Demo.host Demo.registry Demo.paragraph None 1 2
    = Ok (mkDelOut bs None) /\
    flats bs = take (Z.to_nat 1) (flat Demo.paragraph)
               ++ drop (Z.to_nat (1 + 2)) (flat Demo.paragraph) /\
    LinkedList.total length bs = length Demo.paragraph - 2.
Proof.
  refine (deleteAt_content Demo.host Demo.registry Demo.paragraph None 1 2
            eq_refl _ _ _); vm_compute; (reflexivity || discriminate).
Defined.

(** X21.  A split that makes a new blot divides the length, where the
    texts hold the data of their nodes and [normalize] leaves their pieces
    as they are: the blot keeps [k] and the new right-hand blot has the
    rest. *)
Theorem split_divides_length (host : Host) (reg : Registry.t) (b l r : Blot)
    (k : Z) (force : bool) :
  registered reg b -> stable host b ->
  0 <= k <= length b -> length b < 2 ^ 32 ->
  Ops.split host reg true b k force = Ok (SplitNew l r) ->
  length l = k /\ length r = length b - k.
Proof.
  intros Hreg Hst Hk Hlen Hs.
  pose proof (split_spec host reg b k force Hreg Hst Hk Hlen) as H.
  rewrite Hs in H. destruct H as (Hl & Hr & _).
  pose proof (flat_length b). pose proof (flat_length l) as Hfl.
  pose proof (flat_length r) as Hfr.
  rewrite Hl, length_take in Hfl. rewrite Hr, length_drop in Hfr. lia.
Qed.

Lemma split_divides_length_witness :
  length (Parent Classes.BlockBlot Demo.P [Text Classes.TextBlot "a" "a"])
  = 1 /\
  length (Parent Classes.BlockBlot Demo.P
            [Text Classes.TextBlot "b" "b"; Text Classes.TextBlot "cd" "cd"])
  = length Demo.paragraph - 1.
Proof.
  refine (split_divides_length Demo.host Demo.registry Demo.paragraph _ _ 1
            false registered_paragraph stable_paragraph _ small_paragraph
            _).
  - vm_compute. split; discriminate.
  - vm_compute. reflexivity.
Defined.

End TreeFacts.

(** ** Allowed children and [build] *)

Module ParentFacts.

Section Facts.
Variable host : Host.
Variable reg : Registry.t.

Definition allowed_in (l : list string) (c : Blot) : bool :=
  existsb (Classes.instanceof (statics c)) l.

Lemma enforce_from_allowed (cls : Descriptor) (el : Element) (hp : bool)
    (l : list string) (cs before : list Blot) :
  allowedChildren cls = Some l ->
  forallb (allowed_in l) cs = true ->
  Ops.enforce_from host reg cls el hp before cs
  = Ok (mkEnforced (Some (Parent cls el (before ++ cs))) []).
Proof.
  intros Hl. revert before. induction cs as [|c cs IH]; intros before Hall.
  - simpl. rewrite app_nil_r. reflexivity.
  - simpl in Hall. apply andb_true_iff in Hall as [Hc Hcs].
    cbn [Ops.enforce_from]. unfold Ops.allowed. rewrite Hl. simpl.
    unfold allowed_in in Hc. rewrite Hc.
    rewrite (IH (before ++ [c]) Hcs), <- app_assoc. reflexivity.
Qed.

(** X22.  [enforceAllowedChildren] leaves a parent untouched when every
    child is an instance of a class its [allowedChildren] lists; on a class
    without [allowedChildren] it throws a TypeError as soon as there is a
    child to test. *)
Theorem enforceAllowedChildren_allowed (cls : Descriptor) (el : Element)
    (cs : list Blot) (has_parent : bool) :
  (forall l : list string,
     allowedChildren cls = Some l -> forallb (allowed_in l) cs = true ->
     Ops.enforceAllowedChildren host reg (Parent cls el cs) has_parent
     = Ok (mkEnforced (Some (Parent cls el cs)) [])) /\
  (allowedChildren cls = None -> cs <> [] ->
   Ops.enforceAllowedChildren host reg (Parent cls el cs) has_parent
   = Err (JsError "TypeError: allowedChildren is undefined")).
Proof.
  split.
  - intros l Hl Hall. unfold Ops.enforceAllowedChildren.
    rewrite (enforce_from_allowed cls el has_parent l cs [] Hl Hall).
    reflexivity.
  - intros Hn Hcs. destruct cs as [|c cs]; [contradiction|].
    unfold Ops.enforceAllowedChildren. cbn [Ops.enforce_from].
    unfold Ops.allowed. rewrite Hn. reflexivity.
Qed.

(** X23.  [ParentBlot.build] never lets a ParchmentError out: a child node
    for which no blot can be made is left without a blot.  When [build]
    returns, every child node still has a node in its place, and there are
    at most as many blots as nodes. *)
Theorem build_swallows_ParchmentError (kids : list Node) :
  match Create.build host reg kids with
  | Ok (bs, hs) =>
      List.length hs = List.length kids /\
      (List.length bs <= List.length kids)%nat
  | Err (ParchmentError _) => False
  | Err _ => True
  end.
Proof.
  induction kids as [|k kids IH]; [simpl; split; reflexivity|].
  cbn [Create.build].
  destruct (Create.build host reg kids) as [[bs hs]|err]; simpl.
  - destruct IH as [Hh Hb].
    destruct (Create.makeAttachedBlot host reg k) as [[b h]|[m|m]]; simpl;
      try (split; lia); exact I.
  - destruct err; [contradiction|exact I].
Qed.

End Facts.

Lemma enforceAllowedChildren_allowed_witness :
  Ops.enforceAllowedChildren Demo.host Demo.registry Demo.paragraph true
  = Ok (mkEnforced (Some Demo.paragraph) []).
Proof.
  exact (proj1 (enforceAllowedChildren_allowed Demo.host Demo.registry
                  Classes.BlockBlot Demo.P
                  [Text Classes.TextBlot "ab" "ab"; Text Classes.TextBlot "cd" "cd"]
                  true)
               ["InlineBlot"; "BlockBlot"; "LeafBlot"] eq_refl eq_refl).
Defined.

End ParentFacts.

(** ** [path] and [descendant] *)

Module LocateFacts.
Import BlotFacts Locate.

Lemma nth_found {R : Type} (child : Blot -> Z -> R) (none : R) (r : Z)
    (cs : list Blot) (j : nat) (a : Blot) :
  cs !! j = Some a ->
  (fix nth (cs : list Blot) (i : nat) : R :=
     match cs with
     | [] => none
     | c :: rest =>
         match i with
         | O => child c r
         | S i' => nth rest i'
         end
     end) cs j = child a r.
Proof.
  revert j. induction cs as [|c cs IH]; intros j Hj.
  - rewrite lookup_nil in Hj. discriminate.
  - destruct j as [|j]; simpl in Hj.
    + injection Hj as ->. reflexivity.
    + apply IH. exact Hj.
Qed.

Lemma with_found_spec (cs : list Blot) (t : Z) :
  0 <= t < LinkedList.total length cs ->
  exists (j : nat) (a : Blot),
    cs !! j = Some a /\
    0 <= t - LinkedList.total length (take j cs) < length a /\
    forall (R : Type) (child : Blot -> Z -> R) (none : R),
      with_found child none cs t false
      = child a (t - LinkedList.total length (take j cs)).
Proof.
  intros Ht.
  destruct (LinkedListMore.find_from_locates length cs 0 t
              (children_nonneg cs) Ht) as (j & a & Hf & Ha & Hr).
  exists j, a. split; [exact Ha|]. split; [exact Hr|].
  intros R child none. unfold with_found, LinkedList.find. rewrite Hf.
  simpl (0 + j)%nat. apply nth_found. exact Ha.
Qed.

Lemma flats_lookup (cs : list Blot) (j : nat) (a : Blot) (t : Z) :
  cs !! j = Some a ->
  0 <= t - LinkedList.total length (take j cs) < length a ->
  flats cs !! Z.to_nat t
  = flat a !! Z.to_nat (t - LinkedList.total length (take j cs)).
Proof.
  intros Ha Hr.
  rewrite <- (take_drop_middle cs j a Ha) at 1.
  rewrite TreeFacts.flats_app.
  change (flats (a :: drop (S j) cs)) with (flat a ++ flats (drop (S j) cs)).
  pose proof (flats_length (take j cs)) as Hl.
  pose proof (flat_length a) as Hla.
  rewrite lookup_app_r by lia.
  rewrite lookup_app_l by lia.
  f_equal. lia.
Qed.

(** What holds of an entry [(x, o)] of the path to offset [t] of [b]. *)
Definition holds_position (b : Blot) (t : Z) (entry : Blot * Z) : Prop :=
  0 <= entry.2 < length entry.1 /\
  flat entry.1 !! Z.to_nat entry.2 = flat b !! Z.to_nat t.

Definition path_ok (b : Blot) : Prop :=
  forall t : Z, is_parent b = true -> 0 <= t < length b ->
  exists (tl : list (Blot * Z)) (leaf : Blot) (r : Z),
    path b t false = Ok ((b, t) :: tl) /\
    Forall (holds_position b t) ((b, t) :: tl) /\
    last ((b, t) :: tl) = Some (leaf, r) /\ is_parent leaf = false.

Lemma path_spec (b : Blot) : path_ok b.
Proof.
  induction b as [cls dom|cls d s|cls el cs IH] using Blot_ind2;
    intros t Hp Ht; try discriminate.
  rewrite length_parent in Ht.
  destruct (with_found_spec cs t Ht) as (j & a & Ha & Hr & Hw).
  set (r := t - LinkedList.total length (take j cs)) in *.
  cbn [path]. rewrite Hw.
  assert (Hself : holds_position (Parent cls el cs) t (Parent cls el cs, t)).
  { split; [|reflexivity]. simpl fst. simpl snd. rewrite length_parent. lia. }
  assert (Hat : flat a !! Z.to_nat r
                = flat (Parent cls el cs) !! Z.to_nat t).
  { symmetry. apply (flats_lookup cs j a t Ha Hr). }
  destruct a as [ac ad|ac adata atext|ac ael acs].
  - exists [(Leaf ac ad, r)], (Leaf ac ad), r. simpl.
    split; [reflexivity|]. split; [|split; reflexivity].
    constructor; [exact Hself|]. constructor; [|constructor].
    split; [exact Hr|exact Hat].
  - exists [(Text ac adata atext, r)], (Text ac adata atext), r. simpl.
    split; [reflexivity|]. split; [|split; reflexivity].
    constructor; [exact Hself|]. constructor; [|constructor].
    split; [exact Hr|exact Hat].
  - rewrite Forall_forall in IH.
    destruct (IH _ (list_elem_of_lookup_2 _ _ _ Ha) r eq_refl Hr)
      as (tl & leaf & r' & Hpath & Hall & Hlast & Hleaf).
    rewrite Hpath. simpl.
    exists ((Parent ac ael acs, r) :: tl), leaf, r'.
    split; [reflexivity|]. split; [|split; [exact Hlast|exact Hleaf]].
    constructor; [exact Hself|].
    eapply Forall_impl; [exact Hall|].
    intros [x o] [Hx1 Hx2]. split; [exact Hx1|].
    rewrite Hx2. exact Hat.
Qed.

(** X24.  For a parent [b] and an offset inside it, [path] returns a chain
    that starts with [b] itself and ends at a blot that is not a parent;
    every entry [(x, o)] of the chain holds the position: [o] is inside [x]
    and the content unit at [o] in [x] is the one at [t] in [b]. *)
Theorem path_locates (b : Blot) (t : Z) :
  is_parent b = true -> 0 <= t < length b ->
  exists (tl : list (Blot * Z)) (leaf : Blot) (r : Z),
    path b t false = Ok ((b, t) :: tl) /\
    Forall (holds_position b t) ((b, t) :: tl) /\
    last ((b, t) :: tl) = Some (leaf, r) /\ is_parent leaf = false.
Proof. intros Hp Ht. exact (path_spec b t Hp Ht). Qed.

Lemma path_locates_witness :
  exists (tl : list (Blot * Z)) (leaf : Blot) (r : Z),
    path BlotFacts.root 3 false = Ok ((BlotFacts.root, 3) :: tl) /\
    Forall (holds_position BlotFacts.root 3) ((BlotFacts.root, 3) :: tl) /\
    last ((BlotFacts.root, 3) :: tl) = Some (leaf, r) /\
    is_parent leaf = false.
Proof.
  refine (path_locates BlotFacts.root 3 eq_refl _).
  vm_compute. split; [discriminate|reflexivity].
Defined.

(** The first entry whose blot meets the criteria, as [descendant] returns
    it. *)
Definition first_meeting (crit : Criteria) (l : list (Blot * Z))
  : option Blot * Z :=
  match List.find (fun entry : Blot * Z => meets crit (Some entry.1)) l with
  | Some (x, o) => (Some x, o)
  | None => (None, -1)
  end.

Lemma path_head (b : Blot) (t : Z) (e : bool) (l : list (Blot * Z)) :
  path b t e = Ok l -> exists tl, l = (b, t) :: tl.
Proof.
  destruct b as [| |cls el cs]; try discriminate. cbn [path].
  destruct (with_found _ _ cs t e) as [tl|err]; [|discriminate].
  simpl. intros H. injection H as <-. exists tl. reflexivity.
Qed.

Definition descendant_ok (crit : Criteria) (b : Blot) : Prop :=
  forall (t : Z) (l : list (Blot * Z)),
    0 <= t < length b -> path b t false = Ok l ->
    descendant crit b t = Ok (first_meeting crit (tail l)).

Lemma descendant_spec (crit : Criteria) (b : Blot) : descendant_ok crit b.
Proof.
  induction b as [cls dom|cls d s|cls el cs IH] using Blot_ind2;
    intros t l Ht Hpath; try discriminate.
  rewrite length_parent in Ht.
  destruct (with_found_spec cs t Ht) as (j & a & Ha & Hr & Hw).
  set (r := t - LinkedList.total length (take j cs)) in *.
  cbn [path] in Hpath. rewrite Hw in Hpath.
  cbn [descendant]. rewrite Hw.
  rewrite Forall_forall in IH.
  pose proof (IH _ (list_elem_of_lookup_2 _ _ _ Ha)) as IHa.
  destruct a as [ac ad|ac adata atext|ac ael acs].
  - simpl in Hpath. injection Hpath as <-. simpl.
    unfold first_meeting. simpl.
    destruct (meets crit (Some (Leaf ac ad))); reflexivity.
  - simpl in Hpath. injection Hpath as <-. simpl.
    unfold first_meeting. simpl.
    destruct (meets crit (Some (Text ac adata atext))); reflexivity.
  - destruct (path (Parent ac ael acs) r false) as [tl|err] eqn:Hp;
      [|discriminate].
    simpl in Hpath. injection Hpath as <-. simpl tail.
    destruct (path_head _ _ _ _ Hp) as (tl' & ->).
    unfold first_meeting at 1. simpl List.find.
    destruct (meets crit (Some (Parent ac ael acs))) eqn:Em; [reflexivity|].
    rewrite (IHa r _ Hr Hp). reflexivity.
Qed.

(** X25.  [descendant] agrees with [path]: for an offset inside a parent,
    [descendant(criteria, t)] returns the first blot below the parent on
    the path to [t] that meets the criteria, with the offset [path] gives
    for it, and [[null, -1]] when no blot on the path does. *)
Theorem descendant_is_first_on_path (crit : Criteria) (b : Blot) (t : Z)
    (l : list (Blot * Z)) :
  0 <= t < length b -> path b t false = Ok l ->
  descendant crit b t = Ok (first_meeting crit (tail l)).
Proof. intros Ht Hp. exact (descendant_spec crit b t l Ht Hp). Qed.

Lemma descendant_is_first_on_path_witness :
  descendant (ByClass "TextBlot") BlotFacts.root 3
  = Ok (Some (Text Classes.TextBlot "cd" "cd"), 1).
Proof.
  refine (descendant_is_first_on_path (ByClass "TextBlot") BlotFacts.root 3
            [(BlotFacts.root, 3); (Demo.paragraph, 3);
             (Text Classes.TextBlot "cd" "cd", 1)] _ _).
  - vm_compute. split; [discriminate|reflexivity].
  - vm_compute. reflexivity.
Defined.

End LocateFacts.

(** ** More on the image grid *)

Module ImageGridMore.

Ltac step H := cbv beta iota delta [mbind result_bind rbind] in H.

Section Facts.
Variable host : Host.

(** [item.attributes] is there: the destructuring of the item works. *)
Definition has_attributes (item : json) : Prop :=
  exists attrs : json,
    get_field "attributes" item = Some attrs /\ attrs <> JNull.

Lemma item_attributes_inv (item attrs : json) :
  ImageGrid.item_attributes item = Ok attrs -> has_attributes item.
Proof.
  unfold ImageGrid.item_attributes, has_attributes.
  destruct (get_field "attributes" item) as [a|]; [|discriminate].
  destruct a; try discriminate; intros H; eexists; split; try reflexivity;
    discriminate.
Qed.

Lemma reduce_ratios_inv (items : list json) :
  ImageGrid.reduce_ratios items = Ok tt -> Forall has_attributes items.
Proof.
  induction items as [|item items IH]; intros H; [constructor|].
  cbn [ImageGrid.reduce_ratios] in H.
  destruct (ImageGrid.item_attributes item) as [a|err] eqn:Ha;
    [|discriminate].
  simpl in H. constructor; [exact (item_attributes_inv item a Ha)|].
  apply IH.
  destruct (ImageGrid.Number_check (get_field "ratio" a)) as [[]|];
    [exact H|discriminate].
Qed.

Lemma dropHelpers_length (n i : nat) (hs : list Node) :
  ImageGrid.dropHelpers i n = Ok hs -> List.length hs = S n.
Proof.
  revert i hs. induction n as [|n IH]; intros i hs H;
    cbn [ImageGrid.dropHelpers] in H;
    destruct (ImageGrid.dropHelper i) as [h|err]; try discriminate;
    simpl in H.
  - injection H as <-. reflexivity.
  - destruct (ImageGrid.dropHelpers (S i) n) as [hs'|err] eqn:E;
      [|discriminate].
    simpl in H. injection H as <-. simpl. rewrite (IH (S i) hs' E).
    reflexivity.
Qed.

Lemma item_containers_length (items : list json) (i : nat) (cs : list Node) :
  ImageGrid.item_containers host i items = Ok cs ->
  List.length cs = List.length items.
Proof.
  revert i cs. induction items as [|item items IH]; intros i cs H;
    cbn [ImageGrid.item_containers] in H.
  - injection H as <-. reflexivity.
  - destruct (ImageGrid.item_container host i item) as [c|err];
      [|discriminate].
    simpl in H.
    destruct (ImageGrid.item_containers host (S i) items) as [cs'|err] eqn:E;
      [|discriminate].
    simpl in H. injection H as <-. simpl. rewrite (IH (S i) cs' E).
    reflexivity.
Qed.

Lemma mark_ends_length (cs marked : list Node) :
  ImageGrid.mark_ends cs = Ok marked ->
  cs <> [] /\ List.length marked = List.length cs.
Proof.
  unfold ImageGrid.mark_ends. destruct cs as [|c rest]; [discriminate|].
  destruct (ImageGrid.add_class c "left") as [c'|err]; [|discriminate].
  simpl. intros H. split; [discriminate|].
  assert (Hlen : List.length (reverse (c' :: rest)) = S (List.length rest))
    by (rewrite length_reverse; reflexivity).
  destruct (reverse (c' :: rest)) as [|z front]; [discriminate|].
  destruct (ImageGrid.add_class z "right") as [z'|err]; [|discriminate].
  simpl in H. injection H as <-. rewrite length_reverse. simpl in *. lia.
Qed.

(** X26.  [ImageGrid.create] builds a node only from a value whose [data]
    is a non-empty array of items that each have [attributes]; from no
    value, from data that is not an array, from an empty array or from an
    item without attributes it throws.  The node it builds has four
    children: the cursor, the guideline, the wrapper of the drop helpers,
    one more than there are images, and the wrapper of the image
    containers, one per image. *)
Theorem create_shape (cls : Descriptor) (value : option json) (node : Node) :
  ImageGrid.create host cls value = Ok node ->
  exists (v : json) (items : list json) (el w iw : Element)
         (cursor guideline : Node) (helpers containers : list Node),
    value = Some v /\ get_field "data" v = Some (JArr items) /\
    items <> [] /\ Forall has_attributes items /\
    node = NElem el [cursor; guideline; NElem w helpers; NElem iw containers] /\
    List.length helpers = S (List.length items) /\
    List.length containers = List.length items.
Proof.
  unfold ImageGrid.create. intros H.
  destruct (ShadowBlot.create cls None) as [n0|err]; [|discriminate].
  simpl in H.
  destruct value as [v|]; [|discriminate].
  assert (Hv : v <> JNull) by (intros ->; discriminate).
  assert (H' :
    (cursor ← ImageGrid.bar ["vertical-bar"; "cursor"];
     guideline ← ImageGrid.bar ["vertical-bar"; "guideline"];
     wrapper ← classList_add (createElement "div")
                 "image-grid-drop-helper-wrapper";
     match get_field "data" v with
     | Some (JArr items) =>
         helpers ← ImageGrid.dropHelpers 0 (List.length items);
         itemWrapper ← classList_add (createElement "div")
                         "image-grid-item-wrapper";
         _ ← ImageGrid.reduce_ratios items;
         containers ← ImageGrid.item_containers host 0 items;
         marked ← ImageGrid.mark_ends containers;
         Ok (NElem
               (setAttribute
                  (setAttribute n0 "image-grid-data"
                     (ImageGrid.stringify_attr host (get_field "data" v)))
                  "contenteditable" "false")
               [cursor; guideline; NElem wrapper helpers;
                NElem (setAttribute itemWrapper "contenteditable" "false")
                  marked])
     | _ => Err (ImageGrid.type_error "TypeError: data is not an array")
     end) = Ok node).
  { destruct v; try exact H. contradiction. }
  clear H.
  destruct (ImageGrid.bar ["vertical-bar"; "cursor"]) as [cursor|err];
    step H'; [|discriminate].
  destruct (ImageGrid.bar ["vertical-bar"; "guideline"]) as [guideline|err];
    step H'; [|discriminate].
  destruct (classList_add (createElement "div")
              "image-grid-drop-helper-wrapper") as [wrapper|err];
    step H'; [|discriminate].
  destruct (get_field "data" v) as [data|] eqn:Hdata; [|discriminate].
  destruct data as [| | | |items|]; try discriminate.
  destruct (ImageGrid.dropHelpers 0 (List.length items)) as [helpers|err]
    eqn:Hh; step H'; [|discriminate].
  destruct (classList_add (createElement "div") "image-grid-item-wrapper")
    as [itemWrapper|err]; step H'; [|discriminate].
  destruct (ImageGrid.reduce_ratios items) as [[]|err] eqn:Hr;
    step H'; [|discriminate].
  destruct (ImageGrid.item_containers host 0 items) as [containers|err]
    eqn:Hc; step H'; [|discriminate].
  destruct (ImageGrid.mark_ends containers) as [marked|err] eqn:Hm;
    step H'; [|discriminate].
  injection H' as <-.
  destruct (mark_ends_length containers marked Hm) as [Hne Hlen].
  pose proof (item_containers_length items 0 containers Hc) as Hcl.
  exists v, items. do 7 eexists.
  split; [reflexivity|]. split; [exact Hdata|].
  split; [intros ->; destruct containers; [contradiction|discriminate]|].
  split; [exact (reduce_ratios_inv items Hr)|].
  split; [reflexivity|].
  split; [exact (dropHelpers_length _ _ _ Hh)|lia].
Qed.

End Facts.

Lemma create_shape_witness :
  exists (v : json) (items : list json) (el w iw : Element)
         (cursor guideline : Node) (helpers containers : list Node),
    Some (JObj [("data", Demo.one_image)]) = Some v /\
    get_field "data" v = Some (JArr items) /\
    items <> [] /\ Forall has_attributes items /\
    default NOther
      (match ImageGrid.create Demo.host Classes.ImageGrid
               (Some (JObj [("data", Demo.one_image)])) with
       | Ok n => Some n
       | Err _ => None
       end)
    = NElem el [cursor; guideline; NElem w helpers; NElem iw containers] /\
    List.length helpers = S (List.length items) /\
    List.length containers = List.length items.
Proof.
  refine (create_shape Demo.host Classes.ImageGrid
            (Some (JObj [("data", Demo.one_image)])) _ _).
  vm_compute. reflexivity.
Defined.

End ImageGridMore.

(** ** [ShadowBlot.create] on a class with several tags *)

Module ShadowBlotFacts.

(** The decimal form of an integer, as [toString] prints it. *)
Definition decimal (z : Z) : string := NilZero.string_of_int (Z.to_int z).

Lemma upper_digits (d : Decimal.uint) :
  toUpperCase (NilEmpty.string_of_uint d) = NilEmpty.string_of_uint d.
Proof. induction d; simpl; try rewrite IHd; reflexivity. Qed.

Lemma upper_decimal (z : Z) : toUpperCase (decimal z) = decimal z.
Proof.
  unfold decimal, NilZero.string_of_int, NilZero.string_of_uint.
  destruct (Z.to_int z) as [d|d]; destruct d; simpl;
    try rewrite upper_digits; reflexivity.
Qed.

Lemma canonical_decimal (z : Z) : canonical_int (decimal z) = Some z.
Proof.
  unfold canonical_int, decimal.
  rewrite NilZero.isi.
  - rewrite DecimalZ.of_to, String.eqb_refl. reflexivity.
  - destruct z; simpl; try discriminate.
    intros H. injection H as H.
    exact (DecimalPos.Unsigned.to_uint_nonnil _ H).
  - destruct z; simpl; try discriminate.
    intros H. injection H as H.
    exact (DecimalPos.Unsigned.to_uint_nonnil _ H).
Qed.

(** X27.  On a class with a list of tag names, an integer [z] from 1 to
    the number of tags selects the [z]-th tag, and so does the string that
    is the decimal form of [z]: the element created has that tag name, in
    upper case. *)
Theorem create_by_number (cls : Descriptor) (l : list string) (z : Z) :
  tagName cls = Some (TagMany l) -> className cls = None ->
  1 <= z <= Z.of_nat (List.length l) ->
  exists tag : string,
    l !! Z.to_nat (z - 1) = Some tag /\
    ShadowBlot.create cls (Some (JNum z))
    = Ok {| el_tag := toUpperCase tag; el_attrs := ∅ |} /\
    ShadowBlot.create cls (Some (JStr (decimal z)))
    = Ok {| el_tag := toUpperCase tag; el_attrs := ∅ |}.
Proof.
  intros Ht Hc Hz. unfold ShadowBlot.create. rewrite Ht, Hc.
  unfold ShadowBlot.element_name.
  rewrite upper_decimal, canonical_decimal.
  destruct (lookup_lt_is_Some_2 l (Z.to_nat (z - 1)) ltac:(lia)) as [tag Htag].
  exists tag. split; [exact Htag|].
  unfold ShadowBlot.tag_at. replace (z - 1 <? 0) with false by lia.
  rewrite Htag. split; reflexivity.
Qed.

(** A heading class with three levels. *)
Definition Header : Descriptor :=
  {| kind := IsBlot KBlock; blotName := Some "header"; attrName := None;
     keyName := None; className := None;
     tagName := Some (TagMany ["H1"; "H2"; "H3"]);
     scope := Scope.BLOCK_BLOT; whitelist := None; defaultChild := None;
     requiredContainer := None;
     allowedChildren := Some ["InlineBlot"; "BlockBlot"; "LeafBlot"];
     class_id := "Header";
     lineage := ["BlockBlot"; "ParentBlot"; "ShadowBlot"] |}.

Lemma create_by_number_witness :
  exists tag : string,
    ["H1"; "H2"; "H3"] !! Z.to_nat (2 - 1) = Some tag /\
    ShadowBlot.create Header (Some (JNum 2))
    = Ok {| el_tag := toUpperCase tag; el_attrs := ∅ |} /\
    ShadowBlot.create Header (Some (JStr (decimal 2)))
    = Ok {| el_tag := toUpperCase tag; el_attrs := ∅ |}.
Proof.
  refine (create_by_number Header ["H1"; "H2"; "H3"] 2 eq_refl eq_refl _).
  vm_compute. split; discriminate.
Defined.

End ShadowBlotFacts.

(** ** Facts about the key bindings *)

Module KeyboardFacts.
Import Keyboard.

Section Facts.
Variable mac : bool.
Variable ref_to_String : nat -> string.

Lemma SHORTKEY_not_shortKey : SHORTKEY mac <> "shortKey".
Proof. unfold SHORTKEY. destruct mac; discriminate. Qed.

Lemma finish_no_shortKey (o o' : Obj) :
  (if truthy_val (get o "shortKey")
   then Ok (Some (delete "shortKey" (<[SHORTKEY mac := get o "shortKey"]> o)))
   else Ok (Some o)) = Ok (Some o') ->
  truthy_val (get o' "shortKey") = false.
Proof.
  destruct (truthy_val (get o "shortKey")) eqn:E; intros H;
    injection H as <-; [|exact E].
  unfold get. rewrite lookup_delete_eq. reflexivity.
Qed.

(** X28.  What [normalize] returns has no [shortKey] left that counts (the
    field is gone, or it was falsy and stays), and normalizing it again
    changes nothing. *)
Theorem normalize_idempotent (a : Arg) (o : Obj) :
  normalize mac a = Ok (Some o) ->
  truthy_val (get o "shortKey") = false /\
  normalize mac (AObj o) = Ok (Some o).
Proof.
  intros H.
  assert (Hs : truthy_val (get o "shortKey") = false).
  { unfold normalize in H.
    destruct a as [[| |b|n|s]|o0]; try discriminate.
    - exact (finish_no_shortKey {["key" := Prim (VNum n)]} o H).
    - exact (finish_no_shortKey {["key" := Prim (VStr s)]} o H).
    - exact (finish_no_shortKey o0 o H). }
  split; [exact Hs|]. unfold normalize. rewrite Hs. reflexivity.
Qed.

(** X29.  A binding given as [{ key: k, shortKey: true }] matches an event
    exactly when the event has that key, the platform's modifier ([metaKey]
    on a Mac, [ctrlKey] elsewhere) is down and the three other modifiers
    are up. *)
Theorem shortKey_matches_platform_key (k : string) (evt : Event) :
  exists b : Obj,
    normalize mac
      (AObj {["key" := Prim (VStr k); "shortKey" := Prim (VBool true)]})
    = Ok (Some b) /\
    (match_ evt b = true <->
     evt_key evt = k /\
     (if mac then evt_metaKey evt else evt_ctrlKey evt) = true /\
     (if mac then evt_ctrlKey evt else evt_metaKey evt) = false /\
     evt_altKey evt = false /\ evt_shiftKey evt = false).
Proof.
  eexists. split; [reflexivity|].
  destruct evt as [ek ew alt ctrl meta shift].
  unfold match_, modifiers, evt_modifier, SHORTKEY. simpl.
  assert (Hk : forall P : Prop,
             (bool_decide (Prim (VStr k) = Prim (VStr ek)) = true <-> ek = k)).
  { intros _. rewrite bool_decide_eq_true. split; [congruence|intros ->; reflexivity]. }
  destruct mac, alt, ctrl, meta, shift; vm_compute get; simpl;
    rewrite ?orb_false_r;
    try (rewrite (Hk True); tauto);
    (split; [discriminate|intros (_ & ? & ? & ? & ?); discriminate]).
Qed.

(** Every binding of the store is filed under the name of its key. *)
Definition filed (store : Store) : Prop :=
  forall (name : string) (bucket : list Obj) (b : Obj),
    store !! name = Some bucket -> b ∈ bucket ->
    to_property ref_to_String (get b "key") = name.

Lemma add_single_filed (binding context handler : Obj) (store : Store)
    (key : Val) :
  filed store ->
  filed (add_single ref_to_String binding context handler store key).
Proof.
  intros Hf name bucket b Hl Hb. unfold add_single in Hl.
  set (sb := extend binding {["key" := key]} context handler) in *.
  set (n := to_property ref_to_String (get sb "key")) in *.
  destruct (decide (n = name)) as [<-|Hne].
  - rewrite lookup_insert_eq in Hl. injection Hl as <-.
    apply elem_of_app in Hb as [Hb|Hb].
    + destruct (store !! n) as [old|] eqn:Eo; simpl in Hb.
      * exact (Hf n old b Eo Hb).
      * apply elem_of_nil in Hb. contradiction.
    + apply list_elem_of_singleton in Hb as ->. reflexivity.
  - rewrite lookup_insert_ne in Hl by exact Hne. exact (Hf name bucket b Hl Hb).
Qed.

Lemma addBinding_filed (store store' : Store) (kb : Arg)
    (context handler : Extra) :
  filed store ->
  addBinding mac ref_to_String store kb context handler = Ok store' ->
  filed store'.
Proof.
  intros Hf. unfold addBinding.
  destruct (normalize mac kb) as [[binding|]|err]; simpl; try discriminate.
  - intros H. injection H as <-.
    generalize dependent store.
    induction (keys_of binding) as [|key ks IH]; intros store Hf;
      [exact Hf|].
    simpl. apply IH. apply add_single_filed. exact Hf.
  - intros H. injection H as <-. exact Hf.
Qed.

(** The stores [addBinding] builds, from the empty one. *)
Inductive built : Store -> Prop :=
| built_empty : built ∅
| built_add (store store' : Store) (kb : Arg) (context handler : Extra) :
    built store ->
    addBinding mac ref_to_String store kb context handler = Ok store' ->
    built store'.

Lemma built_filed (store : Store) : built store -> filed store.
Proof.
  induction 1 as [|store store' kb c h _ IH Ha].
  - intros name bucket b Hl. rewrite lookup_empty in Hl. discriminate.
  - exact (addBinding_filed store store' kb c h IH Ha).
Qed.

(** X30.  The lookup of [listen] by [evt.key] and [evt.which] loses no
    binding: in a store built by [addBinding], every binding that matches
    an event is among the bindings looked at for that event. *)
Theorem no_match_lost (store : Store) (evt : Event) (name : string)
    (bucket : list Obj) (b : Obj) :
  built store -> store !! name = Some bucket -> b ∈ bucket ->
  match_ evt b = true ->
  b ∈ matches store evt.
Proof.
  intros Hb Hl Hin Hm. unfold matches.
  apply list_elem_of_In, filter_In. split; [|exact Hm].
  apply list_elem_of_In.
  pose proof (built_filed store Hb name bucket b Hl Hin) as Hname.
  unfold match_ in Hm.
  destruct (existsb _ modifiers); [discriminate|].
  unfold candidates. apply elem_of_app.
  apply orb_true_iff in Hm as [Hk|Hk]; apply bool_decide_eq_true in Hk;
    rewrite Hk in Hname; simpl in Hname; subst name.
  - left. rewrite Hl. exact Hin.
  - right. unfold to_String. rewrite Hl. exact Hin.
Qed.

(** X9.  A handler added for a key is found: after
    [addBinding(k, handler)] for a key name [k], whatever the store held,
    the binding [{ key: k, handler }] is among those [listen] keeps for an
    event with that key and no modifier down. *)
Theorem added_binding_is_found (store : Store) (k : string) (h : nat)
    (evt : Event) :
  evt_key evt = k ->
  evt_altKey evt = false -> evt_ctrlKey evt = false ->
  evt_metaKey evt = false -> evt_shiftKey evt = false ->
  exists store' : Store,
    addBinding mac ref_to_String store (APrim (VStr k)) (EFun h) (EObj ∅)
    = Ok store' /\
    {["key" := Prim (VStr k); "handler" := Ref h]} ∈ matches store' evt.
Proof.
  intros Hk Ha Hc Hm Hs. destruct evt as [ek ew alt ctrl meta shift].
  simpl in *. subst.
  eexists. split; [reflexivity|].
  unfold matches. apply list_elem_of_In, filter_In. split.
  - apply list_elem_of_In. unfold candidates. apply elem_of_app. left.
    cbn [evt_key foldl keys_of].
    change (keys_of {["key" := Prim (VStr k)]}) with [Prim (VStr k)].
    cbn [foldl]. unfold add_single.
    change (extend {["key" := Prim (VStr k)]} {["key" := Prim (VStr k)]}
              (as_object (EFun h)) (as_object (EObj ∅)))
      with ({["key" := Prim (VStr k); "handler" := Ref h]} : Obj).
    change (to_property ref_to_String
              (get {["key" := Prim (VStr k); "handler" := Ref h]} "key"))
      with k.
    rewrite lookup_insert_eq. simpl. apply elem_of_app. right.
    apply list_elem_of_here.
  - unfold match_. vm_compute existsb.
    apply orb_true_iff. left. apply bool_decide_eq_true. reflexivity.
Qed.

End Facts.

Lemma normalize_idempotent_witness :
  truthy_val
    (get {["key" := Prim (VStr "b"); "metaKey" := Prim (VBool true)]}
       "shortKey") = false /\
  normalize true
    (AObj {["key" := Prim (VStr "b"); "metaKey" := Prim (VBool true)]})
  = Ok (Some {["key" := Prim (VStr "b"); "metaKey" := Prim (VBool true)]}).
Proof.
  refine (normalize_idempotent true
            (AObj {["key" := Prim (VStr "b"); "shortKey" := Prim (VBool true)]})
            _ _).
  vm_compute. reflexivity.
Defined.

(** The store after [addBinding('Enter', handler 0)]. *)
Definition enter_store : Store :=
  {["Enter" := [ {["key" := Prim (VStr "Enter"); "handler" := Ref 0]} ] ]}.

Lemma built_enter_store : built true (fun _ => "function") enter_store.
Proof.
  apply (built_add true (fun _ => "function") ∅ enter_store
           (APrim (VStr "Enter")) (EFun 0) (EObj ∅) (built_empty _ _)).
  vm_compute. reflexivity.
Qed.

Lemma no_match_lost_witness :
  {["key" := Prim (VStr "Enter"); "handler" := Ref 0]}
  ∈ matches enter_store (mkEvent "Enter" 13 false false false false).
Proof.
  refine (no_match_lost true (fun _ => "function") enter_store
            (mkEvent "Enter" 13 false false false false) "Enter"
            [ {["key" := Prim (VStr "Enter"); "handler" := Ref 0]} ]
            _ built_enter_store _ _ _).
  - vm_compute. reflexivity.
  - apply list_elem_of_here.
  - vm_compute. reflexivity.
Defined.

Lemma added_binding_is_found_witness :
  exists store' : Store,
    addBinding true (fun _ => "function") ∅ (APrim (VStr "Enter")) (EFun 0)
      (EObj ∅) = Ok store' /\
    {["key" := Prim (VStr "Enter"); "handler" := Ref 0]}
    ∈ matches store' (mkEvent "Enter" 13 false false false false).
Proof.
  exact (added_binding_is_found true (fun _ => "function") ∅ "Enter" 0
           (mkEvent "Enter" 13 false false false false)
           eq_refl eq_refl eq_refl eq_refl eq_refl).
Defined.

End KeyboardFacts.
